(** * Foundry PF1 data-cleaner scripts: a shallow embedding and its properties

    The three scripts of the repository repair JSON-lines databases:
    - [repair_pf1_character_resistances_packages.py]  (module [Resist])
    - [repair_pf1_packages.py]                        (module [Packages])
    - [repair_pf_eidolon_forms_identifiers.py]        (module [Eidolon])

    Python values are embedded as the tree type [json].  In-place mutation of a
    document is written as a function returning the new document; a Python
    exception is the [Raise] branch of [res].

    Strings are Rocq strings whose characters are read as the Unicode code
    points 0..255 (Latin-1), which is enough to exhibit every behaviour of
    [str.strip], [str.isdigit] and [int] the scripts depend on. *)

From Stdlib Require Import List String Ascii ZArith Bool Lia Arith PeanoNat.
From Stdlib Require Import DecimalString DecimalNat FinFun Permutation.
Import ListNotations.

Local Open Scope string_scope.
Local Open Scope list_scope.
Local Open Scope nat_scope.

(* ------------------------------------------------------------------ *)
(** ** Python strings *)

Module PyStr.

(** [str.isspace] on one code point below 256: TAB..CR, FS..US, SPACE,
    NEL (0x85) and NBSP (0xA0). *)
Definition is_space (c : ascii) : bool :=
  let n := nat_of_ascii c in
  ((9 <=? n) && (n <=? 13)) || ((28 <=? n) && (n <=? 32))
  || (n =? 133) || (n =? 160).

(** The characters [int] reads as decimal digits (category Nd). *)
Definition is_decimal (c : ascii) : bool :=
  let n := nat_of_ascii c in (48 <=? n) && (n <=? 57).

(** [str.isdigit] on one code point below 256: the decimal digits and the
    superscripts U+00B2, U+00B3, U+00B9 (Numeric_Type=Digit). *)
Definition is_digit_char (c : ascii) : bool :=
  let n := nat_of_ascii c in
  is_decimal c || (n =? 178) || (n =? 179) || (n =? 185).

Fixpoint all_chars (p : ascii -> bool) (s : string) : bool :=
  match s with
  | EmptyString => true
  | String c r => p c && all_chars p r
  end.

Definition is_empty (s : string) : bool :=
  match s with EmptyString => true | _ => false end.

(** [s.isdigit()]: false on the empty string. *)
Definition isdigit (s : string) : bool :=
  negb (is_empty s) && all_chars is_digit_char s.

Fixpoint lstrip (s : string) : string :=
  match s with
  | EmptyString => EmptyString
  | String c r => if is_space c then lstrip r else s
  end.

Fixpoint rstrip (s : string) : string :=
  match s with
  | EmptyString => EmptyString
  | String c r =>
      let r' := rstrip r in
      if is_space c && is_empty r' then EmptyString else String c r'
  end.

(** [s.strip()] *)
Definition strip (s : string) : string := rstrip (lstrip s).

(** [s.startswith("+") and s[1:].isdigit()] *)
Definition is_plus_number (s : string) : bool :=
  match s with
  | String "+"%char r => isdigit r
  | _ => false
  end.

(** [s[1:]] *)
Definition tail (s : string) : string :=
  match s with EmptyString => EmptyString | String _ r => r end.

Definition digit_val (c : ascii) : Z := Z.of_nat (nat_of_ascii c) - 48.

Fixpoint int_acc (acc : Z) (s : string) : option Z :=
  match s with
  | EmptyString => Some acc
  | String c r =>
      if is_decimal c then int_acc (10 * acc + digit_val c)%Z r else None
  end.

(** The default of [sys.get_int_max_str_digits()]: [int] refuses a string
    of more digits, leading zeros included. *)
Definition max_str_digits : Z := 4300.

(** [int(s)] for the strings the scripts pass to it (they satisfy
    [isdigit], so no sign, blank or underscore occurs): the base-10 value
    when every character is a decimal digit and there are at most
    [max_str_digits] of them, [None] for the [ValueError] Python raises
    otherwise. *)
Definition py_int (s : string) : option Z :=
  if is_empty s then None
  else if (max_str_digits <? Z.of_nat (String.length s))%Z then None
  else int_acc 0 s.

(** [str(i)] for a natural number *)
Definition str_of_nat (n : nat) : string :=
  NilEmpty.string_of_uint (Nat.to_uint n).

(** The separator class of [SPLIT_RE = re.compile(r"[;,]+")]. *)
Definition is_sep (c : ascii) : bool :=
  (nat_of_ascii c =? 59) || (nat_of_ascii c =? 44).

(** [SPLIT_RE.split(s)]: cut at every maximal run of separators; [in_run]
    tells that the previous character was a separator. *)
Fixpoint re_split (in_run : bool) (s : string) : list string :=
  match s with
  | EmptyString => [EmptyString]
  | String c r =>
      if is_sep c then
        if in_run then re_split true r else EmptyString :: re_split true r
      else
        match re_split false r with
        | t :: ts => String c t :: ts
        | [] => [String c EmptyString]
        end
  end.

(** [";" in v or "," in v] *)
Definition has_sep (s : string) : bool := negb (all_chars (fun c => negb (is_sep c)) s).

(** A string is blank when [s.strip()] is falsy. *)
Definition nonblank (s : string) : bool := negb (is_empty (strip s)).

(** [str_to_list]: split, strip every token, drop the empty ones. *)
Definition str_to_list (s : string) : list string :=
  filter (fun t => negb (is_empty t)) (map strip (re_split false s)).

End PyStr.

(* ------------------------------------------------------------------ *)
(** ** Documents: the values [json.loads] produces *)

(** Python's [dict] keeps insertion order and has unique keys; it is an
    association list here, read and written at the first entry of a key.
    A float is kept as its literal: no script inspects one. *)
#[local] Unset Elimination Schemes.
Inductive json : Type :=
| JNull
| JBool (b : bool)
| JInt (n : Z)
| JFloat (lit : string)
| JStr (s : string)
| JList (l : list json)
| JDict (kvs : list (string * json)).
#[local] Set Elimination Schemes.

(** Structural equality, the [==] / [!=] the scripts apply to a list and its
    own filtered copy. *)
Fixpoint json_eqb (a b : json) : bool :=
  match a, b with
  | JNull, JNull => true
  | JBool x, JBool y => Bool.eqb x y
  | JInt x, JInt y => Z.eqb x y
  | JFloat x, JFloat y => String.eqb x y
  | JStr x, JStr y => String.eqb x y
  | JList x, JList y =>
      (fix go (x y : list json) : bool :=
         match x, y with
         | [], [] => true
         | a' :: x', b' :: y' => json_eqb a' b' && go x' y'
         | _, _ => false
         end) x y
  | JDict x, JDict y =>
      (fix go (x y : list (string * json)) : bool :=
         match x, y with
         | [], [] => true
         | (k1, a') :: x', (k2, b') :: y' =>
             String.eqb k1 k2 && json_eqb a' b' && go x' y'
         | _, _ => false
         end) x y
  | _, _ => false
  end.

Inductive exn : Type := ValueError.

(** Outcome of a call: a value, or a raised exception. *)
Inductive res (A : Type) : Type :=
| Ok (a : A)
| Raise (e : exn).
Arguments Ok {A} a.
Arguments Raise {A} e.

Definition bind {A B : Type} (m : res A) (k : A -> res B) : res B :=
  match m with
  | Ok a => k a
  | Raise e => Raise e
  end.

Notation "x <- m ;; k" := (bind m (fun x => k))
  (at level 61, m at next level, right associativity).
Notation "' p <- m ;; k" := (bind m (fun p => k))
  (at level 61, p pattern, m at next level, right associativity).

Module Dict.

(** [d.get(k)] / [k in d] *)
Fixpoint get (k : string) (d : list (string * json)) : option json :=
  match d with
  | [] => None
  | (k', v) :: r => if String.eqb k k' then Some v else get k r
  end.

(** [d[k] = v]: overwrite in place, or append a new key at the end. *)
Fixpoint set (k : string) (v : json) (d : list (string * json))
  : list (string * json) :=
  match d with
  | [] => [(k, v)]
  | (k', v') :: r =>
      if String.eqb k k' then (k', v) :: r else (k', v') :: set k v r
  end.

(** [del d[k]] for a key that is present *)
Fixpoint del (k : string) (d : list (string * json)) : list (string * json) :=
  match d with
  | [] => []
  | (k', v') :: r => if String.eqb k k' then r else (k', v') :: del k r
  end.

Definition keys (d : list (string * json)) : list string := map fst d.

End Dict.

Definition is_dict (v : json) : bool :=
  match v with JDict _ => true | _ => false end.
Definition is_list (v : json) : bool :=
  match v with JList _ => true | _ => false end.
Definition is_str (v : json) : bool :=
  match v with JStr _ => true | _ => false end.
Definition is_null (v : json) : bool :=
  match v with JNull => true | _ => false end.

(** [get(d, path)] of the scripts, the path already split on ".":
    [None] is the [default] the scripts leave at [None]. *)
Fixpoint get_path (cur : json) (path : list string) : option json :=
  match path with
  | [] => Some cur
  | part :: rest =>
      match cur with
      | JDict kvs =>
          match Dict.get part kvs with
          | Some v => get_path v rest
          | None => None
          end
      | _ => None
      end
  end.

(* ------------------------------------------------------------------ *)
(** ** [convert_plus_number_strings] (both scripts) *)

Section Walk.
Variable rec : json -> res (bool * json).

(** One iteration of either loop body: a string that strips to a plus
    number is replaced by [int(s[1:])], anything else is walked. *)
Definition conv_value (v : json) : res (bool * json) :=
  match v with
  | JStr s =>
      let s' := PyStr.strip s in
      if PyStr.is_plus_number s' then
        match PyStr.py_int (PyStr.tail s') with
        | Some n => Ok (true, JInt n)
        | None => Raise ValueError
        end
      else Ok (false, v)
  | _ => rec v
  end.

(** [for i, v in enumerate(list(obj))] *)
Fixpoint conv_list (l : list json) : res (bool * list json) :=
  match l with
  | [] => Ok (false, [])
  | v :: r =>
      '(c1, v') <- conv_value v ;;
      '(c2, r') <- conv_list r ;;
      Ok (c1 || c2, v' :: r')
  end.

(** [for k, v in list(obj.items())] *)
Fixpoint conv_items (d : list (string * json))
  : res (bool * list (string * json)) :=
  match d with
  | [] => Ok (false, [])
  | (k, v) :: r =>
      '(c1, v') <- conv_value v ;;
      '(c2, r') <- conv_items r ;;
      Ok (c1 || c2, (k, v') :: r')
  end.
End Walk.

Fixpoint convert_plus_number_strings (obj : json) : res (bool * json) :=
  match obj with
  | JDict kvs =>
      '(c, kvs') <- conv_items convert_plus_number_strings kvs ;;
      Ok (c, JDict kvs')
  | JList l =>
      '(c, l') <- conv_list convert_plus_number_strings l ;;
      Ok (c, JList l')
  | _ => Ok (false, obj)
  end.


(** The value at an existing path replaced: what a write through an alias of
    a nested object does to the enclosing document.  A path that does not
    lead through mappings leaves the document as it is. *)
Fixpoint put_path (cur : json) (path : list string) (v : json) : json :=
  match path with
  | [] => v
  | part :: rest =>
      match cur with
      | JDict kvs =>
          match Dict.get part kvs with
          | Some sub => JDict (Dict.set part (put_path sub rest v) kvs)
          | None => cur
          end
      | _ => cur
      end
  end.

(** [ensure_dict_path(d, path)]: every step that is missing or not a mapping
    becomes an empty mapping. *)
Fixpoint ensure_dict_path (d : list (string * json)) (path : list string)
  : list (string * json) :=
  match path with
  | [] => d
  | part :: rest =>
      let sub := match Dict.get part d with
                 | Some (JDict s) => s
                 | _ => []
                 end in
      Dict.set part (JDict (ensure_dict_path sub rest)) d
  end.

(** [isinstance(x, str) and x.strip()] *)
Definition keep_entry (x : json) : bool :=
  match x with JStr s => PyStr.nonblank s | _ => false end.

Definition strs (l : list string) : json := JList (map JStr l).

(** [sum(1 for x in lang_val if x is None)] *)
Definition count_nulls (l : list json) : nat :=
  List.length (filter is_null l).

(** One round of [for field in ("custom", "customTotal")], the same in both
    normalizers up to the message: a string is split into a list, a list is
    filtered and replaced when the filter dropped something. *)
Definition clean_field {C : Type} (field : string)
  (on_str : list string -> C) (on_clean : C)
  (st : bool * list (string * json) * list C)
  : bool * list (string * json) * list C :=
  let '(changed, trait, changes) := st in
  match Dict.get field trait with
  | Some (JStr val) =>
      let new_list := PyStr.str_to_list val in
      (true, Dict.set field (strs new_list) trait,
       changes ++ [on_str new_list])
  | Some (JList val) =>
      let cleaned := filter keep_entry val in
      if negb (json_eqb (JList cleaned) (JList val)) then
        (true, Dict.set field (JList cleaned) trait, changes ++ [on_clean])
      else st
  | _ => st
  end.

(** The languages step both normalizers contain: when
    [system.traits.languages.value] is a list holding [None], the count of
    them and the document with the list filtered. *)
Definition purge_language_nulls (doc : json) : option (nat * json) :=
  match get_path doc ["system"; "traits"; "languages"; "value"] with
  | Some (JList lang_val) =>
      let nulls := count_nulls lang_val in
      if negb (nulls =? 0) then
        let doc1 :=
          match doc with
          | JDict d => JDict (ensure_dict_path d ["system"; "traits"; "languages"])
          | _ => doc
          end in
        Some (nulls,
              put_path doc1 ["system"; "traits"; "languages"; "value"]
                (JList (filter (fun x => negb (is_null x)) lang_val)))
      else None
  | _ => None
  end.

(* ------------------------------------------------------------------ *)
(** ** repair_pf1_character_resistances_packages.py *)

Module Resist.

(** The messages appended to [changes], with the values they interpolate. *)
Inductive change : Type :=
| CreatedDict (key : string)
| ValueNone (key : string)
| ValueStr (key : string)
| ValueCleaned (key : string)
| ValueInvalid (key : string)
| FieldStr (key field : string)
| FieldCleaned (key field : string)
| LangNulls (n : nat)
| GlobalPlus.

(** One round of [for field in ("custom", "customTotal")]. *)
Definition fix_field (key field : string)
  : bool * list (string * json) * list change ->
    bool * list (string * json) * list change :=
  clean_field field (fun _ => FieldStr key field) (FieldCleaned key field).

(** The [value] part of [ensure_trait_arrays]. *)
Definition fix_value (key : string)
  (st : bool * list (string * json) * list change)
  : bool * list (string * json) * list change :=
  let '(changed, trait, changes) := st in
  match Dict.get "value" trait with
  | None | Some JNull =>
      (true, Dict.set "value" (JList []) trait, changes ++ [ValueNone key])
  | Some (JStr v) =>
      (true, Dict.set "value" (strs (PyStr.str_to_list v)) trait,
       changes ++ [ValueStr key])
  | Some (JList v) =>
      let cleaned := filter keep_entry v in
      if negb (json_eqb (JList cleaned) (JList v)) then
        (true, Dict.set "value" (JList cleaned) trait,
         changes ++ [ValueCleaned key])
      else st
  | Some _ =>
      (true, Dict.set "value" (JList []) trait, changes ++ [ValueInvalid key])
  end.

(** [ensure_trait_arrays(traits, key, changes)]: the returned flag, the
    mutated [traits] and the extended log. *)
Definition ensure_trait_arrays (traits : list (string * json)) (key : string)
  (changes : list change) : bool * list (string * json) * list change :=
  let '(changed, traits1, changes1) :=
    match Dict.get key traits with
    | Some (JDict _) => (false, traits, changes)
    | _ => (true, Dict.set key (JDict []) traits, changes ++ [CreatedDict key])
    end in
  let trait := match Dict.get key traits1 with
               | Some (JDict t) => t
               | _ => []
               end in
  let '(changed2, trait2, changes2) :=
    fix_field key "customTotal"
      (fix_field key "custom" (fix_value key (changed, trait, changes1))) in
  (changed2, Dict.set key (JDict trait2) traits1, changes2).

(** Body of [for key in ("eres", "dr", "dv")]. *)
Definition ensure_step (st : bool * list (string * json) * list change)
  (key : string) : bool * list (string * json) * list change :=
  let '(changed, tr, changes) := st in
  let '(c, tr', changes') := ensure_trait_arrays tr key changes in
  (changed || c, tr', changes').

(** [repair_actor_doc(doc)]: the flag, the log and the mutated document. *)
Definition repair_actor_doc (doc : json) : res (bool * list change * json) :=
  match get_path doc ["system"; "traits"] with
  | Some (JDict traits) =>
      let '(changed1, traits1, changes1) :=
        fold_left ensure_step ["eres"; "dr"; "dv"] (false, traits, []) in
      let doc1 := put_path doc ["system"; "traits"] (JDict traits1) in
      let '(changed2, changes2, doc2) :=
        match purge_language_nulls doc1 with
        | Some (nulls, d) => (true, changes1 ++ [LangNulls nulls], d)
        | None => (changed1, changes1, doc1)
        end in
      '(c, doc3) <- convert_plus_number_strings doc2 ;;
      if c then Ok (true, changes2 ++ [GlobalPlus], doc3)
      else Ok (changed2, changes2, doc3)
  | _ =>
      '(c, doc1) <- convert_plus_number_strings doc ;;
      if c then Ok (true, [GlobalPlus], doc1) else Ok (false, [], doc1)
  end.

(** [should_patch_doc(doc)] *)
Definition should_patch_doc (doc : list (string * json)) : bool :=
  match Dict.get "type" doc with
  | Some (JStr t) => String.eqb t "character" || String.eqb t "npc"
  | _ => false
  end.

(** Lines 216-225 of [process_db_file] for a line that parsed to a mapping:
    the document handed to [json.dumps] and whether it counts as patched. *)
Definition process_doc (doc : list (string * json)) : res (bool * json) :=
  if should_patch_doc doc then
    '(changed, _, doc') <- repair_actor_doc (JDict doc) ;;
    Ok (changed, doc')
  else Ok (false, JDict doc).

End Resist.

(* ------------------------------------------------------------------ *)
(** ** repair_pf1_packages.py *)

Module Packages.

Definition TRAIT_KEYS : list string :=
  ["di"; "dv"; "ci"; "languages"; "armorProf"; "weaponProf"].

Inductive change : Type :=
| PlusKey (k v : string) (n : Z)
| PlusIdx (i : nat) (v : string) (n : Z)
| LangNulls (n : nat)
| FieldStr (k field : string) (len : nat)
| FieldCleaned (k field : string)
| ValueSplit (k : string) (len : nat).

Section Walk.
Variable rec : json -> res (bool * list change * json).

(** One loop iteration; [mk] builds the log entry of the loop at hand. *)
Definition conv_value (mk : string -> Z -> change) (v : json)
  : res (bool * list change * json) :=
  match v with
  | JStr s =>
      let s' := PyStr.strip s in
      if PyStr.is_plus_number s' then
        match PyStr.py_int (PyStr.tail s') with
        | Some n => Ok (true, [mk s n], JInt n)
        | None => Raise ValueError
        end
      else Ok (false, [], v)
  | _ => rec v
  end.

Fixpoint conv_list (i : nat) (l : list json)
  : res (bool * list change * list json) :=
  match l with
  | [] => Ok (false, [], [])
  | v :: r =>
      '(c1, log1, v') <- conv_value (PlusIdx i) v ;;
      '(c2, log2, r') <- conv_list (S i) r ;;
      Ok (c1 || c2, log1 ++ log2, v' :: r')
  end.

Fixpoint conv_items (d : list (string * json))
  : res (bool * list change * list (string * json)) :=
  match d with
  | [] => Ok (false, [], [])
  | (k, v) :: r =>
      '(c1, log1, v') <- conv_value (PlusKey k) v ;;
      '(c2, log2, r') <- conv_items r ;;
      Ok (c1 || c2, log1 ++ log2, (k, v') :: r')
  end.
End Walk.

(** [convert_plus_number_strings(obj, changes)] with a log: the flag, the
    entries appended to [changes], and the mutated object. *)
Fixpoint convert_plus_number_strings (obj : json)
  : res (bool * list change * json) :=
  match obj with
  | JDict kvs =>
      '(c, log, kvs') <- conv_items convert_plus_number_strings kvs ;;
      Ok (c, log, JDict kvs')
  | JList l =>
      '(c, log, l') <- conv_list convert_plus_number_strings 0 l ;;
      Ok (c, log, JList l')
  | _ => Ok (false, [], obj)
  end.

(** One round of [for field in ("custom", "customTotal")] on the trait [k]. *)
Definition fix_field (k field : string)
  : bool * list (string * json) * list change ->
    bool * list (string * json) * list change :=
  clean_field field (fun new_list => FieldStr k field (List.length new_list))
    (FieldCleaned k field).

(** Body of loop 2) for one key of [TRAIT_KEYS]. *)
Definition fix_custom (st : bool * list (string * json) * list change)
  (k : string) : bool * list (string * json) * list change :=
  let '(changed, traits, changes) := st in
  match Dict.get k traits with
  | Some (JDict trait) =>
      let '(changed', trait', changes') :=
        fix_field k "customTotal"
          (fix_field k "custom" (changed, trait, changes)) in
      (changed', Dict.set k (JDict trait') traits, changes')
  | _ => st
  end.

(** Body of loop 3) for one key of [("di", "dv", "ci")]. *)
Definition split_value (st : bool * list (string * json) * list change)
  (k : string) : bool * list (string * json) * list change :=
  let '(changed, traits, changes) := st in
  match Dict.get k traits with
  | Some (JDict trait) =>
      match Dict.get "value" trait with
      | Some (JStr v) =>
          if PyStr.has_sep v then
            let new_v := PyStr.str_to_list v in
            (true,
             Dict.set k (JDict (Dict.set "value" (strs new_v) trait)) traits,
             changes ++ [ValueSplit k (List.length new_v)])
          else st
      | _ => st
      end
  | _ => st
  end.

(** [repair_doc(doc)].  [traits] is an alias of [doc["system"]["traits"]]:
    it is read again after the languages step, which writes through it. *)
Definition repair_doc (doc : json) : res (bool * list change * json) :=
  match get_path doc ["system"; "traits"] with
  | Some (JDict _) =>
      let '(changed1, changes1, doc1) :=
        match purge_language_nulls doc with
        | Some (nulls, d) => (true, [LangNulls nulls], d)
        | None => (false, [], doc)
        end in
      let traits := match get_path doc1 ["system"; "traits"] with
                    | Some (JDict t) => t
                    | _ => []
                    end in
      let '(changed2, traits2, changes2) :=
        fold_left split_value ["di"; "dv"; "ci"]
          (fold_left fix_custom TRAIT_KEYS (changed1, traits, changes1)) in
      let doc2 := put_path doc1 ["system"; "traits"] (JDict traits2) in
      '(c, log, doc3) <- convert_plus_number_strings doc2 ;;
      Ok (changed2 || c, changes2 ++ log, doc3)
  | _ =>
      '(c, log, doc1) <- convert_plus_number_strings doc ;;
      Ok (c, log, doc1)
  end.

(** Lines 187-201 of [process_db_file] for a line that parsed to a mapping. *)
Definition process_doc (only_npc : bool) (doc : list (string * json))
  : res (bool * json) :=
  let is_npc := match Dict.get "type" doc with
                | Some (JStr t) => String.eqb t "npc"
                | _ => false
                end in
  if only_npc && negb is_npc then Ok (false, JDict doc)
  else
    '(changed, _, doc') <- repair_doc (JDict doc) ;;
    Ok (changed, doc').

End Packages.

(* ------------------------------------------------------------------ *)
(** ** repair_pf_eidolon_forms_identifiers.py *)

Module Eidolon.

Inductive change : Type :=
| ItemRenamed (name : option json) (item_id tag new_tag : string)
| ActionRenamed (it_name : option json) (a_tag new_a_tag : string)
| ResourceRemoved (k : string).

(** [x in seen]: the set of claimed identifiers is the list of them,
    the newest first. *)
Definition mem (x : string) (seen : list string) : bool :=
  existsb (String.eqb x) seen.

(** [is_actor_doc(doc)] *)
Definition is_actor_doc (doc : list (string * json)) : bool :=
  match Dict.get "type" doc with
  | Some (JStr t) =>
      (String.eqb t "character" || String.eqb t "npc")
      && match Dict.get "items" doc with
         | Some (JList _) => true
         | _ => false
         end
  | _ => false
  end.

(** The stripped, non-empty string under [tag], as both tag getters read it. *)
Definition read_tag (d : list (string * json)) : option string :=
  match Dict.get "tag" d with
  | Some (JStr t) =>
      if PyStr.nonblank t then Some (PyStr.strip t) else None
  | _ => None
  end.

(** [get_item_tag(item)] *)
Definition get_item_tag (item : list (string * json)) : option string :=
  match Dict.get "system" item with
  | Some (JDict sysd) => read_tag sysd
  | _ => None
  end.

(** [set_item_tag(item, new_tag)] *)
Definition set_item_tag (item : list (string * json)) (new_tag : string)
  : list (string * json) :=
  let sysd := match Dict.get "system" item with
              | Some (JDict sd) => sd
              | _ => []
              end in
  Dict.set "system"
    (JDict (Dict.set "useCustomTag" (JBool true)
              (Dict.set "tag" (JStr new_tag) sysd))) item.

(** [get_action_tag(action)] *)
Definition get_action_tag (action : list (string * json)) : option string :=
  read_tag action.

(** [set_action_tag(action, new_tag)] *)
Definition set_action_tag (action : list (string * json)) (new_tag : string)
  : list (string * json) :=
  Dict.set "tag" (JStr new_tag) action.

(** [f"{cand}_{i}"] *)
Definition numbered (cand : string) (i : nat) : string :=
  (cand ++ "_" ++ PyStr.str_of_nat i)%string.

(** The [while] loop of [unique_tag], started at [i]; [fuel] bounds the
    iterations ([unique_tag_loop_fresh] shows the bound is never reached). *)
Fixpoint unique_tag_loop (fuel i : nat) (cand : string) (seen : list string)
  : string :=
  match fuel with
  | 0 => numbered cand i
  | S fuel' =>
      if mem (numbered cand i) seen
      then unique_tag_loop fuel' (S i) cand seen
      else numbered cand i
  end.

(** [unique_tag(base, suffix, seen)] *)
Definition unique_tag (base suffix : string) (seen : list string) : string :=
  let cand := (base ++ suffix)%string in
  if negb (mem cand seen) then cand
  else unique_tag_loop (S (List.length seen)) 2 cand seen.

(** [x.get("_id")], or [dflt] unless it is a non-empty string. *)
Definition id_or (dflt : string) (d : list (string * json)) : string :=
  match Dict.get "_id" d with
  | Some (JStr i) => if PyStr.is_empty i then dflt else i
  | _ => dflt
  end.

(** State threaded through the passes. *)
Record state : Type := mkState {
  seen : list string;
  item_tags_in_actor : list string;
  changed : bool;
  changes : list change
}.

(** Body of the PASS 1 loop: the item as left by the iteration. *)
Definition pass1_item (st : state) (it : json) : state * json :=
  match it with
  | JDict item =>
      match get_item_tag item with
      | None => (st, it)
      | Some tag =>
          if negb (mem tag (seen st)) then
            (mkState (tag :: seen st) (item_tags_in_actor st ++ [tag])
               (changed st) (changes st), it)
          else
            let item_id := id_or "noid" item in
            let new_tag := unique_tag tag ("_" ++ item_id) (seen st) in
            let item' := set_item_tag item new_tag in
            (mkState (new_tag :: seen st)
               (item_tags_in_actor st ++ [new_tag]) true
               (changes st
                ++ [ItemRenamed (Dict.get "name" item') item_id tag new_tag]),
             JDict item')
      end
  | _ => (st, it)
  end.

(** A loop over a list whose elements are mutated in place. *)
Fixpoint loop {S A : Type} (body : S -> A -> S * A) (st : S) (l : list A)
  : S * list A :=
  match l with
  | [] => (st, [])
  | x :: r =>
      let '(st1, x') := body st x in
      let '(st2, r') := loop body st1 r in
      (st2, x' :: r')
  end.

(** Body of the inner PASS 2 loop; [iter_actions] skips what is no mapping. *)
Definition pass2_action (it_name : option json) (st : state) (a : json)
  : state * json :=
  match a with
  | JDict act =>
      match get_action_tag act with
      | None => (st, a)
      | Some a_tag =>
          if mem a_tag (seen st) then
            let act_id := id_or "noactid" act in
            let new_a_tag := unique_tag a_tag ("_act_" ++ act_id) (seen st) in
            (mkState (new_a_tag :: seen st) (item_tags_in_actor st) true
               (changes st ++ [ActionRenamed it_name a_tag new_a_tag]),
             JDict (set_action_tag act new_a_tag))
          else
            (mkState (a_tag :: seen st) (item_tags_in_actor st)
               (changed st) (changes st), a)
      end
  | _ => (st, a)
  end.

(** Body of the outer PASS 2 loop. *)
Definition pass2_item (st : state) (it : json) : state * json :=
  match it with
  | JDict item =>
      match Dict.get "system" item with
      | Some (JDict sysd) =>
          match Dict.get "actions" sysd with
          | Some (JList acts) =>
              let '(st', acts') :=
                loop (pass2_action (Dict.get "name" item)) st acts in
              (st', JDict (Dict.set "system"
                             (JDict (Dict.set "actions" (JList acts') sysd))
                             item))
          | _ => (st, it)
          end
      | _ => (st, it)
      end
  | _ => (st, it)
  end.

(** [get_resources_dict(actor)] *)
Definition get_resources_dict (actor : list (string * json))
  : option (list (string * json)) :=
  match Dict.get "system" actor with
  | Some (JDict sysd) =>
      match Dict.get "resources" sysd with
      | Some (JDict r) => Some r
      | _ => None
      end
  | _ => None
  end.

(** PASS 3 on the resource map. *)
Definition pass3 (tags : list string) (r : list (string * json))
  : list string * list (string * json) :=
  let to_delete := filter (fun k => mem k tags) (Dict.keys r) in
  (to_delete, fold_left (fun r' k => Dict.del k r') to_delete r).

(** [fix_actor_identifiers_and_resources(actor)]: the flag, the log and the
    mutated actor. *)
Definition fix_actor_identifiers_and_resources (actor : list (string * json))
  : bool * list change * json :=
  match Dict.get "items" actor with
  | Some (JList items) =>
      let '(st1, items1) := loop pass1_item (mkState [] [] false []) items in
      let '(st2, items2) := loop pass2_item st1 items1 in
      let actor2 := Dict.set "items" (JList items2) actor in
      match get_resources_dict actor2 with
      | Some r =>
          let '(to_delete, r') := pass3 (item_tags_in_actor st2) r in
          match to_delete with
          | [] => (changed st2, changes st2, JDict actor2)
          | _ =>
              (true, changes st2 ++ map ResourceRemoved to_delete,
               put_path (JDict actor2) ["system"; "resources"] (JDict r'))
          end
      | None => (changed st2, changes st2, JDict actor2)
      end
  | _ => (false, [], JDict actor)
  end.

End Eidolon.

(* ------------------------------------------------------------------ *)
(** ** The text of a line: [json.dumps] and [json.loads]

    Both belong to Python's library, not to the scripts.  [json_dumps] is
    [json.dumps(doc, ensure_ascii=False)] with its default separators;
    [json_loads] is the decoder on documents whose numbers and strings fit
    the value model (an escape [\uXXXX] above U+00FF is outside it).  A
    float is written back as the literal it was read from, where
    [json.dumps] writes the [repr] of the float ([1.50] comes out as
    [1.5]): the text of a float in the output is outside the model. *)

Module Text.

Definition hex_digit (n : nat) : ascii :=
  ascii_of_nat (if n <? 10 then 48 + n else 87 + n).

(** One character inside a string literal, as [json.dumps] writes it. *)
Definition escape_char (c : ascii) : string :=
  let n := nat_of_ascii c in
  if n =? 34 then String "\" (String (ascii_of_nat 34) "")
  else if n =? 92 then "\\"
  else if n =? 10 then "\n"
  else if n =? 13 then "\r"
  else if n =? 9 then "\t"
  else if n =? 8 then "\b"
  else if n =? 12 then "\f"
  else if n <? 32 then
    String "\" (String "u" (String "0" (String "0"
      (String (hex_digit (n / 16)) (String (hex_digit (n mod 16)) "")))))
  else String c "".

Fixpoint escape (s : string) : string :=
  match s with
  | EmptyString => EmptyString
  | String c r => (escape_char c ++ escape r)%string
  end.

Definition quote (s : string) : string :=
  (String (ascii_of_nat 34) (escape s) ++ String (ascii_of_nat 34) "")%string.

Definition str_of_Z (n : Z) : string :=
  NilEmpty.string_of_int (Z.to_int n).

Fixpoint join (sep : string) (l : list string) : string :=
  match l with
  | [] => EmptyString
  | [x] => x
  | x :: r => (x ++ sep ++ join sep r)%string
  end.

Fixpoint json_dumps (v : json) : string :=
  match v with
  | JNull => "null"
  | JBool true => "true"
  | JBool false => "false"
  | JInt n => str_of_Z n
  | JFloat lit => lit
  | JStr s => quote s
  | JList l => ("[" ++ join ", " (map json_dumps l) ++ "]")%string
  | JDict kvs =>
      ("{" ++ join ", "
                (map (fun kv => (quote (fst kv) ++ ": " ++ json_dumps (snd kv))%string)
                     kvs)
           ++ "}")%string
  end.

(** JSON white space: space, TAB, LF, CR. *)
Definition is_ws (c : ascii) : bool :=
  let n := nat_of_ascii c in
  (n =? 32) || (n =? 9) || (n =? 10) || (n =? 13).

Fixpoint skip_ws (s : string) : string :=
  match s with
  | String c r => if is_ws c then skip_ws r else s
  | EmptyString => s
  end.

(** [s] without the prefix [lit], when it starts with it. *)
Fixpoint expect (lit s : string) : option string :=
  match lit, s with
  | EmptyString, _ => Some s
  | String a l, String b r => if Ascii.eqb a b then expect l r else None
  | _, _ => None
  end.

Definition hex_val (c : ascii) : option nat :=
  let n := nat_of_ascii c in
  if (48 <=? n) && (n <=? 57) then Some (n - 48)
  else if (97 <=? n) && (n <=? 102) then Some (n - 87)
  else if (65 <=? n) && (n <=? 70) then Some (n - 55)
  else None.

(** The character a one-letter escape stands for. *)
Definition unescape (e : ascii) : option ascii :=
  let n := nat_of_ascii e in
  if (n =? 34) || (n =? 92) || (n =? 47) then Some e
  else if n =? 98 then Some (ascii_of_nat 8)
  else if n =? 102 then Some (ascii_of_nat 12)
  else if n =? 110 then Some (ascii_of_nat 10)
  else if n =? 114 then Some (ascii_of_nat 13)
  else if n =? 116 then Some (ascii_of_nat 9)
  else None.

(** The rest of a string literal after its opening quote: the decoded
    string and what follows the closing quote. *)
Fixpoint parse_chars (s : string) : option (string * string) :=
  match s with
  | EmptyString => None
  | String c r =>
      let n := nat_of_ascii c in
      if n =? 34 then Some (EmptyString, r)
      else if n <? 32 then None
      else if n =? 92 then
        match r with
        | String "u" (String h1 (String h2 (String h3 (String h4 r')))) =>
            match hex_val h1, hex_val h2, hex_val h3, hex_val h4 with
            | Some 0, Some 0, Some a, Some b =>
                match parse_chars r' with
                | Some (t, rest) => Some (String (ascii_of_nat (16 * a + b)) t, rest)
                | None => None
                end
            | _, _, _, _ => None
            end
        | String e r' =>
            match unescape e, parse_chars r' with
            | Some ch, Some (t, rest) => Some (String ch t, rest)
            | _, _ => None
            end
        | EmptyString => None
        end
      else
        match parse_chars r with
        | Some (t, rest) => Some (String c t, rest)
        | None => None
        end
  end.

(** The longest prefix of decimal digits, and the rest. *)
Fixpoint span_digits (s : string) : string * string :=
  match s with
  | String c r =>
      if PyStr.is_decimal c then
        let '(d, rest) := span_digits r in (String c d, rest)
      else (EmptyString, s)
  | EmptyString => (EmptyString, s)
  end.

(** The integer part [0|[1-9][0-9]*] of a number. *)
Definition span_int (s : string) : option (string * string) :=
  match s with
  | String "0" r => Some ("0", r)
  | String c r =>
      if PyStr.is_decimal c then Some (span_digits s) else None
  | EmptyString => None
  end.

(** The optional fraction and exponent after the integer part. *)
Definition span_frac_exp (s : string) : string * string :=
  let '(frac, s1) :=
    match s with
    | String "." r =>
        match span_digits r with
        | (EmptyString, _) => (EmptyString, s)
        | (d, rest) => (String "." d, rest)
        end
    | _ => (EmptyString, s)
    end in
  let try_exp := fun (e : ascii) (sign : string) (r : string) =>
    match span_digits r with
    | (EmptyString, _) => (frac, s1)
    | (d, rest) => ((frac ++ String e (sign ++ d))%string, rest)
    end in
  match s1 with
  | String e (String "+" r) =>
      if Ascii.eqb e "e" || Ascii.eqb e "E" then try_exp e "+" r else (frac, s1)
  | String e (String "-" r) =>
      if Ascii.eqb e "e" || Ascii.eqb e "E" then try_exp e "-" r else (frac, s1)
  | String e r =>
      if Ascii.eqb e "e" || Ascii.eqb e "E" then try_exp e "" r else (frac, s1)
  | EmptyString => (frac, s1)
  end.

Definition parse_number (s : string) : option (json * string) :=
  let '(neg, s0) := match s with
                    | String "-" r => (true, r)
                    | _ => (false, s)
                    end in
  match span_int s0 with
  | None => None
  | Some (ds, s1) =>
      match span_frac_exp s1 with
      | (EmptyString, _) =>
          match PyStr.py_int ds with
          | Some n => Some (JInt (if neg then (- n)%Z else n), s1)
          | None => None
          end
      | (fe, s2) =>
          Some (JFloat ((if neg then "-" else "") ++ ds ++ fe)%string, s2)
      end
  end.

(** A value at the head of [s] (white space already skipped), the elements
    of an array after its first, the members of an object. *)
Fixpoint parse_value (fuel : nat) (s : string) : option (json * string) :=
  match fuel with
  | 0 => None
  | S fuel' =>
      match s with
      | String "n" _ => option_map (pair JNull) (expect "null" s)
      | String "t" _ => option_map (pair (JBool true)) (expect "true" s)
      | String "f" _ => option_map (pair (JBool false)) (expect "false" s)
      | String "N" _ => option_map (pair (JFloat "NaN")) (expect "NaN" s)
      | String "I" _ =>
          option_map (pair (JFloat "Infinity")) (expect "Infinity" s)
      | String "[" r =>
          match skip_ws r with
          | String "]" rest => Some (JList [], rest)
          | r1 =>
              match parse_value fuel' r1 with
              | Some (v, r2) =>
                  match parse_elems fuel' (skip_ws r2) with
                  | Some (vs, rest) => Some (JList (v :: vs), rest)
                  | None => None
                  end
              | None => None
              end
          end
      | String "{" r =>
          match skip_ws r with
          | String "}" rest => Some (JDict [], rest)
          | r1 =>
              match parse_members fuel' r1 [] with
              | Some (kvs, rest) => Some (JDict kvs, rest)
              | None => None
              end
          end
      | String c r =>
          if nat_of_ascii c =? 34 then
            match parse_chars r with
            | Some (t, rest) => Some (JStr t, rest)
            | None => None
            end
          else
            match expect "-Infinity" s with
            | Some rest => Some (JFloat "-Infinity", rest)
            | None => parse_number s
            end
      | EmptyString => None
      end
  end
with parse_elems (fuel : nat) (s : string) : option (list json * string) :=
  match fuel with
  | 0 => None
  | S fuel' =>
      match s with
      | String "]" rest => Some ([], rest)
      | String "," r =>
          match parse_value fuel' (skip_ws r) with
          | Some (v, r2) =>
              match parse_elems fuel' (skip_ws r2) with
              | Some (vs, rest) => Some (v :: vs, rest)
              | None => None
              end
          | None => None
          end
      | _ => None
      end
  end
with parse_members (fuel : nat) (s : string) (acc : list (string * json))
  : option (list (string * json) * string) :=
  match fuel with
  | 0 => None
  | S fuel' =>
      match s with
      | String q r =>
          if nat_of_ascii q =? 34 then
            match parse_chars r with
            | Some (k, r1) =>
                match skip_ws r1 with
                | String ":" r2 =>
                    match parse_value fuel' (skip_ws r2) with
                    | Some (v, r3) =>
                        let acc' := Dict.set k v acc in
                        match skip_ws r3 with
                        | String "}" rest => Some (acc', rest)
                        | String "," r4 =>
                            parse_members fuel' (skip_ws r4) acc'
                        | _ => None
                        end
                    | None => None
                    end
                | _ => None
                end
            | None => None
            end
          else None
      | EmptyString => None
      end
  end.

(** [json.loads(raw)]: [None] stands for [JSONDecodeError].  Two kinds of
    text are outside the model and come out as [None] here: an escape
    [\uXXXX] above U+00FF, which [json.loads] decodes (the strings of the
    model hold code points below 256), and an integer literal of more than
    [PyStr.max_str_digits] digits, on which [json.loads] raises a
    [ValueError] that is no [JSONDecodeError]. *)
Definition json_loads (raw : string) : option json :=
  match parse_value (2 * String.length raw + 2) (skip_ws raw) with
  | Some (v, rest) =>
      if PyStr.is_empty (skip_ws rest) then Some v else None
  | None => None
  end.

End Text.

(* ------------------------------------------------------------------ *)
(** ** The line loop of [process_db_file] / [process_file]

    The reader yields the lines of the input with their terminator already
    translated to LF; the writer's chunks are returned in order.  The three
    scripts differ in [patch], what is done to a line that parsed to a
    mapping. *)

Module Files.
Section Loop.
Variable loads : string -> option json.
Variable dumps : json -> string.
Variable patch : list (string * json) -> res (bool * json).

Definition LF : string := String (ascii_of_nat 10) "".

(** [line.rstrip("\n")] *)
Fixpoint rstrip_nl (s : string) : string :=
  match s with
  | EmptyString => EmptyString
  | String c r =>
      let r' := rstrip_nl r in
      if (nat_of_ascii c =? 10) && PyStr.is_empty r' then EmptyString
      else String c r'
  end.

(** One iteration: whether the document counts as patched, and the chunk
    handed to [w.write]. *)
Definition process_line (line : string) : res (bool * string) :=
  let raw := rstrip_nl line in
  if negb (PyStr.nonblank raw) then Ok (false, line)
  else
    match loads raw with
    | None => Ok (false, line)
    | Some (JDict doc) =>
        '(changed, doc') <- patch doc ;;
        Ok (changed, (dumps doc' ++ LF)%string)
    | Some _ => Ok (false, line)
    end.

(** The whole loop: the number of patched documents and the chunks
    written. *)
Fixpoint process_lines (lines : list string) : res (nat * list string) :=
  match lines with
  | [] => Ok (0, [])
  | line :: rest =>
      '(changed, out) <- process_line line ;;
      '(patched, outs) <- process_lines rest ;;
      Ok ((if changed then 1 else 0) + patched, out :: outs)
  end.
End Loop.
End Files.

(** [process_db_file] of repair_pf1_character_resistances_packages.py *)
Definition Resist_process_db_file : list string -> res (nat * list string) :=
  Files.process_lines Text.json_loads Text.json_dumps Resist.process_doc.

(** [process_db_file] of repair_pf1_packages.py *)
Definition Packages_process_db_file (only_npc : bool)
  : list string -> res (nat * list string) :=
  Files.process_lines Text.json_loads Text.json_dumps
    (Packages.process_doc only_npc).

(** Lines 194-203 of [process_file] of the identifier script. *)
Definition Eidolon_process_doc (doc : list (string * json))
  : res (bool * json) :=
  if Eidolon.is_actor_doc doc then
    let '(changed, _, doc') := Eidolon.fix_actor_identifiers_and_resources doc in
    Ok (changed, doc')
  else Ok (false, JDict doc).

Definition Eidolon_process_file : list string -> res (nat * list string) :=
  Files.process_lines Text.json_loads Text.json_dumps Eidolon_process_doc.

(** ** The return value of [process_db_file] of repair_pf1_packages.py

    The function ends with [return patched, line_no], where [line_no] is
    the variable of the [for] loop: it is bound by the first iteration, so
    the [return] of a run on a file without lines raises
    [UnboundLocalError]. *)

Inductive returned : Type :=
| Returns (patched line_no : nat)
| Raises (e : exn)
| UnboundLocalError.

Section Returned.
Variable loads : string -> option json.
Variable dumps : json -> string.

(** The loop with the locals [patched] and [line_no] ([None] while
    unbound); [i] is the number [enumerate] gives the next line. *)
Fixpoint Packages_lines_loop (only_npc : bool) (i patched : nat)
  (line_no : option nat) (lines : list string) : res (nat * option nat) :=
  match lines with
  | [] => Ok (patched, line_no)
  | line :: rest =>
      '(changed, _) <- Files.process_line loads dumps
                         (Packages.process_doc only_npc) line ;;
      Packages_lines_loop only_npc (S i)
        (if changed then S patched else patched) (Some i) rest
  end.

Definition Packages_process_db_file_returns (only_npc : bool)
  (lines : list string) : returned :=
  match Packages_lines_loop only_npc 1 0 None lines with
  | Raise e => Raises e
  | Ok (patched, Some line_no) => Returns patched line_no
  | Ok (_, None) => UnboundLocalError
  end.
End Returned.

(* ------------------------------------------------------------------ *)
(** ** Predicates the properties are stated with *)

(** A plus-number string: stripped, a [+] followed by digits only. *)
Definition plus_number (s : string) : bool :=
  PyStr.is_plus_number (PyStr.strip s).

(** No value of a mapping and no element of a sequence, at any depth, is a
    plus-number string. *)
Fixpoint plus_free (v : json) : bool :=
  match v with
  | JDict kvs =>
      forallb (fun kv => match snd kv with
                         | JStr s => negb (plus_number s)
                         | _ => plus_free (snd kv)
                         end) kvs
  | JList l =>
      forallb (fun x => match x with
                        | JStr s => negb (plus_number s)
                        | _ => plus_free x
                        end) l
  | _ => true
  end.

(** The digit strings [int] accepts: decimal digits [0]..[9], at most
    [max_str_digits] of them. *)
Definition int_readable (digits : string) : bool :=
  PyStr.all_chars PyStr.is_decimal digits
  && (Z.of_nat (String.length digits) <=? PyStr.max_str_digits)%Z.

(** Every plus-number string of the document is a plus sign followed by a
    digit string [int] accepts. *)
Fixpoint int_safe (v : json) : bool :=
  match v with
  | JDict kvs =>
      forallb (fun kv => match snd kv with
                         | JStr s =>
                             negb (plus_number s)
                             || int_readable (PyStr.tail (PyStr.strip s))
                         | _ => int_safe (snd kv)
                         end) kvs
  | JList l =>
      forallb (fun x => match x with
                        | JStr s =>
                            negb (plus_number s)
                            || int_readable (PyStr.tail (PyStr.strip s))
                        | _ => int_safe x
                        end) l
  | _ => true
  end.

(** Positional base-10 value of a string of decimal digits. *)
Fixpoint decimal_value (s : string) : Z :=
  match s with
  | EmptyString => 0%Z
  | String c r =>
      (PyStr.digit_val c * 10 ^ Z.of_nat (String.length r)
       + decimal_value r)%Z
  end.

(** [normalized v v']: [v'] is [v] with every plus-number string among the
    values of its mappings and the elements of its sequences replaced by the
    integer its digits denote, and nothing else touched. *)
Inductive normalized : json -> json -> Prop :=
| norm_leaf : forall v, is_dict v = false -> is_list v = false ->
    normalized v v
| norm_list : forall l l', Forall2 norm_value l l' ->
    normalized (JList l) (JList l')
| norm_dict : forall d d',
    Forall2 (fun kv kv' => fst kv = fst kv' /\ norm_value (snd kv) (snd kv'))
      d d' ->
    normalized (JDict d) (JDict d')
with norm_value : json -> json -> Prop :=
| norm_plus : forall s digits,
    PyStr.strip s = String "+" digits ->
    digits <> EmptyString ->
    PyStr.all_chars PyStr.is_decimal digits = true ->
    norm_value (JStr s) (JInt (decimal_value digits))
| norm_str : forall s, plus_number s = false -> norm_value (JStr s) (JStr s)
| norm_other : forall v v', is_str v = false -> normalized v v' ->
    norm_value v v'.

(** What a string or a walked value looks like after the pass. *)
Definition value_free (x : json) : bool :=
  match x with JStr s => negb (plus_number s) | _ => plus_free x end.

Definition value_safe (x : json) : bool :=
  match x with
  | JStr s =>
      negb (plus_number s) || int_readable (PyStr.tail (PyStr.strip s))
  | _ => int_safe x
  end.

(** The postcondition of one walk, on a whole object and on one value. *)
Definition walk_post (v : json) (c : bool) (v' : json) : Prop :=
  plus_free v' = true /\ normalized v v'
  /\ (c = false -> v' = v) /\ (c = true -> v' <> v).

Definition value_post (v : json) (c : bool) (v' : json) : Prop :=
  value_free v' = true /\ norm_value v v'
  /\ (c = false -> v' = v) /\ (c = true -> v' <> v).

(** An outcome of the logging walk without its log. *)
Definition erase_log {A : Type} (r : res (bool * list Packages.change * A))
  : res (bool * A) :=
  match r with
  | Ok (c, _, a) => Ok (c, a)
  | Raise e => Raise e
  end.

(** The flag tells whether the log is non-empty. *)
Definition flag_matches_log {A C : Type} (r : res (bool * list C * A)) : Prop :=
  match r with
  | Ok (c, log, _) => c = negb (match log with [] => true | _ => false end)
  | Raise _ => True
  end.

(** [doc'] is what one of the two Shape Normalizers leaves of [doc]. *)
Definition shape_normalizer_output (doc doc' : json) : Prop :=
  (exists c log, Resist.repair_actor_doc doc = Ok (c, log, doc'))
  \/ (exists c log, Packages.repair_doc doc = Ok (c, log, doc')).

(** The document has a mapping at [system.traits]. *)
Definition has_traits (doc : json) : bool :=
  match get_path doc ["system"; "traits"] with
  | Some (JDict _) => true
  | _ => false
  end.

(** The lines the loop writes back as read: blank, not decodable, or
    decoding to something that is no mapping. *)
Definition passes_through (loads : string -> option json) (line : string)
  : bool :=
  let raw := Files.rstrip_nl line in
  negb (PyStr.nonblank raw)
  || match loads raw with
     | Some (JDict _) => false
     | _ => true
     end.

(** The items of a document, and the tag [get_item_tag] reads on each. *)
Definition items_of (doc : json) : list json :=
  match get_path doc ["items"] with
  | Some (JList items) => items
  | _ => []
  end.

Definition item_tag (it : json) : option string :=
  match it with
  | JDict item => Eidolon.get_item_tag item
  | _ => None
  end.

(** The tags [get_item_tag] reads on a list of items, in order. *)
Definition tags_read (items : list json) : list string :=
  flat_map (fun it => match item_tag it with
                      | Some t => [t]
                      | None => []
                      end) items.

(** The document [fix_actor_identifiers_and_resources] leaves. *)
Definition dedup (actor : list (string * json)) : json :=
  snd (Eidolon.fix_actor_identifiers_and_resources actor).

(** The resource map of a document. *)
Definition resources_of (doc : json) : option (list (string * json)) :=
  match doc with
  | JDict d => Eidolon.get_resources_dict d
  | _ => None
  end.

(** The tags PASS 1 collects for PASS 3. *)
Definition collected_tags (items : list json) : list string :=
  Eidolon.item_tags_in_actor
    (fst (Eidolon.loop Eidolon.pass1_item
            (Eidolon.mkState [] [] false []) items)).

(** *** Shapes of trait entries *)

(** A sequence of non-blank strings: the shape the claims ask of [value],
    [custom] and [customTotal]. *)
Definition tag_list (v : json) : bool :=
  match v with JList l => forallb keep_entry l | _ => false end.

(** An element left in a trait list after the numeric pass: a non-blank
    string that is no plus number, or an integer. *)
Definition entry_or_int (x : json) : bool :=
  match x with
  | JStr s => PyStr.nonblank s && negb (plus_number s)
  | JInt _ => true
  | _ => false
  end.

Definition repaired_list (v : json) : bool :=
  match v with JList l => forallb entry_or_int l | _ => false end.

(** An optional field is in shape [ok] when it is no string and, if it is a
    sequence, satisfies [ok]. *)
Definition field_shape (ok : json -> bool) (v : option json) : bool :=
  match v with
  | Some (JStr _) => false
  | Some (JList l) => ok (JList l)
  | _ => true
  end.

(** A trait entry of the resistances script in shape [ok]: a mapping with a
    [value] satisfying [ok] and [custom] / [customTotal] in shape. *)
Definition entry_shape (ok : json -> bool) (e : option json) : bool :=
  match e with
  | Some (JDict t) =>
      match Dict.get "value" t with
      | Some v => ok v
      | None => false
      end
      && field_shape ok (Dict.get "custom" t)
      && field_shape ok (Dict.get "customTotal" t)
  | _ => false
  end.

(** A trait entry of the packages script in shape [ok]: if it is a mapping,
    its [custom] / [customTotal] are in shape. *)
Definition custom_shape (ok : json -> bool) (e : option json) : bool :=
  match e with
  | Some (JDict t) =>
      field_shape ok (Dict.get "custom" t)
      && field_shape ok (Dict.get "customTotal" t)
  | _ => true
  end.

(** The trait entry of a document under [key]. *)
Definition trait_entry (doc : json) (key : string) : option json :=
  get_path doc ["system"; "traits"; key].

(** *** Measures that the repair steps never increase *)

Definition rank_value (v : option json) : nat :=
  match v with
  | Some (JList l) => List.length l
  | Some (JStr s) => S (String.length s)
  | _ => 1
  end.

Definition rank_field (v : option json) : nat :=
  match v with
  | Some (JList l) => List.length l
  | Some (JStr s) => S (String.length s)
  | _ => 0
  end.

(** Rank of a trait mapping, [value] being mandatory or not. *)
Definition rank_trait (rv : option json -> nat) (t : list (string * json))
  : nat :=
  rv (Dict.get "value" t) + rank_field (Dict.get "custom" t)
  + rank_field (Dict.get "customTotal" t).

Definition rank_entry (e : option json) : nat :=
  match e with
  | Some (JDict t) => rank_trait rank_value t
  | _ => 2
  end.

Definition rank_pentry (e : option json) : nat :=
  match e with
  | Some (JDict t) => rank_trait rank_field t
  | _ => 0
  end.

(** The measures of the two normalizers on the [system.traits] mapping. *)
Definition resist_measure (traits : list (string * json)) : nat :=
  rank_entry (Dict.get "eres" traits) + rank_entry (Dict.get "dr" traits)
  + rank_entry (Dict.get "dv" traits)
  + rank_pentry (Dict.get "languages" traits).

Definition packages_measure (traits : list (string * json)) : nat :=
  list_sum (map (fun k => rank_pentry (Dict.get k traits))
              Packages.TRAIT_KEYS).

Definition total_length (l : list string) : nat :=
  list_sum (map String.length l).

(** What a step did to a state [(changed, x, changes)]: nothing, or it set
    the flag, lowered the measure and extended the log. *)
Definition stepped {X C : Type} (M : X -> nat)
  (st st' : bool * X * list C) : Prop :=
  st' = st
  \/ (fst (fst st') = true
      /\ M (snd (fst st')) < M (snd (fst st))
      /\ exists e, e <> [] /\ snd st' = snd st ++ e).

(** *** The trait rules seen on the [system.traits] mapping *)

(** The languages step on the [system.traits] mapping. *)
Definition purge_traits (traits : list (string * json))
  : option (nat * list (string * json)) :=
  match Dict.get "languages" traits with
  | Some (JDict lt) =>
      match Dict.get "value" lt with
      | Some (JList lang_val) =>
          let nulls := count_nulls lang_val in
          if negb (nulls =? 0) then
            Some (nulls,
                  Dict.set "languages"
                    (JDict (Dict.set "value"
                              (JList (filter (fun x => negb (is_null x))
                                        lang_val)) lt)) traits)
          else None
      | _ => None
      end
  | _ => None
  end.

(** The rules of [repair_actor_doc] before the numeric pass. *)
Definition resist_rules (traits : list (string * json))
  : bool * list (string * json) * list Resist.change :=
  let st := fold_left Resist.ensure_step ["eres"; "dr"; "dv"]
              (false, traits, []) in
  match purge_traits (snd (fst st)) with
  | Some (nulls, tr) => (true, tr, snd st ++ [Resist.LangNulls nulls])
  | None => st
  end.

(** The rules of [repair_doc] before the numeric pass. *)
Definition packages_rules (traits : list (string * json))
  : bool * list (string * json) * list Packages.change :=
  let st := match purge_traits traits with
            | Some (nulls, tr) => (true, tr, [Packages.LangNulls nulls])
            | None => (false, traits, [])
            end in
  fold_left Packages.split_value ["di"; "dv"; "ci"]
    (fold_left Packages.fix_custom Packages.TRAIT_KEYS st).

(** Two optional values related by [R], or both absent. *)
Definition opt_rel (R : json -> json -> Prop) (a b : option json) : Prop :=
  match a, b with
  | Some x, Some y => R x y
  | None, None => True
  | _, _ => False
  end.

(** *** Observations on items and actions *)

(** The stored tag of an item, its action list, the stored tag of an
    action. *)
Definition raw_tag (it : json) : option json :=
  get_path it ["system"; "tag"].

Definition raw_actions (it : json) : option json :=
  get_path it ["system"; "actions"].

Definition raw_action_tag (a : json) : option json := get_path a ["tag"].

(** What one iteration (or one loop) of the deduplicator did to an element
    [x]: left it and the flag and log alone, or set the flag, extended the
    log and changed what [obs] sees of the element. *)
Definition kept_or_renamed {A B : Type} (obs : A -> B)
  (st st' : Eidolon.state) (x x' : A) : Prop :=
  (Eidolon.changed st' = Eidolon.changed st
   /\ Eidolon.changes st' = Eidolon.changes st /\ x' = x)
  \/ (Eidolon.changed st' = true
      /\ (exists e, e <> [] /\ Eidolon.changes st' = Eidolon.changes st ++ e)
      /\ obs x' <> obs x).

(** *** Trait lists that hold strings only *)

Definition all_strings (v : option json) : bool :=
  match v with
  | Some (JList l) => forallb is_str l
  | _ => true
  end.

(** The lists of a trait entry the rules clean ([value] only in the
    resistances script) hold nothing but strings. *)
Definition entry_strings (with_value : bool) (e : option json) : bool :=
  match e with
  | Some (JDict t) =>
      (if with_value then all_strings (Dict.get "value" t) else true)
      && all_strings (Dict.get "custom" t)
      && all_strings (Dict.get "customTotal" t)
  | _ => true
  end.

(** The number of nulls the languages step would remove. *)
Definition lang_nulls (traits : list (string * json)) : nat :=
  match Dict.get "languages" traits with
  | Some (JDict lt) =>
      match Dict.get "value" lt with
      | Some (JList lv) => count_nulls lv
      | _ => 0
      end
  | _ => 0
  end.

(** The [value] of a trait entry is no string with a separator. *)
Definition no_sep (e : option json) : bool :=
  match e with
  | Some (JDict t) =>
      match Dict.get "value" t with
      | Some (JStr v) => negb (PyStr.has_sep v)
      | _ => true
      end
  | _ => true
  end.

(** *** Identifiers that do not end in white space *)

Fixpoint last_is_space (s : string) : bool :=
  match s with
  | EmptyString => false
  | String c EmptyString => PyStr.is_space c
  | String _ r => last_is_space r
  end.

(** The [_id] of a mapping, when it is a string, does not end in white
    space. *)
Definition clean_id (d : list (string * json)) : bool :=
  match Dict.get "_id" d with
  | Some (JStr i) => negb (last_is_space i)
  | _ => true
  end.

(** The actions [iter_actions] yields for an item. *)
Definition actions_of (it : json) : list json :=
  match it with
  | JDict item =>
      match Dict.get "system" item with
      | Some (JDict sysd) =>
          match Dict.get "actions" sysd with
          | Some (JList acts) => filter is_dict acts
          | _ => []
          end
      | _ => []
      end
  | _ => []
  end.

Definition action_tag (a : json) : option string :=
  match a with
  | JDict act => Eidolon.get_action_tag act
  | _ => None
  end.

(** The tags [get_action_tag] reads on the actions of a list of items. *)
Definition action_tags_read (items : list json) : list string :=
  flat_map (fun it => flat_map (fun a => match action_tag a with
                                         | Some t => [t]
                                         | None => []
                                         end) (actions_of it)) items.

(** Every item and every action has a clean [_id]. *)
Definition ids_clean (items : list json) : bool :=
  forallb (fun it =>
             match it with
             | JDict item =>
                 clean_id item
                 && forallb (fun a => match a with
                                      | JDict act => clean_id act
                                      | _ => true
                                      end) (actions_of it)
             | _ => true
             end) items.

(** The claimed set is the collected tags, newest first, without repetition,
    and each of them is its own stripped form. *)
Definition pass1_inv (st : Eidolon.state) : Prop :=
  Eidolon.seen st = rev (Eidolon.item_tags_in_actor st)
  /\ NoDup (Eidolon.seen st)
  /\ Forall (fun t => PyStr.strip t = t) (Eidolon.item_tags_in_actor st).

(** An item (resp. an action) is clean when it is no mapping or its [_id] is
    clean. *)
Definition clean_elem (x : json) : bool :=
  match x with
  | JDict d => clean_id d
  | _ => true
  end.

(** The tag read on an action, as a list. *)
Definition action_read (a : json) : list string :=
  match action_tag a with
  | Some t => [t]
  | None => []
  end.

(** The tags read on the actions of one item. *)
Definition item_action_tags (it : json) : list string :=
  flat_map action_read (actions_of it).

(** Every action of the item has a clean [_id]. *)
Definition clean_actions (it : json) : bool :=
  forallb clean_elem (actions_of it).

(** The state after claiming [seen_new], of which [items_new] are collected
    as item tags, without any rename. *)
Definition claimed (items_new seen_new : list string) (st : Eidolon.state)
  : Eidolon.state :=
  Eidolon.mkState (rev seen_new ++ Eidolon.seen st)
    (Eidolon.item_tags_in_actor st ++ items_new)
    (Eidolon.changed st) (Eidolon.changes st).

(** The tag read on an item, as a list. *)
Definition item_read (it : json) : list string :=
  match item_tag it with
  | Some t => [t]
  | None => []
  end.

(** *** Predicates of the further properties *)

(** No character of the string is a separator of [SPLIT_RE]. *)
Definition sep_free (s : string) : bool :=
  PyStr.all_chars (fun c => negb (PyStr.is_sep c)) s.

(** A token as [str_to_list] returns it: not empty, its own stripped form,
    without separator. *)
Definition clean_token (t : string) : Prop :=
  t <> EmptyString /\ PyStr.strip t = t /\ sep_free t = true.

(** A path that does not lead to or through [system.traits]. *)
Definition outside_traits (p : list string) : bool :=
  match p with
  | [] => false
  | k :: rest =>
      negb (String.eqb k "system")
      || match rest with
         | [] => false
         | k2 :: _ => negb (String.eqb k2 "traits")
         end
  end.

(** Nothing collides in an actor: the tags read on its items and on their
    actions are pairwise distinct, and no key of its resource map is the tag
    read on an item. *)
Definition collision_free (actor : list (string * json)) (items : list json)
  : Prop :=
  NoDup (tags_read items ++ action_tags_read items)
  /\ forall r k, Eidolon.get_resources_dict actor = Some r ->
       In k (Dict.keys r) -> ~ In k (tags_read items).

(** The line decodes to a mapping that [patch] returns different from what
    it was given. *)
Definition line_mutated (patch : list (string * json) -> res (bool * json))
  (line : string) : bool :=
  let raw := Files.rstrip_nl line in
  PyStr.nonblank raw
  && match Text.json_loads raw with
     | Some (JDict doc) =>
         match patch doc with
         | Ok (_, doc') => negb (json_eqb doc' (JDict doc))
         | Raise _ => false
         end
     | _ => false
     end.

(** The document the trait rules leave, on which the numeric pass runs:
    the input when it has no [system.traits] mapping, otherwise the input
    with that mapping as the rules leave it. *)
Definition resist_before_pass (doc : json) : json :=
  match get_path doc ["system"; "traits"] with
  | Some (JDict traits) =>
      put_path doc ["system"; "traits"]
        (JDict (snd (fst (resist_rules traits))))
  | _ => doc
  end.

Definition packages_before_pass (doc : json) : json :=
  match get_path doc ["system"; "traits"] with
  | Some (JDict traits) =>
      put_path doc ["system"; "traits"]
        (JDict (snd (fst (packages_rules traits))))
  | _ => doc
  end.

(** ** Sample documents *)

(** A plus sign followed by SUPERSCRIPT TWO (U+00B2). *)
Definition plus_superscript_two : string :=
  String "+" (String (ascii_of_nat 178) "").

Definition doc_superscript : json :=
  JDict [("type", JStr "npc"); ("bonus", JStr plus_superscript_two)].

(** A document of a type outside the filter, holding a plus-number string. *)
Definition doc_item : list (string * json) :=
  [("type", JStr "item"); ("abilityMod", JStr "+2")].

Definition doc_ability : json := JDict [("abilityMod", JStr "+2")].

(** The double quote, and a JSON line in compact form with the line the
    serializer writes for the same document. *)
Definition dq : string := String (ascii_of_nat 34) "".

Definition compact_line : string :=
  ("{" ++ dq ++ "a" ++ dq ++ ":1}" ++ Files.LF)%string.

Definition spaced_line : string :=
  ("{" ++ dq ++ "a" ++ dq ++ ": 1}" ++ Files.LF)%string.

(** An actor whose second item has an [_id] ending in a blank: the first
    two items share the tag [a], the third carries the tag the second one is
    renamed to. *)
Definition actor_blank_id : list (string * json) :=
  [("type", JStr "npc");
   ("items",
    JList [JDict [("_id", JStr "i1"); ("system", JDict [("tag", JStr "a")])];
           JDict [("_id", JStr "x "); ("system", JDict [("tag", JStr "a")])];
           JDict [("_id", JStr "i3");
                  ("system", JDict [("tag", JStr "a_x ")])]])].

(** The two items of the spec's scenario, and a resource map. *)
Definition actor_bite : list (string * json) :=
  [("type", JStr "npc");
   ("items",
    JList [JDict [("_id", JStr "a1"); ("system", JDict [("tag", JStr "bite")])];
           JDict [("_id", JStr "abc123");
                  ("system", JDict [("tag", JStr "bite")])]]);
   ("system",
    JDict [("resources", JDict [("bite", JDict []); ("rage", JInt 1)])])].

(** A targeted document whose energy resistances hold a plus-number string,
    and one whose damage immunities are a plain string. *)
Definition doc_trait_plus : json :=
  JDict [("type", JStr "npc");
         ("system",
          JDict [("traits",
                  JDict [("eres", JDict [("value", JList [JStr "+2"])])])])].

Definition doc_value_string : json :=
  JDict [("type", JStr "npc");
         ("system",
          JDict [("traits", JDict [("di", JDict [("value", JStr "fire")])])])].

(** A document whose damage-immunity customs hold a plus-number string. *)
Definition doc_custom_plus : json :=
  JDict [("type", JStr "npc");
         ("system",
          JDict [("traits",
                  JDict [("di", JDict [("custom", JList [JStr "+1"])])])])].

(** The two trait scenarios of the specification. *)
Definition doc_fire_cold : json :=
  JDict [("type", JStr "npc");
         ("system",
          JDict [("traits",
                  JDict [("eres", JDict [("value", JStr "fire; cold")])])])].

Definition doc_dr_nulls : json :=
  JDict [("type", JStr "npc");
         ("system",
          JDict [("traits",
                  JDict [("dr",
                          JDict [("value",
                                  JList [JNull; JStr "5/magic"; JStr ""])])])])].

(** A document whose languages hold a null, with a plus-number string
    outside [system.traits]. *)
Definition doc_lang_nulls : json :=
  JDict [("type", JStr "npc");
         ("bonus", JStr "+3");
         ("system",
          JDict [("traits",
                  JDict [("languages",
                          JDict [("value", JList [JStr "Common"; JNull])])])])].

(** A line holding a document with a plus-number string, between a blank
    line and a line that does not decode. *)
Definition plus_line : string :=
  ("{" ++ dq ++ "type" ++ dq ++ ": " ++ dq ++ "npc" ++ dq ++ ", "
   ++ dq ++ "bonus" ++ dq ++ ": " ++ dq ++ "+3" ++ dq ++ "}"
   ++ Files.LF)%string.

Definition three_lines : list string :=
  [Files.LF; plus_line; ("{oops" ++ Files.LF)%string].

(** An actor whose second item has an [_id] ending in a blank and shares
    its tag with the first, with a resource under the name the second item
    is renamed to. *)
Definition actor_blank_resource : list (string * json) :=
  [("type", JStr "npc");
   ("items",
    JList [JDict [("_id", JStr "i1"); ("system", JDict [("tag", JStr "a")])];
           JDict [("_id", JStr "x "); ("system", JDict [("tag", JStr "a")])]]);
   ("system", JDict [("resources", JDict [("a_x", JInt 1)])])].

(** A targeted document with a plus-number string inside a trait entry
    whose [value] is a mapping. *)
Definition doc_trait_mapping_plus : json :=
  JDict [("type", JStr "npc");
         ("system",
          JDict [("traits",
                  JDict [("eres",
                          JDict [("value", JDict [("x", JStr "+2")])])])])].


(* ================================================================== *)
(** * Properties *)

(** ** Induction on documents *)

Definition json_induction (P : json -> Prop)
  (Hnull : P JNull) (Hbool : forall b, P (JBool b))
  (Hint : forall n, P (JInt n)) (Hfloat : forall lit, P (JFloat lit))
  (Hstr : forall s, P (JStr s))
  (Hlist : forall l, Forall P l -> P (JList l))
  (Hdict : forall kvs, Forall (fun kv => P (snd kv)) kvs -> P (JDict kvs))
  : forall v, P v :=
  fix F (v : json) : P v :=
    match v with
    | JNull => Hnull
    | JBool b => Hbool b
    | JInt n => Hint n
    | JFloat lit => Hfloat lit
    | JStr s => Hstr s
    | JList l =>
        Hlist l ((fix G (l : list json) : Forall P l :=
                    match l with
                    | [] => Forall_nil _
                    | x :: r => Forall_cons _ (F x) (G r)
                    end) l)
    | JDict kvs =>
        Hdict kvs ((fix G (l : list (string * json))
                      : Forall (fun kv => P (snd kv)) l :=
                      match l with
                      | [] => Forall_nil _
                      | kv :: r => Forall_cons _ (F (snd kv)) (G r)
                      end) kvs)
    end.

Lemma json_eqb_refl : forall v, json_eqb v v = true.
Proof.
  induction v using json_induction; simpl;
    auto using Bool.eqb_reflx, Z.eqb_refl, String.eqb_refl.
  - induction H; simpl; auto. rewrite H, IHForall. reflexivity.
  - induction H; simpl; auto. destruct x as [k v]; simpl in *.
    rewrite String.eqb_refl, H, IHForall. reflexivity.
Qed.

Lemma json_eqb_eq : forall a b, json_eqb a b = true -> a = b.
Proof.
  induction a using json_induction; intros b'; destruct b'; simpl;
    try discriminate; intros E; auto.
  - apply Bool.eqb_prop in E. congruence.
  - apply Z.eqb_eq in E. congruence.
  - apply String.eqb_eq in E. congruence.
  - apply String.eqb_eq in E. congruence.
  - f_equal. revert l0 E. induction H; destruct l0; try discriminate; auto.
    intros E. apply andb_prop in E. destruct E as [E1 E2].
    f_equal; auto.
  - f_equal. revert kvs0 E. induction H; destruct kvs0; try discriminate; auto.
    + destruct x; discriminate.
    + destruct x as [k v], p as [k' v']. simpl in *. intros E.
      apply andb_prop in E. destruct E as [E E3].
      apply andb_prop in E. destruct E as [E1 E2].
      apply String.eqb_eq in E1. f_equal; auto. f_equal; auto.
Qed.

Lemma json_eqb_neq : forall a b, json_eqb a b = false -> a <> b.
Proof.
  intros a b E <-. rewrite json_eqb_refl in E. discriminate.
Qed.

(** ** Mappings *)

Lemma get_set_same : forall k v d, Dict.get k (Dict.set k v d) = Some v.
Proof.
  induction d as [|[k' v'] d IH]; simpl.
  - rewrite String.eqb_refl. reflexivity.
  - destruct (String.eqb k k') eqn:E; simpl; rewrite E; auto.
Qed.

Lemma get_set_other : forall k k' v d,
  k <> k' -> Dict.get k (Dict.set k' v d) = Dict.get k d.
Proof.
  intros k k' v d N. induction d as [|[k2 v2] d IH]; simpl.
  - apply String.eqb_neq in N. rewrite N. reflexivity.
  - destruct (String.eqb k' k2) eqn:E; simpl.
    + apply String.eqb_eq in E. subst k2.
      apply String.eqb_neq in N. rewrite N. reflexivity.
    + destruct (String.eqb k k2); auto.
Qed.

Lemma set_get_id : forall k v d, Dict.get k d = Some v -> Dict.set k v d = d.
Proof.
  induction d as [|[k' v'] d IH]; simpl; intros E.
  - discriminate.
  - destruct (String.eqb k k').
    + congruence.
    + rewrite IH; auto.
Qed.

Lemma set_set_same : forall k v w d,
  Dict.set k v (Dict.set k w d) = Dict.set k v d.
Proof.
  induction d as [|[k' v'] d IH]; simpl.
  - rewrite String.eqb_refl. reflexivity.
  - destruct (String.eqb k k') eqn:E; simpl; rewrite E; congruence.
Qed.

(** ** Outcomes *)

Lemma bind_ok : forall (A B : Type) (m : res A) (k : A -> res B) b,
  bind m k = Ok b -> exists a, m = Ok a /\ k a = Ok b.
Proof.
  intros A B [a|e] k b E; simpl in E; [eauto | discriminate].
Qed.

Ltac inv_bind H :=
  let a := fresh "a" in
  let E := fresh "E" in
  apply bind_ok in H; destruct H as [a [E H]].

Example str_to_list_ex1 : PyStr.str_to_list "fire; cold" = ["fire"; "cold"].
Proof. reflexivity. Qed.

Example str_to_list_ex2 : PyStr.str_to_list "A;B;" = ["A"; "B"].
Proof. reflexivity. Qed.

Example re_split_ex : PyStr.re_split false ";a,;b;" = [""; "a"; "b"; ""].
Proof. reflexivity. Qed.

Example strip_ex : PyStr.strip "  +2 " = "+2".
Proof. reflexivity. Qed.

Example py_int_ex : PyStr.py_int "010" = Some 10%Z.
Proof. reflexivity. Qed.

Example repair_fire_cold :
  Resist.repair_actor_doc doc_fire_cold
  = Ok (true,
        [Resist.ValueStr "eres"; Resist.CreatedDict "dr"; Resist.ValueNone "dr";
         Resist.CreatedDict "dv"; Resist.ValueNone "dv"],
        JDict [("type", JStr "npc");
               ("system",
                JDict [("traits",
                        JDict [("eres",
                                JDict [("value",
                                        JList [JStr "fire"; JStr "cold"])]);
                               ("dr", JDict [("value", JList [])]);
                               ("dv", JDict [("value", JList [])])])])]).
Proof. reflexivity. Qed.

Example repair_dr_nulls :
  match Resist.repair_actor_doc doc_dr_nulls with
  | Ok (_, _, doc') =>
      get_path doc' ["system"; "traits"; "dr"; "value"]
      = Some (JList [JStr "5/magic"])
  | Raise _ => False
  end.
Proof. reflexivity. Qed.

Example convert_ability :
  convert_plus_number_strings doc_ability
  = Ok (true, JDict [("abilityMod", JInt 2)]).
Proof. reflexivity. Qed.

(** ** The numeric-string pass *)

Lemma int_acc_some : forall s acc n,
  PyStr.int_acc acc s = Some n ->
  PyStr.all_chars PyStr.is_decimal s = true
  /\ n = (acc * 10 ^ Z.of_nat (String.length s) + decimal_value s)%Z.
Proof.
  induction s as [|c r IH];
    cbn [PyStr.int_acc PyStr.all_chars decimal_value String.length];
    intros acc n E.
  - inversion E. split; [reflexivity | simpl; lia].
  - destruct (PyStr.is_decimal c); [|discriminate].
    apply IH in E. destruct E as [E1 E2]. split; [exact E1|].
    rewrite E2. rewrite Nat2Z.inj_succ, Z.pow_succ_r by lia. lia.
Qed.

Lemma int_acc_decimal : forall s acc,
  PyStr.all_chars PyStr.is_decimal s = true ->
  exists n, PyStr.int_acc acc s = Some n.
Proof.
  induction s as [|c r IH]; simpl; intros acc E.
  - eauto.
  - apply andb_prop in E. destruct E as [E1 E2]. rewrite E1. auto.
Qed.

Lemma py_int_some : forall s n,
  PyStr.py_int s = Some n ->
  s <> EmptyString /\ PyStr.all_chars PyStr.is_decimal s = true
  /\ n = decimal_value s.
Proof.
  unfold PyStr.py_int. intros s n E. destruct s as [|c r].
  - discriminate.
  - simpl PyStr.is_empty in E. cbv iota in E.
    destruct (PyStr.max_str_digits <? _)%Z; [discriminate|].
    apply int_acc_some in E. destruct E as [E1 E2].
    split; [discriminate|]. split; [exact E1|]. rewrite E2. lia.
Qed.


Lemma is_plus_number_inv : forall s,
  PyStr.is_plus_number s = true ->
  exists digits, s = String "+" digits /\ PyStr.isdigit digits = true.
Proof.
  intros s E. destruct s as [|c r]; [discriminate|].
  unfold PyStr.is_plus_number in E.
  destruct (Ascii.eqb c "+") eqn:Ec.
  - apply Ascii.eqb_eq in Ec. subst c. eauto.
  - destruct c as [[] [] [] [] [] [] [] []]; try discriminate.
Qed.

Lemma plus_free_list : forall l, plus_free (JList l) = forallb value_free l.
Proof. reflexivity. Qed.

Lemma plus_free_dict : forall d,
  plus_free (JDict d) = forallb (fun kv => value_free (snd kv)) d.
Proof.
  intros d. simpl. induction d as [|[k v] d IH]; simpl; [reflexivity|].
  rewrite IH. destruct v; reflexivity.
Qed.

Lemma int_safe_list : forall l, int_safe (JList l) = forallb value_safe l.
Proof. reflexivity. Qed.

Lemma int_safe_dict : forall d,
  int_safe (JDict d) = forallb (fun kv => value_safe (snd kv)) d.
Proof.
  intros d. simpl. induction d as [|[k v] d IH]; simpl; [reflexivity|].
  rewrite IH. destruct v; reflexivity.
Qed.

Lemma normalized_is_str : forall v v', normalized v v' -> is_str v' = is_str v.
Proof. intros v v' N. destruct N; reflexivity. Qed.

Lemma value_free_not_str : forall v,
  is_str v = false -> value_free v = plus_free v.
Proof. intros v E. destruct v; try reflexivity. discriminate. Qed.

Section WalkFacts.
Variable rec : json -> res (bool * json).

Lemma conv_value_post : forall v,
  (forall c v', rec v = Ok (c, v') -> walk_post v c v') ->
  forall c v', conv_value rec v = Ok (c, v') -> value_post v c v'.
Proof.
  intros v IH c v' E. unfold value_post.
  destruct v as [| b | n | lit | s | l | d]; simpl in E;
    try (apply IH in E; destruct E as (F & N & U & D);
         repeat split; auto;
         [ rewrite value_free_not_str; auto;
           rewrite (normalized_is_str _ _ N); reflexivity
         | constructor; auto ]; fail).
  destruct (PyStr.is_plus_number (PyStr.strip s)) eqn:Ep.
  - destruct (PyStr.py_int (PyStr.tail (PyStr.strip s))) eqn:Ei;
      [|discriminate].
    inversion E; subst c v'. clear E.
    destruct (is_plus_number_inv _ Ep) as [digits [Es _]].
    rewrite Es in Ei. simpl in Ei.
    apply py_int_some in Ei. destruct Ei as (Ne & Ad & ->).
    repeat split; try discriminate.
    econstructor; eauto.
  - inversion E; subst c v'. clear E.
    repeat split; try discriminate.
    + simpl. unfold plus_number. rewrite Ep. reflexivity.
    + constructor. exact Ep.
Qed.

Lemma conv_list_post : forall l,
  Forall (fun v => forall c v', rec v = Ok (c, v') -> walk_post v c v') l ->
  forall c l', conv_list rec l = Ok (c, l') ->
    forallb value_free l' = true /\ Forall2 norm_value l l'
    /\ (c = false -> l' = l) /\ (c = true -> l' <> l).
Proof.
  induction 1 as [|v l Hv Hl IH]; simpl; intros c l' E.
  - inversion E. repeat split; auto; discriminate.
  - inv_bind E. destruct a as [c1 v1].
    inv_bind E. destruct a as [c2 l1]. inversion E; subst c l'. clear E.
    apply conv_value_post in E0; [|exact Hv].
    destruct E0 as (F1 & N1 & U1 & D1).
    destruct (IH _ _ E1) as (F2 & N2 & U2 & D2).
    repeat split.
    + simpl. rewrite F1, F2. reflexivity.
    + constructor; auto.
    + intros Ec. apply orb_false_elim in Ec. destruct Ec.
      rewrite U1, U2; auto.
    + intros Ec Eq. inversion Eq. subst.
      apply orb_prop in Ec. destruct Ec as [Ec|Ec].
      * apply D1; auto.
      * apply D2; auto.
Qed.

Lemma conv_items_post : forall d,
  Forall (fun kv => forall c v', rec (snd kv) = Ok (c, v') ->
                      walk_post (snd kv) c v') d ->
  forall c d', conv_items rec d = Ok (c, d') ->
    forallb (fun kv => value_free (snd kv)) d' = true
    /\ Forall2 (fun kv kv' => fst kv = fst kv'
                              /\ norm_value (snd kv) (snd kv')) d d'
    /\ (c = false -> d' = d) /\ (c = true -> d' <> d).
Proof.
  induction 1 as [|[k v] d Hv Hd IH]; simpl; intros c d' E.
  - inversion E. repeat split; auto; discriminate.
  - inv_bind E. destruct a as [c1 v1].
    inv_bind E. destruct a as [c2 d1]. inversion E; subst c d'. clear E.
    apply conv_value_post in E0; [|exact Hv].
    destruct E0 as (F1 & N1 & U1 & D1).
    destruct (IH _ _ E1) as (F2 & N2 & U2 & D2).
    repeat split.
    + simpl. rewrite F1, F2. reflexivity.
    + constructor; auto.
    + intros Ec. apply orb_false_elim in Ec. destruct Ec.
      rewrite U1, U2; auto.
    + intros Ec Eq. inversion Eq. subst.
      apply orb_prop in Ec. destruct Ec as [Ec|Ec].
      * apply D1; auto.
      * apply D2; auto.
Qed.
End WalkFacts.

Lemma convert_post : forall v c v',
  convert_plus_number_strings v = Ok (c, v') -> walk_post v c v'.
Proof.
  induction v using json_induction; simpl; intros c v' E;
    try (inversion E; subst; unfold walk_post; repeat split; auto;
         try discriminate; constructor; reflexivity).
  - inv_bind E. destruct a as [c1 l1]. inversion E; subst c v'. clear E.
    apply conv_list_post in E0; [|exact H]. destruct E0 as (F & N & U & D).
    unfold walk_post. rewrite plus_free_list. repeat split; auto.
    + constructor; auto.
    + intros Ec. rewrite U; auto.
    + intros Ec Eq. inversion Eq. apply D; auto.
  - inv_bind E. destruct a as [c1 d1]. inversion E; subst c v'. clear E.
    apply conv_items_post in E0; [|exact H]. destruct E0 as (F & N & U & D).
    unfold walk_post. rewrite plus_free_dict. repeat split; auto.
    + constructor; auto.
    + intros Ec. rewrite U; auto.
    + intros Ec Eq. inversion Eq. apply D; auto.
Qed.

(** The pass returns normally exactly on the documents [int] can read. *)
Lemma isdigit_nonempty : forall s, PyStr.isdigit s = true -> s <> EmptyString.
Proof. intros s E ->. discriminate. Qed.

Lemma py_int_decimal : forall s,
  s <> EmptyString -> int_readable s = true ->
  exists n, PyStr.py_int s = Some n.
Proof.
  intros s N A. unfold int_readable in A. apply andb_prop in A.
  destruct A as [A L]. apply Z.leb_le in L.
  unfold PyStr.py_int. destruct s; [congruence|].
  simpl PyStr.is_empty. cbv iota.
  destruct (PyStr.max_str_digits <? _)%Z eqn:L'.
  - apply Z.ltb_lt in L'. lia.
  - apply int_acc_decimal. exact A.
Qed.

Section WalkTotal.
Variable rec : json -> res (bool * json).

Lemma conv_value_total : forall v,
  (int_safe v = true -> exists r, rec v = Ok r) ->
  value_safe v = true -> exists r, conv_value rec v = Ok r.
Proof.
  intros v IH S. destruct v as [| b | n | lit | s | l | d]; simpl; auto.
  simpl in S. unfold plus_number in S.
  destruct (PyStr.is_plus_number (PyStr.strip s)) eqn:Ep; [|eauto].
  simpl in S. destruct (is_plus_number_inv _ Ep) as [digits [Es Ed]].
  rewrite Es in *. simpl in *.
  destruct (py_int_decimal _ (isdigit_nonempty _ Ed) S) as [n ->]. eauto.
Qed.

Lemma conv_list_total : forall l,
  Forall (fun v => int_safe v = true -> exists r, rec v = Ok r) l ->
  forallb value_safe l = true -> exists r, conv_list rec l = Ok r.
Proof.
  induction 1 as [|v l Hv Hl IH]; simpl; intros S; [eauto|].
  apply andb_prop in S. destruct S as [S1 S2].
  destruct (conv_value_total _ Hv S1) as [[c1 v1] ->].
  destruct (IH S2) as [[c2 l1] ->]. simpl. eauto.
Qed.

Lemma conv_items_total : forall d,
  Forall (fun kv => int_safe (snd kv) = true ->
                    exists r, rec (snd kv) = Ok r) d ->
  forallb (fun kv => value_safe (snd kv)) d = true ->
  exists r, conv_items rec d = Ok r.
Proof.
  induction 1 as [|[k v] d Hv Hd IH]; simpl; intros S; [eauto|].
  apply andb_prop in S. destruct S as [S1 S2].
  destruct (conv_value_total v Hv S1) as [[c1 v1] ->].
  destruct (IH S2) as [[c2 d1] ->]. simpl. eauto.
Qed.
End WalkTotal.

Lemma convert_total : forall v,
  int_safe v = true -> exists r, convert_plus_number_strings v = Ok r.
Proof.
  induction v using json_induction; intros S; simpl; eauto.
  - rewrite int_safe_list in S.
    destruct (conv_list_total _ _ H S) as [[c l1] ->]. simpl. eauto.
  - rewrite int_safe_dict in S.
    destruct (conv_items_total _ _ H S) as [[c d1] ->]. simpl. eauto.
Qed.

(** The walk of repair_pf1_packages.py is the same walk with a log. *)
Section WalkLog.
Variable rec : json -> res (bool * json).
Variable rec' : json -> res (bool * list Packages.change * json).

Lemma conv_value_erase : forall mk v,
  erase_log (rec' v) = rec v ->
  erase_log (Packages.conv_value rec' mk v) = conv_value rec v.
Proof.
  intros mk v IH. destruct v; simpl; auto.
  destruct (PyStr.is_plus_number (PyStr.strip s)); [|reflexivity].
  destruct (PyStr.py_int (PyStr.tail (PyStr.strip s))); reflexivity.
Qed.

Lemma conv_value_flag : forall mk v,
  flag_matches_log (rec' v) ->
  flag_matches_log (Packages.conv_value rec' mk v).
Proof.
  intros mk v IH. destruct v; simpl; auto.
  destruct (PyStr.is_plus_number (PyStr.strip s)); [|reflexivity].
  destruct (PyStr.py_int (PyStr.tail (PyStr.strip s))); simpl; auto.
Qed.

Lemma conv_list_erase : forall l i,
  Forall (fun v => erase_log (rec' v) = rec v) l ->
  erase_log (Packages.conv_list rec' i l) = conv_list rec l.
Proof.
  induction l as [|v l IH]; intros i F; [reflexivity|].
  inversion F as [|? ? Fv Fl]; subst. simpl.
  rewrite <- (conv_value_erase (Packages.PlusIdx i) v Fv).
  rewrite <- (IH (S i) Fl).
  destruct (Packages.conv_value rec' (Packages.PlusIdx i) v)
    as [[[c1 g1] v1]|]; simpl; [|reflexivity].
  destruct (Packages.conv_list rec' (S i) l) as [[[c2 g2] l1]|];
    reflexivity.
Qed.

Lemma conv_list_flag : forall l i,
  Forall (fun v => flag_matches_log (rec' v)) l ->
  flag_matches_log (Packages.conv_list rec' i l).
Proof.
  induction l as [|v l IH]; intros i F; [reflexivity|].
  inversion F as [|? ? Fv Fl]; subst. simpl.
  pose proof (conv_value_flag (Packages.PlusIdx i) v Fv) as H1.
  pose proof (IH (S i) Fl) as H2.
  destruct (Packages.conv_value rec' (Packages.PlusIdx i) v)
    as [[[c1 g1] v1]|]; simpl; [|exact I].
  destruct (Packages.conv_list rec' (S i) l) as [[[c2 g2] l1]|];
    simpl in *; [|exact I].
  subst. destruct g1, g2; reflexivity.
Qed.

Lemma conv_items_erase : forall d,
  Forall (fun kv => erase_log (rec' (snd kv)) = rec (snd kv)) d ->
  erase_log (Packages.conv_items rec' d) = conv_items rec d.
Proof.
  induction d as [|[k v] d IH]; intros F; [reflexivity|].
  inversion F as [|? ? Fv Fd]; subst. simpl in *.
  rewrite <- (conv_value_erase (Packages.PlusKey k) v Fv).
  rewrite <- (IH Fd).
  destruct (Packages.conv_value rec' (Packages.PlusKey k) v)
    as [[[c1 g1] v1]|]; simpl; [|reflexivity].
  destruct (Packages.conv_items rec' d) as [[[c2 g2] d1]|]; reflexivity.
Qed.

Lemma conv_items_flag : forall d,
  Forall (fun kv => flag_matches_log (rec' (snd kv))) d ->
  flag_matches_log (Packages.conv_items rec' d).
Proof.
  induction d as [|[k v] d IH]; intros F; [reflexivity|].
  inversion F as [|? ? Fv Fd]; subst. simpl in *.
  pose proof (conv_value_flag (Packages.PlusKey k) v Fv) as H1.
  pose proof (IH Fd) as H2.
  destruct (Packages.conv_value rec' (Packages.PlusKey k) v)
    as [[[c1 g1] v1]|]; simpl; [|exact I].
  destruct (Packages.conv_items rec' d) as [[[c2 g2] d1]|];
    simpl in *; [|exact I].
  subst. destruct g1, g2; reflexivity.
Qed.
End WalkLog.

Lemma packages_convert_erase : forall v,
  erase_log (Packages.convert_plus_number_strings v)
  = convert_plus_number_strings v.
Proof.
  induction v using json_induction; simpl; auto.
  - rewrite <- (conv_list_erase convert_plus_number_strings _ l 0 H).
    destruct (Packages.conv_list _ 0 l) as [[[c g] l1]|]; reflexivity.
  - rewrite <- (conv_items_erase convert_plus_number_strings _ kvs H).
    destruct (Packages.conv_items _ kvs) as [[[c g] d1]|]; reflexivity.
Qed.

Lemma packages_convert_flag : forall v,
  flag_matches_log (Packages.convert_plus_number_strings v).
Proof.
  induction v using json_induction; simpl; auto.
  - pose proof (conv_list_flag _ l 0 H) as F.
    destruct (Packages.conv_list _ 0 l) as [[[c g] l1]|]; auto.
  - pose proof (conv_items_flag _ kvs H) as F.
    destruct (Packages.conv_items _ kvs) as [[[c g] d1]|]; auto.
Qed.

Lemma packages_convert_ok : forall v c log v',
  Packages.convert_plus_number_strings v = Ok (c, log, v') ->
  convert_plus_number_strings v = Ok (c, v').
Proof.
  intros v c log v' E. rewrite <- packages_convert_erase, E. reflexivity.
Qed.

(** Both normalizers end with the numeric-string pass. *)
Lemma resist_repair_last_pass : forall doc c log doc',
  Resist.repair_actor_doc doc = Ok (c, log, doc') ->
  exists mid c', convert_plus_number_strings mid = Ok (c', doc')
                 /\ (has_traits doc = false -> mid = doc).
Proof.
  intros doc c log doc' E. unfold Resist.repair_actor_doc, has_traits in *.
  destruct (get_path doc ["system"; "traits"]) as [[| | | | | |traits]|];
    try (inv_bind E; destruct a as [c' d1]; exists doc, c'; split; auto;
         destruct c'; inversion E; subst; exact E0).
  destruct (fold_left _ _ _) as [[changed1 traits1] changes1].
  destruct (match purge_language_nulls _ with Some _ => _ | None => _ end)
    as [[changed2 changes2] doc2].
  inv_bind E. destruct a as [c' d3]. exists doc2, c'. split.
  - destruct c'; inversion E; subst; exact E0.
  - discriminate.
Qed.

Lemma packages_repair_last_pass : forall doc c log doc',
  Packages.repair_doc doc = Ok (c, log, doc') ->
  exists mid c', convert_plus_number_strings mid = Ok (c', doc')
                 /\ (has_traits doc = false -> mid = doc).
Proof.
  intros doc c log doc' E. unfold Packages.repair_doc, has_traits in *.
  destruct (get_path doc ["system"; "traits"]) as [[| | | | | |traits]|];
    try (inv_bind E; destruct a as [[c' g] d1]; exists doc, c'; split; auto;
         inversion E; subst; exact (packages_convert_ok _ _ _ _ E0)).
  destruct (match purge_language_nulls _ with Some _ => _ | None => _ end)
    as [[changed1 changes1] doc1].
  destruct (fold_left _ _ _) as [[changed2 traits2] changes2].
  inv_bind E. destruct a as [[c' g] d3].
  exists (put_path doc1 ["system"; "traits"] (JDict traits2)), c'. split.
  - inversion E; subst. exact (packages_convert_ok _ _ _ _ E0).
  - discriminate.
Qed.

(** C4 (no-raise safety) fails: [str.isdigit] accepts SUPERSCRIPT TWO, [int]
    does not, so the numeric pass and both normalizers raise [ValueError] on
    a document holding a plus sign followed by that character. *)
Theorem repair_raises_on_superscript_digit :
  PyStr.is_plus_number plus_superscript_two = true
  /\ convert_plus_number_strings doc_superscript = Raise ValueError
  /\ Resist.repair_actor_doc doc_superscript = Raise ValueError
  /\ Packages.repair_doc doc_superscript = Raise ValueError
  /\ Resist_process_db_file
       [Text.json_dumps doc_superscript] = Raise ValueError.
Proof. repeat split; vm_compute; reflexivity. Qed.

Lemma resist_repair_plus_free : forall doc c log doc',
  Resist.repair_actor_doc doc = Ok (c, log, doc') -> plus_free doc' = true.
Proof.
  intros doc c log doc' E.
  destruct (resist_repair_last_pass _ _ _ _ E) as (mid & c' & Ec & _).
  exact (proj1 (convert_post _ _ _ Ec)).
Qed.

Lemma packages_repair_plus_free : forall doc c log doc',
  Packages.repair_doc doc = Ok (c, log, doc') -> plus_free doc' = true.
Proof.
  intros doc c log doc' E.
  destruct (packages_repair_last_pass _ _ _ _ E) as (mid & c' & Ec & _).
  exact (proj1 (convert_post _ _ _ Ec)).
Qed.

(** C3 as stated fails: a document whose [type] is outside the filter keeps
    its plus-number strings; it is written back untouched by both scripts. *)
Lemma numeric_pass_skips_untargeted_doc :
  Resist.process_doc doc_item = Ok (false, JDict doc_item)
  /\ Packages.process_doc true doc_item = Ok (false, JDict doc_item)
  /\ plus_free (JDict doc_item) = false.
Proof. repeat split. Qed.

(** The type test of [process_db_file] in repair_pf1_packages.py. *)
Lemma packages_process_doc_skip : forall only_npc doc,
  only_npc = true -> Dict.get "type" doc <> Some (JStr "npc") ->
  Packages.process_doc only_npc doc = Ok (false, JDict doc).
Proof.
  intros only_npc doc -> N. unfold Packages.process_doc.
  destruct (Dict.get "type" doc) as [[| | | |t| |]|]; try reflexivity.
  destruct (String.eqb t "npc") eqn:E; [|reflexivity].
  apply String.eqb_eq in E. congruence.
Qed.

(** C3 (amended): the type filter gates the whole repair, numeric pass
    included.  A document that fails the filter ([type] not character/npc in
    the resistances script; [type] not npc under [only_npc] in the packages
    script) is written back as parsed; a document that passes it gets the
    numeric pass, whether or not it has a [system.traits] mapping. *)
Theorem numeric_pass_follows_type_filter : forall doc,
  (Resist.should_patch_doc doc = false ->
     Resist.process_doc doc = Ok (false, JDict doc))
  /\ (Resist.should_patch_doc doc = true ->
      forall c d, Resist.process_doc doc = Ok (c, d) -> plus_free d = true)
  /\ (Dict.get "type" doc <> Some (JStr "npc") ->
      Packages.process_doc true doc = Ok (false, JDict doc))
  /\ (forall only_npc,
      only_npc = false \/ Dict.get "type" doc = Some (JStr "npc") ->
      forall c d, Packages.process_doc only_npc doc = Ok (c, d) ->
                  plus_free d = true).
Proof.
  intros doc. repeat split.
  - intros E. unfold Resist.process_doc. rewrite E. reflexivity.
  - intros E c d P. unfold Resist.process_doc in P. rewrite E in P.
    inv_bind P. destruct a as [[c' log] d']. inversion P; subst.
    exact (resist_repair_plus_free _ _ _ _ E0).
  - intros N. apply packages_process_doc_skip; auto.
  - intros only_npc G c d P. unfold Packages.process_doc in P.
    assert (S : only_npc
                && negb match Dict.get "type" doc with
                        | Some (JStr t) => String.eqb t "npc"
                        | _ => false
                        end = false).
    { destruct G as [->| ->]; [reflexivity|].
      simpl. apply andb_false_r. }
    rewrite S in P.
    inv_bind P. destruct a as [[c' log] d']. inversion P; subst.
    exact (packages_repair_plus_free _ _ _ _ E).
Qed.

Lemma numeric_pass_follows_type_filter_witness :
  Resist.process_doc doc_item = Ok (false, JDict doc_item)
  /\ plus_free (JDict [("type", JStr "npc"); ("abilityMod", JInt 2)]) = true.
Proof.
  destruct (numeric_pass_follows_type_filter doc_item) as (H1 & _).
  destruct (numeric_pass_follows_type_filter
              [("type", JStr "npc"); ("abilityMod", JStr "+2")])
    as (_ & H2 & _).
  split.
  - apply H1. reflexivity.
  - apply (H2 eq_refl true). reflexivity.
Defined.

(** ** The line loop *)

(** C9 as stated fails: a line in compact form that parses to a mapping and
    is not mutated is written back re-serialized, with the serializer's
    separators, not byte for byte. *)
Lemma unmutated_line_is_reserialized :
  Resist_process_db_file [compact_line] = Ok (0, [spaced_line])
  /\ Packages_process_db_file true [compact_line] = Ok (0, [spaced_line])
  /\ Eidolon_process_file [compact_line] = Ok (0, [spaced_line])
  /\ spaced_line <> compact_line.
Proof. repeat split; try (vm_compute; reflexivity). discriminate. Qed.

Lemma process_line_cases : forall loads dumps patch line changed out,
  Files.process_line loads dumps patch line = Ok (changed, out) ->
  (passes_through loads line = true /\ out = line /\ changed = false)
  \/ (passes_through loads line = false
      /\ exists doc doc',
           loads (Files.rstrip_nl line) = Some (JDict doc)
           /\ patch doc = Ok (changed, doc')
           /\ out = (dumps doc' ++ Files.LF)%string).
Proof.
  intros loads dumps patch line changed out E.
  unfold Files.process_line, passes_through in *.
  destruct (PyStr.nonblank (Files.rstrip_nl line)); simpl in *.
  - destruct (loads (Files.rstrip_nl line)) as [[| | | | | |doc]|];
      try (inversion E; subst; left; auto; fail).
    right. split; [reflexivity|].
    inv_bind E. destruct a as [c doc']. inversion E; subst.
    exists doc, doc'. auto.
  - inversion E; subst. left. auto.
Qed.

(** C9 (amended): the loop writes one chunk per input line, in order.  Blank
    lines, lines that do not decode and lines that decode to something other
    than a mapping are written exactly as read.  Every line that decodes to a
    mapping, mutated or not, is written as the serialization of the patched
    document followed by one newline. *)
Theorem process_lines_frame :
  forall loads dumps patch lines patched outs,
  Files.process_lines loads dumps patch lines = Ok (patched, outs) ->
  List.length outs = List.length lines
  /\ forall i line, nth_error lines i = Some line ->
       exists changed out,
         nth_error outs i = Some out
         /\ Files.process_line loads dumps patch line = Ok (changed, out)
         /\ (passes_through loads line = true ->
             out = line /\ changed = false)
         /\ (passes_through loads line = false ->
             exists doc doc',
               loads (Files.rstrip_nl line) = Some (JDict doc)
               /\ patch doc = Ok (changed, doc')
               /\ out = (dumps doc' ++ Files.LF)%string).
Proof.
  intros loads dumps patch lines.
  induction lines as [|line rest IH]; simpl; intros patched outs E.
  - inversion E; subst. split; [reflexivity|].
    intros [|i] line Hn; discriminate.
  - inv_bind E. destruct a as [changed out].
    inv_bind E. destruct a as [p outs']. inversion E; subst. clear E.
    destruct (IH _ _ E1) as [Hlen Hnth]. split; [simpl; congruence|].
    intros [|i] l Hn; simpl in *.
    + inversion Hn; subst l. exists changed, out.
      split; [reflexivity|]. split; [exact E0|].
      destruct (process_line_cases _ _ _ _ _ _ E0) as
        [(P & -> & ->)|(P & doc & doc' & L & Pd & ->)]; rewrite P.
      * split; [auto | discriminate].
      * split; [discriminate | intros _; eauto].
    + apply Hnth; exact Hn.
Qed.

Lemma process_lines_frame_witness :
  List.length [spaced_line] = List.length [compact_line]
  /\ exists changed out,
       nth_error [spaced_line] 0 = Some out
       /\ Files.process_line Text.json_loads Text.json_dumps
            Resist.process_doc compact_line = Ok (changed, out).
Proof.
  destruct (process_lines_frame Text.json_loads Text.json_dumps
              Resist.process_doc [compact_line] 0 [spaced_line] eq_refl)
    as [Hlen Hnth].
  split; [exact Hlen|].
  destruct (Hnth 0 compact_line eq_refl) as (changed & out & Ho & Hp & _).
  exists changed, out. split; [exact Ho | exact Hp].
Defined.

(** ** The Identifier Deduplicator *)

Example dedup_bite :
  Eidolon.fix_actor_identifiers_and_resources actor_bite
  = (true,
     [Eidolon.ItemRenamed None "abc123" "bite" "bite_abc123";
      Eidolon.ResourceRemoved "bite"],
     JDict
       [("type", JStr "npc");
        ("items",
         JList [JDict [("_id", JStr "a1");
                       ("system", JDict [("tag", JStr "bite")])];
                JDict [("_id", JStr "abc123");
                       ("system", JDict [("tag", JStr "bite_abc123");
                                         ("useCustomTag", JBool true)])]]);
        ("system", JDict [("resources", JDict [("rage", JInt 1)])])]).
Proof. reflexivity. Qed.

(** C5 (tag uniqueness) fails on [actor_blank_id]: the second item is renamed
    to [a_x ] with the blank of its [_id], the claimed set holds that raw
    string, and the third item, whose stripped tag [a_x] is not in the set,
    keeps its tag.  Two items end up with the same tag, stored and as read by
    [get_item_tag].  ([dedup_tags_unique] shows the tags are distinct when no
    [_id] ends in white space.) *)
Theorem dedup_leaves_duplicate_item_tags :
  map item_tag (items_of (dedup actor_blank_id))
  = [Some "a"; Some "a_x"; Some "a_x"]
  /\ map (fun it => get_path it ["system"; "tag"])
       (items_of (dedup actor_blank_id))
     = [Some (JStr "a"); Some (JStr "a_x "); Some (JStr "a_x ")].
Proof. split; reflexivity. Qed.

(** C6 (idempotence) fails on the same actor: a second run finds the
    duplicate the first run left, renames the third item and reports a
    change.  ([dedup_second_run_clean] shows a second run is a no-op when no
    [_id] ends in white space.) *)
Theorem dedup_second_run_renames :
  match dedup actor_blank_id with
  | JDict once =>
      Eidolon.fix_actor_identifiers_and_resources once
      = (true,
         [Eidolon.ItemRenamed None "i3" "a_x" "a_x_i3"],
         dedup once)
      /\ dedup once <> JDict once
  | _ => False
  end.
Proof. vm_compute. split; [reflexivity | discriminate]. Qed.

Lemma loop_preserves : forall (S A B : Type) (proj : S -> B)
  (body : S -> A -> S * A),
  (forall st x, proj (fst (body st x)) = proj st) ->
  forall l st, proj (fst (Eidolon.loop body st l)) = proj st.
Proof.
  intros S A B proj body Hb. induction l as [|x l IH]; intros st; simpl.
  - reflexivity.
  - specialize (Hb st x). destruct (body st x) as [st1 x'].
    specialize (IH st1). destruct (Eidolon.loop body st1 l) as [st2 l'].
    simpl in *. congruence.
Qed.

Lemma pass2_action_tags : forall name st a,
  Eidolon.item_tags_in_actor (fst (Eidolon.pass2_action name st a))
  = Eidolon.item_tags_in_actor st.
Proof.
  intros name st a. unfold Eidolon.pass2_action.
  destruct a; try reflexivity.
  destruct (Eidolon.get_action_tag kvs); [|reflexivity].
  destruct (Eidolon.mem s (Eidolon.seen st)); reflexivity.
Qed.

Lemma pass2_item_tags : forall st it,
  Eidolon.item_tags_in_actor (fst (Eidolon.pass2_item st it))
  = Eidolon.item_tags_in_actor st.
Proof.
  intros st it. unfold Eidolon.pass2_item.
  destruct it; try reflexivity.
  destruct (Dict.get "system" kvs) as [[| | | | | |sysd]|]; try reflexivity.
  destruct (Dict.get "actions" sysd) as [[| | | | |acts|]|]; try reflexivity.
  pose proof (loop_preserves _ _ _ Eidolon.item_tags_in_actor
                (Eidolon.pass2_action (Dict.get "name" kvs))
                (pass2_action_tags _) acts st) as H.
  destruct (Eidolon.loop _ st acts) as [st' acts']. exact H.
Qed.

Lemma del_other_head : forall l k v r,
  ~ In k l ->
  fold_left (fun r' k' => Dict.del k' r') l ((k, v) :: r)
  = (k, v) :: fold_left (fun r' k' => Dict.del k' r') l r.
Proof.
  induction l as [|k' l IH]; intros k v r N; simpl.
  - reflexivity.
  - destruct (String.eqb k' k) eqn:E.
    + apply String.eqb_eq in E. subst. exfalso. apply N. left. reflexivity.
    + apply IH. intros I. apply N. right. exact I.
Qed.

(** Deleting the keys that satisfy [p] one by one leaves the entries whose
    key does not. *)
Lemma fold_del_filter : forall (p : string -> bool) r,
  fold_left (fun r' k => Dict.del k r') (filter p (Dict.keys r)) r
  = filter (fun kv => negb (p (fst kv))) r.
Proof.
  intros p. induction r as [|[k v] r IH]; simpl; [reflexivity|].
  destruct (p k) eqn:E; simpl.
  - rewrite String.eqb_refl. exact IH.
  - rewrite del_other_head.
    + rewrite IH. reflexivity.
    + intros I. apply filter_In in I. destruct I as [_ I]. congruence.
Qed.

Lemma resources_set_items : forall v actor,
  Eidolon.get_resources_dict (Dict.set "items" v actor)
  = Eidolon.get_resources_dict actor.
Proof.
  intros v actor. unfold Eidolon.get_resources_dict.
  rewrite get_set_other; [reflexivity | discriminate].
Qed.

Lemma resources_put : forall actor r r',
  Eidolon.get_resources_dict actor = Some r ->
  resources_of (put_path (JDict actor) ["system"; "resources"] (JDict r'))
  = Some r'.
Proof.
  intros actor r r' E. unfold Eidolon.get_resources_dict in E. simpl.
  destruct (Dict.get "system" actor) as [[| | | | | |sysd]|] eqn:Es;
    try discriminate.
  destruct (Dict.get "resources" sysd) as [[| | | | | |r0]|] eqn:Er;
    try discriminate.
  simpl. unfold Eidolon.get_resources_dict.
  rewrite get_set_same, get_set_same. reflexivity.
Qed.

(** The resource map of the repaired actor is the original one without the
    entries whose key is a collected tag. *)
Lemma dedup_resources : forall actor items r,
  Dict.get "items" actor = Some (JList items) ->
  Eidolon.get_resources_dict actor = Some r ->
  resources_of (dedup actor)
  = Some (filter (fun kv => negb (Eidolon.mem (fst kv) (collected_tags items)))
            r).
Proof.
  intros actor items r Ei Er.
  unfold dedup, Eidolon.fix_actor_identifiers_and_resources, collected_tags.
  rewrite Ei.
  destruct (Eidolon.loop Eidolon.pass1_item _ items) as [st1 items1].
  pose proof (loop_preserves _ _ _ Eidolon.item_tags_in_actor
                Eidolon.pass2_item pass2_item_tags items1 st1) as Ht.
  destruct (Eidolon.loop Eidolon.pass2_item st1 items1) as [st2 items2].
  simpl in Ht. rewrite resources_set_items, Er.
  unfold Eidolon.pass3. rewrite fold_del_filter, Ht. simpl fst.
  destruct (filter _ (Dict.keys r)) eqn:Ef.
  - simpl. rewrite resources_set_items, Er. f_equal.
    pose proof (fold_del_filter
                  (fun k => Eidolon.mem k (Eidolon.item_tags_in_actor st1))
                  r) as Hf.
    rewrite Ef in Hf. simpl in Hf. exact Hf.
  - simpl snd. apply resources_put with (r := r).
    rewrite resources_set_items. exact Er.
Qed.

(** X21 (PASS 3 against the list PASS 1 collects): when the actor has an
    item list and a resource map, the resource map of the repaired actor is
    the original one without the entries whose key is in
    [item_tags_in_actor], the list PASS 1 collects (for each tagged item,
    its stripped tag if it was kept and its replacement, as stored, if it
    was renamed).  The other entries stay, with their values and in their
    order; nothing is renamed; no remaining key is in the list. *)
Theorem pass3_removes_exactly_tag_keys : forall actor items r,
  Dict.get "items" actor = Some (JList items) ->
  Eidolon.get_resources_dict actor = Some r ->
  exists r',
    resources_of (dedup actor) = Some r'
    /\ r' = filter (fun kv => negb (Eidolon.mem (fst kv) (collected_tags items)))
              r
    /\ (forall k, In k (Dict.keys r') ->
                  Eidolon.mem k (collected_tags items) = false)
    /\ (forall k v, In (k, v) r ->
                    Eidolon.mem k (collected_tags items) = false ->
                    In (k, v) r').
Proof.
  intros actor items r Ei Er.
  exists (filter (fun kv => negb (Eidolon.mem (fst kv) (collected_tags items)))
            r).
  split; [|split; [reflexivity|split]].
  - exact (dedup_resources actor items r Ei Er).
  - intros k I. unfold Dict.keys in I. apply in_map_iff in I.
    destruct I as [[k' v] [<- I]]. apply filter_In in I.
    destruct I as [_ I]. simpl in *. apply negb_true_iff in I. exact I.
  - intros k v I M. apply filter_In. split; [exact I|].
    simpl. rewrite M. reflexivity.
Qed.

Lemma pass3_removes_exactly_tag_keys_witness :
  exists r',
    resources_of (dedup actor_bite) = Some r'
    /\ r' = [("rage", JInt 1)].
Proof.
  destruct (pass3_removes_exactly_tag_keys actor_bite
              [JDict [("_id", JStr "a1");
                      ("system", JDict [("tag", JStr "bite")])];
               JDict [("_id", JStr "abc123");
                      ("system", JDict [("tag", JStr "bite")])]]
              [("bite", JDict []); ("rage", JInt 1)] eq_refl eq_refl)
    as (r' & H1 & H2 & _).
  exists r'. split; [exact H1 | exact H2].
Defined.

(** C7 (resource/tag disjointness) fails: a replacement tag is stored and
    collected unstripped, while tags are read stripped.  On two items tagged
    [a], the second with the [_id] ["x "], and a resource [a_x], the second
    item is renamed to ["a_x "], the key [a_x] is not in the collected list
    and stays, and [get_item_tag] reads [a_x] on the repaired item: a
    resource key equals the final tag of an item.  A second run deletes the
    key. *)
Theorem pass3_keeps_key_of_renamed_tag :
  collected_tags (items_of (JDict actor_blank_resource)) = ["a"; "a_x "]
  /\ map raw_tag (items_of (dedup actor_blank_resource))
     = [Some (JStr "a"); Some (JStr "a_x ")]
  /\ tags_read (items_of (dedup actor_blank_resource)) = ["a"; "a_x"]
  /\ resources_of (dedup actor_blank_resource) = Some [("a_x", JInt 1)]
  /\ match dedup actor_blank_resource with
     | JDict once =>
         fst (Eidolon.fix_actor_identifiers_and_resources once)
         = (true, [Eidolon.ResourceRemoved "a_x"])
         /\ resources_of (dedup once) = Some []
     | _ => False
     end.
Proof. vm_compute. repeat split. Qed.

(** ** Stripping and splitting *)

Lemma rstrip_idem : forall s, PyStr.rstrip (PyStr.rstrip s) = PyStr.rstrip s.
Proof.
  induction s as [|c r IH]; simpl; [reflexivity|].
  destruct (PyStr.is_space c && PyStr.is_empty (PyStr.rstrip r)) eqn:E;
    simpl; [reflexivity|].
  rewrite IH, E. reflexivity.
Qed.

Lemma lstrip_head : forall s,
  PyStr.lstrip s = EmptyString
  \/ exists c r, PyStr.lstrip s = String c r /\ PyStr.is_space c = false.
Proof.
  induction s as [|c r IH]; simpl; [left; reflexivity|].
  destruct (PyStr.is_space c) eqn:E; [exact IH|].
  right. exists c, r. auto.
Qed.

(** A stripped string is empty or starts with a character that is no
    white space. *)
Lemma strip_head : forall s,
  PyStr.strip s = EmptyString
  \/ exists c r, PyStr.strip s = String c r /\ PyStr.is_space c = false.
Proof.
  intros s. unfold PyStr.strip.
  destruct (lstrip_head s) as [->|(c & r & -> & E)]; [left; reflexivity|].
  right. simpl. rewrite E. simpl. eauto.
Qed.

Lemma strip_idem : forall s, PyStr.strip (PyStr.strip s) = PyStr.strip s.
Proof.
  intros s. destruct (strip_head s) as [->|(c & r & E & Ec)]; [reflexivity|].
  unfold PyStr.strip at 1. rewrite E. simpl PyStr.lstrip. rewrite Ec.
  rewrite <- E. unfold PyStr.strip. apply rstrip_idem.
Qed.

Lemma str_to_list_nonblank : forall s,
  forallb keep_entry (map JStr (PyStr.str_to_list s)) = true.
Proof.
  intros s. unfold PyStr.str_to_list.
  induction (PyStr.re_split false s) as [|t ts IH]; simpl; [reflexivity|].
  destruct (PyStr.is_empty (PyStr.strip t)) eqn:E; simpl; [exact IH|].
  unfold PyStr.nonblank. rewrite strip_idem, E. simpl. exact IH.
Qed.

Lemma forallb_filter_same : forall (A : Type) (p : A -> bool) l,
  forallb p (filter p l) = true.
Proof.
  induction l as [|x l IH]; simpl; [reflexivity|].
  destruct (p x) eqn:E; simpl; [rewrite E|]; exact IH.
Qed.

Lemma filter_all : forall (A : Type) (p : A -> bool) l,
  forallb p l = true -> filter p l = l.
Proof.
  induction l as [|x l IH]; simpl; [reflexivity|].
  intros E. apply andb_prop in E. destruct E as [E1 E2].
  rewrite E1, IH; auto.
Qed.

Lemma filter_length_lt : forall (A : Type) (p : A -> bool) l,
  filter p l <> l -> List.length (filter p l) < List.length l.
Proof.
  induction l as [|x l IH]; simpl; [congruence|].
  pose proof (filter_length_le p l) as Hle.
  destruct (p x); simpl; intros N.
  - apply -> Nat.succ_lt_mono. apply IH. congruence.
  - lia.
Qed.

Lemma re_split_total_length : forall s b,
  total_length (PyStr.re_split b s) <= String.length s.
Proof.
  unfold total_length.
  induction s as [|c r IH]; intros b; simpl; [lia|].
  destruct (PyStr.is_sep c).
  - destruct b; simpl; specialize (IH true); lia.
  - specialize (IH false).
    destruct (PyStr.re_split false r) as [|t ts]; simpl in *; lia.
Qed.

Lemma strip_empty : forall t,
  PyStr.is_empty (PyStr.strip t) = false -> 1 <= String.length t.
Proof. intros [|c r] E; simpl in *; [discriminate | lia]. Qed.

(** Splitting never yields more tokens than the string has characters. *)
Lemma str_to_list_length : forall s,
  List.length (PyStr.str_to_list s) <= String.length s.
Proof.
  intros s. unfold PyStr.str_to_list.
  pose proof (re_split_total_length s false) as H.
  revert H. generalize (String.length s).
  unfold total_length.
  induction (PyStr.re_split false s) as [|t ts IH]; intros n H; simpl in *;
    [lia|].
  destruct (PyStr.is_empty (PyStr.strip t)) eqn:E; simpl.
  - apply IH. lia.
  - apply strip_empty in E.
    specialize (IH (n - String.length t)). lia.
Qed.

(** ** Steps and their composition *)

Lemma stepped_refl : forall (X C : Type) (M : X -> nat) (st : bool * X * list C),
  stepped M st st.
Proof. intros. left. reflexivity. Qed.

Lemma stepped_trans : forall (X C : Type) (M : X -> nat)
  (a b c : bool * X * list C),
  stepped M a b -> stepped M b c -> stepped M a c.
Proof.
  intros X C M a b c [->|(F1 & L1 & e1 & N1 & A1)]
    [->|(F2 & L2 & e2 & N2 & A2)].
  - left. reflexivity.
  - right. eauto.
  - right. eauto.
  - right. split; [exact F2|]. split; [lia|].
    exists (e1 ++ e2). split.
    + destruct e1; [congruence | discriminate].
    + rewrite A2, A1, app_assoc. reflexivity.
Qed.

(** What the flag of a run started with a clear flag and an empty log tells. *)
Lemma stepped_flag : forall (X C : Type) (M : X -> nat) (x x' : X)
  (c : bool) (log : list C),
  stepped M (false, x, []) (c, x', log) ->
  (c = false -> x' = x /\ log = [])
  /\ (c = true -> M x' < M x /\ log <> []).
Proof.
  intros X C M x x' c log [E|(F & L & e & N & A)]; simpl in *.
  - inversion E; subst. split; [auto | discriminate].
  - subst. split; [discriminate|]. intros _. split; [exact L | exact N].
Qed.

Lemma stepped_weak : forall (X C : Type) (M : X -> nat)
  (st st' : bool * X * list C),
  stepped M st st' ->
  (fst (fst st) = true -> fst (fst st') = true)
  /\ M (snd (fst st')) <= M (snd (fst st))
  /\ exists e, snd st' = snd st ++ e.
Proof.
  intros X C M st st' [->|(F & L & e & N & A)].
  - repeat split; auto. exists []. rewrite app_nil_r. reflexivity.
  - repeat split; auto; [lia | eauto].
Qed.

Lemma strs_length : forall l, rank_field (Some (strs l)) = List.length l.
Proof. intros l. unfold strs. simpl. apply length_map. Qed.

(** ** The steps on one trait mapping *)

Ltac get_set_simpl :=
  repeat (rewrite get_set_same
          || (rewrite get_set_other by discriminate)).

Lemma clean_field_stepped : forall (C : Type) field on_str (on_clean : C) rv st,
  field = "custom" \/ field = "customTotal" ->
  stepped (rank_trait rv) st (clean_field field on_str on_clean st).
Proof.
  intros C field on_str on_clean rv [[c t] log] Hf. unfold clean_field.
  destruct (Dict.get field t) as [[| | | |s|l|]|] eqn:E;
    try (left; reflexivity).
  - right. simpl. split; [reflexivity|]. split; [|eexists; split; eauto;
      discriminate].
    pose proof (str_to_list_length s) as Hl. unfold rank_trait.
    destruct Hf; subst field; get_set_simpl; rewrite E, strs_length;
      simpl; lia.
  - destruct (json_eqb (JList (filter keep_entry l)) (JList l)) eqn:Eq;
      simpl; [left; reflexivity|].
    right. simpl. split; [reflexivity|]. split; [|eexists; split; eauto;
      discriminate].
    apply json_eqb_neq in Eq.
    assert (Hl : List.length (filter keep_entry l) < List.length l).
    { apply filter_length_lt. congruence. }
    unfold rank_trait.
    destruct Hf; subst field; get_set_simpl; rewrite E; simpl; lia.
Qed.

Lemma fix_value_stepped : forall key st,
  stepped (rank_trait rank_value) st (Resist.fix_value key st).
Proof.
  intros key [[c t] log]. unfold Resist.fix_value.
  destruct (Dict.get "value" t) as [[| | | |s|l|]|] eqn:E;
    try (right; simpl; split; [reflexivity|]; split;
         [unfold rank_trait; get_set_simpl; rewrite E; simpl; lia
         | eexists; split; eauto; discriminate]).
  - right. simpl. split; [reflexivity|]. split; [|eexists; split; eauto;
      discriminate].
    pose proof (str_to_list_length s) as Hl. unfold rank_trait.
    get_set_simpl. rewrite E. unfold rank_value, strs.
    rewrite length_map. lia.
  - destruct (json_eqb (JList (filter keep_entry l)) (JList l)) eqn:Eq;
      simpl; [left; reflexivity|].
    right. simpl. split; [reflexivity|]. split; [|eexists; split; eauto;
      discriminate].
    apply json_eqb_neq in Eq.
    assert (Hl : List.length (filter keep_entry l) < List.length l).
    { apply filter_length_lt. congruence. }
    unfold rank_trait. get_set_simpl. rewrite E. simpl. lia.
Qed.

(** The three steps [ensure_trait_arrays] runs on the trait mapping. *)
Lemma resist_trait_steps : forall key st,
  stepped (rank_trait rank_value) st
    (Resist.fix_field key "customTotal"
       (Resist.fix_field key "custom" (Resist.fix_value key st))).
Proof.
  intros key st. unfold Resist.fix_field.
  eapply stepped_trans; [apply fix_value_stepped|].
  eapply stepped_trans; apply clean_field_stepped; auto.
Qed.

Lemma packages_trait_steps : forall k st,
  stepped (rank_trait rank_field) st
    (Packages.fix_field k "customTotal" (Packages.fix_field k "custom" st)).
Proof.
  intros k st. unfold Packages.fix_field.
  eapply stepped_trans; apply clean_field_stepped; auto.
Qed.

(** ** The trait rules on the [system.traits] mapping *)

Lemma resist_measure_set : forall key e traits,
  In key ["eres"; "dr"; "dv"] ->
  resist_measure (Dict.set key e traits) + rank_entry (Dict.get key traits)
  = resist_measure traits + rank_entry (Some e).
Proof.
  intros key e traits [<-|[<-|[<-|[]]]]; unfold resist_measure;
    get_set_simpl; lia.
Qed.

Lemma ensure_trait_arrays_stepped : forall key traits log,
  In key ["eres"; "dr"; "dv"] ->
  stepped resist_measure (false, traits, log)
    (Resist.ensure_trait_arrays traits key log).
Proof.
  intros key traits log Hk. unfold Resist.ensure_trait_arrays.
  destruct (Dict.get key traits) as [e|] eqn:E.
  destruct e as [| | | | | |t].
  7: {
    (* the entry is a mapping *)
    rewrite E.
    pose proof (resist_trait_steps key (false, t, log)) as H.
    destruct (Resist.fix_field key "customTotal" _) as [[c2 t2] log2].
    destruct H as [H|(F & L & e & N & A)]; simpl in *.
    - inversion H; subst. rewrite set_get_id by exact E. left. reflexivity.
    - right. simpl. split; [exact F|]. split; [|eauto].
      pose proof (resist_measure_set key (JDict t2) traits Hk) as Hm.
      rewrite E in Hm. cbn [rank_entry] in Hm. lia.
  }
  all: rewrite get_set_same;
    match goal with
    | |- context [Resist.fix_value ?k (true, [], ?l)] =>
        pose proof (resist_trait_steps k (true, [], l)) as H
    end;
    destruct (Resist.fix_field key "customTotal" _) as [[c2 t2] log2];
    apply stepped_weak in H; simpl in H; destruct H as (F & L & e & A);
    right; simpl; rewrite set_set_same;
    (split; [auto|]); (split;
      [ pose proof (resist_measure_set key (JDict t2) traits Hk) as Hm;
        rewrite E in Hm; cbn [rank_entry] in Hm;
        change (rank_trait rank_value []) with 1 in L; lia
      | eexists; split; [|rewrite A, <- app_assoc; reflexivity];
        discriminate ]).
Qed.

Lemma resist_keys_stepped : forall keys st,
  incl keys ["eres"; "dr"; "dv"] ->
  stepped resist_measure st (fold_left Resist.ensure_step keys st).
Proof.
  induction keys as [|key keys IH]; intros st Hi; simpl.
  - apply stepped_refl.
  - eapply stepped_trans; [|apply IH; intros k Hk; apply Hi; right; exact Hk].
    destruct st as [[changed tr] changes]. unfold Resist.ensure_step.
    pose proof (ensure_trait_arrays_stepped key tr changes
                  (Hi key (or_introl eq_refl))) as H.
    destruct (Resist.ensure_trait_arrays tr key changes) as [[c tr'] log'].
    destruct H as [H|(F & L & e & N & A)]; simpl in *.
    + inversion H; subst. rewrite orb_false_r. left. reflexivity.
    + subst c. rewrite orb_true_r. right. simpl. eauto.
Qed.

(** ** Paths *)

Lemma get_put_same : forall p doc v w,
  get_path doc p = Some w -> get_path (put_path doc p v) p = Some v.
Proof.
  induction p as [|k p IH]; intros doc v w E; simpl in *; [reflexivity|].
  destruct doc; try discriminate.
  destruct (Dict.get k kvs) as [sub|] eqn:Ek; [|discriminate].
  rewrite get_set_same. eapply IH. exact E.
Qed.

Lemma put_put_same : forall p doc v w,
  put_path (put_path doc p v) p w = put_path doc p w.
Proof.
  induction p as [|k p IH]; intros doc v w; simpl; [reflexivity|].
  destruct doc; try reflexivity.
  destruct (Dict.get k kvs) as [sub|] eqn:Ek; simpl; [|rewrite Ek; reflexivity].
  rewrite get_set_same, set_set_same, IH. reflexivity.
Qed.

Lemma put_get_id : forall p doc v,
  get_path doc p = Some v -> put_path doc p v = doc.
Proof.
  induction p as [|k p IH]; intros doc v E; simpl in *; [congruence|].
  destruct doc; try discriminate.
  destruct (Dict.get k kvs) as [sub|] eqn:Ek; [|discriminate].
  rewrite (IH _ _ E), set_get_id by exact Ek. reflexivity.
Qed.

(** The languages step of a document is the step on its traits, written
    back. *)
Lemma purge_on_traits : forall doc traits,
  get_path doc ["system"; "traits"] = Some (JDict traits) ->
  purge_language_nulls doc
  = match purge_traits traits with
    | Some (nulls, tr) =>
        Some (nulls, put_path doc ["system"; "traits"] (JDict tr))
    | None => None
    end.
Proof.
  intros doc traits E. unfold purge_language_nulls, purge_traits.
  destruct doc as [| | | | | |d]; try discriminate. simpl in *.
  destruct (Dict.get "system" d) as [[| | | | | |sys]|] eqn:Es;
    try discriminate.
  destruct (Dict.get "traits" sys) as [tr|] eqn:Et; [|discriminate].
  inversion E; subst tr. clear E.
  destruct (Dict.get "languages" traits) as [[| | | | | |lt]|] eqn:El;
    try reflexivity.
  destruct (Dict.get "value" lt) as [[| | | | |lv|]|] eqn:Ev; try reflexivity.
  destruct (negb (count_nulls lv =? 0)); [|reflexivity].
  rewrite (set_get_id "languages" (JDict lt) traits El).
  rewrite (set_get_id "traits" (JDict traits) sys Et).
  rewrite (set_get_id "system" (JDict sys) d Es).
  rewrite Es, Et, El, Ev. reflexivity.
Qed.

(** ** The normalizers as rules on the traits followed by the numeric pass *)

Lemma resist_repair_unfold : forall doc traits,
  get_path doc ["system"; "traits"] = Some (JDict traits) ->
  Resist.repair_actor_doc doc
  = let '(c, tr, log) := resist_rules traits in
    '(c', d') <- convert_plus_number_strings
                   (put_path doc ["system"; "traits"] (JDict tr)) ;;
    if c' then Ok (true, log ++ [Resist.GlobalPlus], d') else Ok (c, log, d').
Proof.
  intros doc traits E. unfold Resist.repair_actor_doc, resist_rules.
  rewrite E.
  destruct (fold_left Resist.ensure_step _ _) as [[c1 tr1] log1].
  rewrite (purge_on_traits (put_path doc ["system"; "traits"] (JDict tr1))
             tr1 (get_put_same _ _ _ _ E)).
  cbn [fst snd].
  destruct (purge_traits tr1) as [[n tr2]|]; [|reflexivity].
  rewrite put_put_same. reflexivity.
Qed.

Lemma packages_repair_unfold : forall doc traits,
  get_path doc ["system"; "traits"] = Some (JDict traits) ->
  Packages.repair_doc doc
  = let '(c, tr, log) := packages_rules traits in
    '(c', log', d') <- Packages.convert_plus_number_strings
                         (put_path doc ["system"; "traits"] (JDict tr)) ;;
    Ok (c || c', log ++ log', d').
Proof.
  intros doc traits E. unfold Packages.repair_doc, packages_rules.
  rewrite E, (purge_on_traits doc traits E).
  destruct (purge_traits traits) as [[n tr]|].
  - rewrite (get_put_same _ _ _ _ E).
    destruct (fold_left Packages.split_value _ _) as [[c2 tr2] log2].
    rewrite put_put_same. reflexivity.
  - rewrite E.
    destruct (fold_left Packages.split_value _ _) as [[c2 tr2] log2].
    reflexivity.
Qed.

Lemma packages_measure_set : forall key e traits,
  In key Packages.TRAIT_KEYS ->
  packages_measure (Dict.set key e traits) + rank_pentry (Dict.get key traits)
  = packages_measure traits + rank_pentry (Some e).
Proof.
  intros key e traits [<-|[<-|[<-|[<-|[<-|[<-|[]]]]]]];
    unfold packages_measure; cbn [Packages.TRAIT_KEYS map list_sum fold_right];
    get_set_simpl; lia.
Qed.

Lemma resist_measure_set_languages : forall e traits,
  resist_measure (Dict.set "languages" e traits)
  + rank_pentry (Dict.get "languages" traits)
  = resist_measure traits + rank_pentry (Some e).
Proof.
  intros e traits. unfold resist_measure. get_set_simpl. lia.
Qed.

Lemma purge_traits_inv : forall traits n tr,
  purge_traits traits = Some (n, tr) ->
  exists lt lv,
    Dict.get "languages" traits = Some (JDict lt)
    /\ Dict.get "value" lt = Some (JList lv)
    /\ n = count_nulls lv /\ 0 < n
    /\ tr = Dict.set "languages"
              (JDict (Dict.set "value"
                        (JList (filter (fun x => negb (is_null x)) lv)) lt))
              traits.
Proof.
  intros traits n tr E. unfold purge_traits in E.
  destruct (Dict.get "languages" traits) as [[| | | | | |lt]|];
    try discriminate.
  destruct (Dict.get "value" lt) as [[| | | | |lv|]|] eqn:Ev;
    try discriminate.
  destruct (count_nulls lv =? 0) eqn:En; simpl in E; [discriminate|].
  inversion E; subst. apply Nat.eqb_neq in En.
  exists lt, lv. repeat split; auto. lia.
Qed.

Lemma purge_rank : forall lt lv,
  Dict.get "value" lt = Some (JList lv) -> 0 < count_nulls lv ->
  rank_trait rank_field
    (Dict.set "value" (JList (filter (fun x => negb (is_null x)) lv)) lt)
  < rank_trait rank_field lt.
Proof.
  intros lt lv Ev Hn. unfold rank_trait. get_set_simpl. rewrite Ev. simpl.
  pose proof (filter_length is_null lv) as H. unfold count_nulls in Hn. lia.
Qed.

Lemma purge_traits_stepped : forall (C : Type) (M : list (string * json) -> nat)
  (mk : nat -> C) c traits log,
  (forall e tr, M (Dict.set "languages" e tr)
                + rank_pentry (Dict.get "languages" tr)
                = M tr + rank_pentry (Some e)) ->
  stepped M (c, traits, log)
    match purge_traits traits with
    | Some (nulls, tr) => (true, tr, log ++ [mk nulls])
    | None => (c, traits, log)
    end.
Proof.
  intros C M mk c traits log HM.
  destruct (purge_traits traits) as [[n tr]|] eqn:E; [|left; reflexivity].
  apply purge_traits_inv in E.
  destruct E as (lt & lv & El & Ev & -> & Hn & ->).
  right. simpl. split; [reflexivity|]. split; [|eexists; split; eauto;
    discriminate].
  pose proof (purge_rank lt lv Ev Hn) as Hr.
  specialize (HM (JDict (Dict.set "value"
                           (JList (filter (fun x => negb (is_null x)) lv))
                           lt)) traits).
  rewrite El in HM. cbn [rank_pentry] in HM. lia.
Qed.

Lemma resist_rules_stepped : forall traits,
  stepped resist_measure (false, traits, []) (resist_rules traits).
Proof.
  intros traits. unfold resist_rules.
  pose proof (resist_keys_stepped ["eres"; "dr"; "dv"] (false, traits, [])
                (incl_refl _)) as H.
  destruct (fold_left Resist.ensure_step _ _) as [[c1 tr1] log1].
  eapply stepped_trans; [exact H|]. cbn [fst snd].
  apply (purge_traits_stepped _ resist_measure Resist.LangNulls c1 tr1 log1).
  intros e tr. apply resist_measure_set_languages.
Qed.

Lemma fix_custom_stepped : forall k st,
  In k Packages.TRAIT_KEYS ->
  stepped packages_measure st (Packages.fix_custom st k).
Proof.
  intros k [[c traits] log] Hk. unfold Packages.fix_custom.
  destruct (Dict.get k traits) as [[| | | | | |t]|] eqn:E;
    try (left; reflexivity).
  pose proof (packages_trait_steps k (c, t, log)) as H.
  destruct (Packages.fix_field k "customTotal" _) as [[c2 t2] log2].
  destruct H as [H|(F & L & e & N & A)]; simpl in *.
  - inversion H; subst. rewrite set_get_id by exact E. left. reflexivity.
  - right. simpl. split; [exact F|]. split; [|eauto].
    pose proof (packages_measure_set k (JDict t2) traits Hk) as Hm.
    rewrite E in Hm. cbn [rank_pentry] in Hm. lia.
Qed.

Lemma split_value_stepped : forall k st,
  In k ["di"; "dv"; "ci"] ->
  stepped packages_measure st (Packages.split_value st k).
Proof.
  intros k [[c traits] log] Hk. unfold Packages.split_value.
  destruct (Dict.get k traits) as [[| | | | | |t]|] eqn:E;
    try (left; reflexivity).
  destruct (Dict.get "value" t) as [[| | | |v| |]|] eqn:Ev;
    try (left; reflexivity).
  destruct (PyStr.has_sep v); [|left; reflexivity].
  right. simpl. split; [reflexivity|]. split; [|eexists; split; eauto;
    discriminate].
  assert (Hk' : In k Packages.TRAIT_KEYS).
  { unfold Packages.TRAIT_KEYS. simpl in *. intuition. }
  pose proof (packages_measure_set k
                (JDict (Dict.set "value" (strs (PyStr.str_to_list v)) t))
                traits Hk') as Hm.
  rewrite E in Hm. cbn [rank_pentry] in Hm.
  pose proof (str_to_list_length v) as Hl.
  unfold rank_trait in Hm. revert Hm. get_set_simpl.
  rewrite Ev, strs_length. simpl. lia.
Qed.

Lemma fold_stepped : forall (X C K : Type) (M : X -> nat)
  (f : bool * X * list C -> K -> bool * X * list C) (good : K -> Prop),
  (forall st k, good k -> stepped M st (f st k)) ->
  forall keys st, Forall good keys -> stepped M st (fold_left f keys st).
Proof.
  intros X C K M f good Hf. induction keys as [|k keys IH]; intros st Hg;
    simpl.
  - apply stepped_refl.
  - inversion Hg as [|? ? Hk Hks]; subst.
    eapply stepped_trans; [apply (Hf st k Hk)|].
    apply IH. exact Hks.
Qed.

Lemma packages_measure_set_languages : forall e tr,
  packages_measure (Dict.set "languages" e tr)
  + rank_pentry (Dict.get "languages" tr)
  = packages_measure tr + rank_pentry (Some e).
Proof.
  intros e tr. apply packages_measure_set. unfold Packages.TRAIT_KEYS.
  simpl. auto.
Qed.

Lemma packages_rules_stepped : forall traits,
  stepped packages_measure (false, traits, []) (packages_rules traits).
Proof.
  intros traits. unfold packages_rules.
  eapply stepped_trans;
    [apply (purge_traits_stepped _ packages_measure Packages.LangNulls
              false traits []); apply packages_measure_set_languages|].
  eapply stepped_trans.
  - apply fold_stepped with (good := fun k => In k Packages.TRAIT_KEYS).
    + intros st k Hk. apply fix_custom_stepped. exact Hk.
    + apply Forall_forall. intros x Hx. exact Hx.
  - apply fold_stepped with (good := fun k => In k ["di"; "dv"; "ci"]).
    + intros st k Hk. apply split_value_stepped. exact Hk.
    + apply Forall_forall. intros x Hx. exact Hx.
Qed.

(** ** The numeric pass seen through paths and measures *)

Lemma norm_dict_get : forall d d',
  Forall2 (fun kv kv' => fst kv = fst kv' /\ norm_value (snd kv) (snd kv'))
    d d' ->
  forall k, opt_rel norm_value (Dict.get k d) (Dict.get k d').
Proof.
  induction 1 as [|[k1 v1] [k2 v2] d d' [Hk Hv] Hd IH]; intros k; simpl in *.
  - exact I.
  - subst k2. destruct (String.eqb k k1); [exact Hv | apply IH].
Qed.

Lemma norm_value_kind : forall v v',
  norm_value v v' ->
  is_dict v' = is_dict v /\ is_list v' = is_list v /\ is_null v' = is_null v.
Proof.
  intros v v' N. destruct N as [s digits| s |v v' Hs N]; auto.
  destruct N; auto.
Qed.

Lemma norm_value_dict : forall t v',
  norm_value (JDict t) v' ->
  exists t', v' = JDict t'
    /\ Forall2 (fun kv kv' => fst kv = fst kv'
                              /\ norm_value (snd kv) (snd kv')) t t'.
Proof.
  intros t v' N. inversion N as [| |v0 v1 Hs N0]; subst.
  inversion N0; subst.
  - exists t. split; [reflexivity|]. discriminate.
  - eauto.
Qed.

Lemma norm_value_list : forall l v',
  norm_value (JList l) v' ->
  exists l', v' = JList l' /\ Forall2 norm_value l l'.
Proof.
  intros l v' N. inversion N as [| |v0 v1 Hs N0]; subst.
  inversion N0; subst.
  - discriminate.
  - eauto.
Qed.

Lemma norm_rank_field : forall a b,
  opt_rel norm_value a b -> rank_field b <= rank_field a.
Proof.
  intros [a|] [b|] R; simpl in R; try contradiction; [|lia].
  destruct R as [s digits| s |v v' Hs N]; simpl; try lia.
  destruct N as [v Hd Hl| l l' F | d d' F]; try lia.
  simpl. apply Forall2_length in F. lia.
Qed.

Lemma norm_rank_value : forall a b,
  opt_rel norm_value a b -> rank_value b <= rank_value a.
Proof.
  intros [a|] [b|] R; simpl in R; try contradiction; [|lia].
  destruct R as [s digits| s |v v' Hs N]; simpl; try lia.
  destruct N as [v Hd Hl| l l' F | d d' F]; try lia.
  simpl. apply Forall2_length in F. lia.
Qed.

Lemma norm_rank_trait : forall rv t t',
  (forall a b, opt_rel norm_value a b -> rv b <= rv a) ->
  Forall2 (fun kv kv' => fst kv = fst kv' /\ norm_value (snd kv) (snd kv'))
    t t' ->
  rank_trait rv t' <= rank_trait rv t.
Proof.
  intros rv t t' Hrv F. unfold rank_trait.
  pose proof (Hrv _ _ (norm_dict_get t t' F "value")).
  pose proof (norm_rank_field _ _ (norm_dict_get t t' F "custom")).
  pose proof (norm_rank_field _ _ (norm_dict_get t t' F "customTotal")).
  lia.
Qed.

Lemma norm_rank_entry : forall a b,
  opt_rel norm_value a b ->
  rank_entry b <= rank_entry a /\ rank_pentry b <= rank_pentry a.
Proof.
  intros [a|] [b|] R; simpl in R; try contradiction; [|simpl; lia].
  destruct a as [| | | | | |t].
  7: { destruct (norm_value_dict t b R) as (t' & -> & F). simpl. split.
       - apply norm_rank_trait; [apply norm_rank_value | exact F].
       - apply norm_rank_trait; [apply norm_rank_field | exact F]. }
  all: destruct (norm_value_kind _ _ R) as (Hd & _);
       destruct b; simpl in *; try discriminate; lia.
Qed.

Lemma norm_measures : forall tr tr',
  Forall2 (fun kv kv' => fst kv = fst kv' /\ norm_value (snd kv) (snd kv'))
    tr tr' ->
  resist_measure tr' <= resist_measure tr
  /\ packages_measure tr' <= packages_measure tr.
Proof.
  intros tr tr' F.
  assert (H : forall k,
             rank_entry (Dict.get k tr') <= rank_entry (Dict.get k tr)
             /\ rank_pentry (Dict.get k tr') <= rank_pentry (Dict.get k tr)).
  { intros k. apply norm_rank_entry. apply norm_dict_get. exact F. }
  unfold resist_measure, packages_measure.
  cbn [Packages.TRAIT_KEYS map list_sum fold_right].
  pose proof (H "eres"). pose proof (H "dr"). pose proof (H "dv").
  pose proof (H "di"). pose proof (H "ci"). pose proof (H "languages").
  pose proof (H "armorProf"). pose proof (H "weaponProf"). lia.
Qed.

Lemma norm_get_path : forall p d d',
  norm_value d d' -> opt_rel norm_value (get_path d p) (get_path d' p).
Proof.
  induction p as [|k p IH]; intros d d' N; simpl; [exact N|].
  destruct d as [| | | | | |t].
  7: { destruct (norm_value_dict t d' N) as (t' & -> & F).
       pose proof (norm_dict_get t t' F k) as Hk.
       destruct (Dict.get k t) as [v|], (Dict.get k t') as [v'|];
         simpl in Hk; try contradiction; [|exact I].
       apply IH. exact Hk. }
  all: destruct (norm_value_kind _ _ N) as (Hd & _);
       destruct d'; simpl in *; try discriminate; exact I.
Qed.

Lemma convert_norm_value : forall t c d',
  convert_plus_number_strings (JDict t) = Ok (c, d') ->
  norm_value (JDict t) d'.
Proof.
  intros t c d' E. apply convert_post in E. destruct E as (_ & N & _).
  apply norm_other; [reflexivity | exact N].
Qed.

(** ** The flag of the two normalizers *)

Lemma pass_after_no_rule : forall doc traits c d',
  get_path doc ["system"; "traits"] = Some (JDict traits) ->
  convert_plus_number_strings
    (put_path doc ["system"; "traits"] (JDict traits)) = Ok (c, d') ->
  (c = false -> d' = doc) /\ (c = true -> d' <> doc).
Proof.
  intros doc traits c d' E Ec. rewrite (put_get_id _ _ _ E) in Ec.
  apply convert_post in Ec. destruct Ec as (_ & _ & U & D). auto.
Qed.

Lemma pass_after_rule : forall doc traits tr c d',
  get_path doc ["system"; "traits"] = Some (JDict traits) ->
  convert_plus_number_strings
    (put_path doc ["system"; "traits"] (JDict tr)) = Ok (c, d') ->
  resist_measure tr < resist_measure traits
  \/ packages_measure tr < packages_measure traits ->
  d' <> doc.
Proof.
  intros doc traits tr c d' E Ec HM Eq. subst d'.
  pose proof (get_put_same _ _ (JDict tr) _ E) as Eg.
  destruct doc as [| | | | | |d]; try discriminate.
  assert (N : norm_value
                (put_path (JDict d) ["system"; "traits"] (JDict tr))
                (JDict d)).
  { simpl in *. destruct (Dict.get "system" d); [|discriminate].
    eapply convert_norm_value. exact Ec. }
  pose proof (norm_get_path ["system"; "traits"] _ _ N) as R.
  rewrite Eg, E in R. simpl in R.
  destruct (norm_value_dict _ _ R) as (t' & Et & F). inversion Et; subst t'.
  destruct (norm_measures _ _ F). lia.
Qed.

Lemma resist_repair_no_traits : forall doc,
  has_traits doc = false ->
  Resist.repair_actor_doc doc
  = '(c, d1) <- convert_plus_number_strings doc ;;
    if c then Ok (true, [Resist.GlobalPlus], d1) else Ok (false, [], d1).
Proof.
  intros doc H. unfold Resist.repair_actor_doc, has_traits in *.
  destruct (get_path doc ["system"; "traits"]) as [[| | | | | |t]|];
    try reflexivity. discriminate.
Qed.

Lemma packages_repair_no_traits : forall doc,
  has_traits doc = false ->
  Packages.repair_doc doc
  = '(c, log, d1) <- Packages.convert_plus_number_strings doc ;;
    Ok (c, log, d1).
Proof.
  intros doc H. unfold Packages.repair_doc, has_traits in *.
  destruct (get_path doc ["system"; "traits"]) as [[| | | | | |t]|];
    try reflexivity. discriminate.
Qed.

Lemma has_traits_inv : forall doc,
  has_traits doc = true ->
  exists traits, get_path doc ["system"; "traits"] = Some (JDict traits).
Proof.
  intros doc H. unfold has_traits in H.
  destruct (get_path doc ["system"; "traits"]) as [[| | | | | |t]|];
    try discriminate. eauto.
Qed.

Lemma resist_flag : forall doc c log doc',
  Resist.repair_actor_doc doc = Ok (c, log, doc') ->
  (c = false -> doc' = doc /\ log = [])
  /\ (c = true -> doc' <> doc /\ log <> []).
Proof.
  intros doc c log doc' E. destruct (has_traits doc) eqn:Ht.
  - destruct (has_traits_inv doc Ht) as [traits Et].
    rewrite (resist_repair_unfold doc traits Et) in E.
    pose proof (resist_rules_stepped traits) as Hs.
    destruct (resist_rules traits) as [[c1 tr] log1].
    apply stepped_flag in Hs. destruct Hs as [Hf Ht'].
    inv_bind E. destruct a as [c' d'].
    destruct c'; inversion E; subst; clear E.
    + split; [discriminate|]. intros _. split.
      * destruct c1.
        -- destruct (Ht' eq_refl) as [L _].
           eapply pass_after_rule; eauto.
        -- destruct (Hf eq_refl) as [-> _].
           apply (pass_after_no_rule _ _ _ _ Et E0). reflexivity.
      * destruct log1; discriminate.
    + split; intros ->.
      * destruct (Hf eq_refl) as [-> ->]. split; [|reflexivity].
        apply (pass_after_no_rule _ _ _ _ Et E0). reflexivity.
      * destruct (Ht' eq_refl) as [L N]. split; [|exact N].
        eapply pass_after_rule; eauto.
  - rewrite (resist_repair_no_traits doc Ht) in E.
    inv_bind E. destruct a as [c' d'].
    apply convert_post in E0. destruct E0 as (_ & _ & U & D).
    destruct c'; inversion E; subst; split; try discriminate; auto.
    intros _. split; [auto | discriminate].
Qed.

Lemma packages_convert_log : forall v c log v',
  Packages.convert_plus_number_strings v = Ok (c, log, v') ->
  (c = false -> log = []) /\ (c = true -> log <> []).
Proof.
  intros v c log v' E. pose proof (packages_convert_flag v) as F.
  rewrite E in F. simpl in F. subst c.
  destruct log; split; try discriminate; auto.
Qed.

Lemma packages_flag : forall doc c log doc',
  Packages.repair_doc doc = Ok (c, log, doc') ->
  (c = false -> doc' = doc /\ log = [])
  /\ (c = true -> doc' <> doc /\ log <> []).
Proof.
  intros doc c log doc' E. destruct (has_traits doc) eqn:Ht.
  - destruct (has_traits_inv doc Ht) as [traits Et].
    rewrite (packages_repair_unfold doc traits Et) in E.
    pose proof (packages_rules_stepped traits) as Hs.
    destruct (packages_rules traits) as [[c1 tr] log1].
    apply stepped_flag in Hs. destruct Hs as [Hf Ht'].
    inv_bind E. destruct a as [[c' log'] d'].
    inversion E; subst; clear E.
    destruct (packages_convert_log _ _ _ _ E0) as [Le Ln].
    apply packages_convert_ok in E0.
    destruct c1; simpl.
    + split; [discriminate|]. intros _.
      destruct (Ht' eq_refl) as [L N]. split.
      * eapply pass_after_rule; eauto.
      * destruct log1; [congruence | discriminate].
    + destruct (Hf eq_refl) as [-> ->]. simpl.
      destruct (pass_after_no_rule _ _ _ _ Et E0) as [U D].
      split; intros ->; auto.
  - rewrite (packages_repair_no_traits doc Ht) in E.
    inv_bind E. destruct a as [[c' log'] d']. inversion E; subst; clear E.
    destruct (packages_convert_log _ _ _ _ E0) as [Le Ln].
    apply packages_convert_ok in E0.
    apply convert_post in E0. destruct E0 as (_ & _ & U & D).
    split; intros ->; auto.
Qed.

(** ** Replacement tags differ from the tag they replace *)

Lemma rstrip_append_length : forall a c b,
  PyStr.is_space c = false ->
  String.length a + 1 <= String.length (PyStr.rstrip (a ++ String c b)).
Proof.
  induction a as [|x a IH]; intros c b Hc; simpl.
  - rewrite Hc. simpl. lia.
  - specialize (IH c b Hc).
    destruct (PyStr.rstrip (a ++ String c b)) eqn:E; simpl in *; [lia|].
    rewrite andb_false_r. simpl. lia.
Qed.

Lemma rstrip_length : forall s,
  String.length (PyStr.rstrip s) <= String.length s.
Proof.
  induction s as [|c r IH]; simpl; [lia|].
  destruct (PyStr.is_space c && PyStr.is_empty (PyStr.rstrip r)); simpl; lia.
Qed.

(** A non-blank string is not its own stripped form followed by a suffix
    that starts with a character other than white space. *)
Lemma strip_append_neq : forall t c rest,
  PyStr.nonblank t = true -> PyStr.is_space c = false ->
  (PyStr.strip t ++ String c rest)%string <> t.
Proof.
  intros t c rest Hn Hc Eq.
  assert (Hs : PyStr.strip (PyStr.strip t ++ String c rest) = PyStr.strip t)
    by (rewrite Eq; reflexivity).
  unfold PyStr.nonblank in Hn.
  destruct (strip_head t) as [E|(c0 & r0 & E & Ec0)].
  - rewrite E in Hn. discriminate.
  - pose proof (rstrip_append_length (PyStr.strip t) c rest Hc) as Hl.
    unfold PyStr.strip at 1 in Hs. rewrite E in Hs, Hl.
    cbn [append PyStr.lstrip] in Hs. rewrite Ec0 in Hs.
    cbn [append] in Hl. rewrite Hs in Hl. simpl in Hl. lia.
Qed.

Lemma append_assoc : forall a b c : string,
  ((a ++ b) ++ c = a ++ (b ++ c))%string.
Proof.
  induction a as [|x a IH]; intros b c; simpl; [reflexivity|].
  rewrite IH. reflexivity.
Qed.

Lemma unique_tag_loop_shape : forall fuel i cand seen,
  exists n, Eidolon.unique_tag_loop fuel i cand seen = Eidolon.numbered cand n.
Proof.
  induction fuel as [|fuel IH]; intros i cand seen; simpl; [eauto|].
  destruct (Eidolon.mem (Eidolon.numbered cand i) seen); eauto.
Qed.

(** The replacement is the base followed by the suffix and maybe a counter. *)
Lemma unique_tag_shape : forall base c suffix seen,
  exists rest,
    Eidolon.unique_tag base (String c suffix) seen
    = (base ++ String c rest)%string.
Proof.
  intros base c suffix seen. unfold Eidolon.unique_tag.
  destruct (negb (Eidolon.mem (base ++ String c suffix) seen)); [eauto|].
  destruct (unique_tag_loop_shape (S (List.length seen)) 2
              (base ++ String c suffix)%string seen) as [n ->].
  unfold Eidolon.numbered. rewrite append_assoc. simpl. eauto.
Qed.

Lemma unique_tag_neq : forall t suffix seen,
  PyStr.nonblank t = true ->
  Eidolon.unique_tag (PyStr.strip t) (String "_" suffix) seen <> t.
Proof.
  intros t suffix seen Hn.
  destruct (unique_tag_shape (PyStr.strip t) "_" suffix seen) as [rest ->].
  apply strip_append_neq; [exact Hn | reflexivity].
Qed.

(** ** The loops of the deduplicator *)

Lemma loop_kept_or_renamed : forall (A B : Type) (obs : A -> B)
  (body : Eidolon.state -> A -> Eidolon.state * A),
  (forall st x,
     kept_or_renamed obs st (fst (body st x)) x (snd (body st x))) ->
  forall l st,
    kept_or_renamed (map obs) st (fst (Eidolon.loop body st l)) l
      (snd (Eidolon.loop body st l)).
Proof.
  intros A B obs body Hb. induction l as [|x l IH]; intros st; simpl.
  - left. auto.
  - specialize (Hb st x). destruct (body st x) as [st1 x'].
    specialize (IH st1). destruct (Eidolon.loop body st1 l) as [st2 l'].
    simpl in *.
    destruct Hb as [(C1 & L1 & ->)|(C1 & (e1 & N1 & L1) & O1)];
      destruct IH as [(C2 & L2 & ->)|(C2 & (e2 & N2 & L2) & O2)].
    + left. repeat split; congruence.
    + right. split; [exact C2|]. split.
      * exists e2. split; [exact N2 | congruence].
      * simpl. congruence.
    + right. split; [congruence|]. split.
      * exists e1. split; [exact N1 | congruence].
      * simpl. congruence.
    + right. split; [exact C2|]. split.
      * exists (e1 ++ e2). split.
        -- destruct e1; [congruence | discriminate].
        -- rewrite L2, L1, app_assoc. reflexivity.
      * simpl. congruence.
Qed.

Lemma loop_obs_preserved : forall (S A B : Type) (obs : A -> B)
  (body : S -> A -> S * A),
  (forall st x, obs (snd (body st x)) = obs x) ->
  forall l st, map obs (snd (Eidolon.loop body st l)) = map obs l.
Proof.
  intros S A B obs body Hb. induction l as [|x l IH]; intros st; simpl.
  - reflexivity.
  - specialize (Hb st x). destruct (body st x) as [st1 x'].
    specialize (IH st1). destruct (Eidolon.loop body st1 l) as [st2 l'].
    simpl in *. congruence.
Qed.

Lemma read_tag_inv : forall d tag,
  Eidolon.read_tag d = Some tag ->
  exists t, Dict.get "tag" d = Some (JStr t)
            /\ PyStr.nonblank t = true /\ tag = PyStr.strip t.
Proof.
  intros d tag E. unfold Eidolon.read_tag in E.
  destruct (Dict.get "tag" d) as [[| | | |t| |]|]; try discriminate.
  destruct (PyStr.nonblank t) eqn:Hn; [|discriminate].
  inversion E. eauto.
Qed.

Lemma pass1_item_outcome : forall st it,
  kept_or_renamed raw_tag st (fst (Eidolon.pass1_item st it)) it
    (snd (Eidolon.pass1_item st it)).
Proof.
  intros st it. unfold Eidolon.pass1_item.
  destruct it as [| | | | | |item]; try (left; auto; fail).
  destruct (Eidolon.get_item_tag item) as [tag|] eqn:Et;
    [|left; auto].
  destruct (negb (Eidolon.mem tag (Eidolon.seen st))); [left; auto|].
  right. simpl. split; [reflexivity|]. split;
    [eexists; split; eauto; discriminate|].
  unfold Eidolon.get_item_tag in Et.
  destruct (Dict.get "system" item) as [[| | | | | |sysd]|] eqn:Es;
    try discriminate.
  destruct (read_tag_inv _ _ Et) as (t & Eg & Hn & ->).
  unfold raw_tag, Eidolon.set_item_tag. simpl. rewrite Es.
  get_set_simpl. rewrite Eg. intros Eq. inversion Eq as [Eq'].
  revert Eq'. apply unique_tag_neq. exact Hn.
Qed.

Lemma pass2_action_outcome : forall name st a,
  kept_or_renamed raw_action_tag st
    (fst (Eidolon.pass2_action name st a)) a
    (snd (Eidolon.pass2_action name st a)).
Proof.
  intros name st a. unfold Eidolon.pass2_action.
  destruct a as [| | | | | |act]; try (left; auto; fail).
  destruct (Eidolon.get_action_tag act) as [tag|] eqn:Et; [|left; auto].
  destruct (Eidolon.mem tag (Eidolon.seen st)); [|left; auto].
  right. simpl. split; [reflexivity|]. split;
    [eexists; split; eauto; discriminate|].
  destruct (read_tag_inv _ _ Et) as (t & Eg & Hn & ->).
  unfold raw_action_tag, Eidolon.set_action_tag. simpl.
  get_set_simpl. rewrite Eg. intros Eq. inversion Eq as [Eq'].
  revert Eq'. apply unique_tag_neq. exact Hn.
Qed.

Lemma map_neq : forall (A B : Type) (f : A -> B) l l',
  map f l' <> map f l -> l' <> l.
Proof. intros A B f l l' N E. apply N. rewrite E. reflexivity. Qed.

Lemma pass2_item_outcome : forall st it,
  kept_or_renamed raw_actions st (fst (Eidolon.pass2_item st it)) it
    (snd (Eidolon.pass2_item st it)).
Proof.
  intros st it. unfold Eidolon.pass2_item.
  destruct it as [| | | | | |item]; try (left; auto; fail).
  destruct (Dict.get "system" item) as [[| | | | | |sysd]|] eqn:Es;
    try (left; auto; fail).
  destruct (Dict.get "actions" sysd) as [[| | | | |acts|]|] eqn:Ea;
    try (left; auto; fail).
  pose proof (loop_kept_or_renamed _ _ raw_action_tag
                (Eidolon.pass2_action (Dict.get "name" item))
                (pass2_action_outcome _) acts st) as H.
  destruct (Eidolon.loop _ st acts) as [st' acts']. simpl in *.
  destruct H as [(C & L & ->)|(C & L & O)].
  - left. repeat split; auto.
    rewrite (set_get_id "actions" _ _ Ea), (set_get_id "system" _ _ Es).
    reflexivity.
  - right. repeat split; auto.
    unfold raw_actions. simpl. rewrite Es. get_set_simpl. rewrite Ea.
    intros Eq. inversion Eq. subst. apply O. reflexivity.
Qed.

Lemma pass2_item_raw_tag : forall st it,
  raw_tag (snd (Eidolon.pass2_item st it)) = raw_tag it.
Proof.
  intros st it. unfold Eidolon.pass2_item.
  destruct it as [| | | | | |item]; try reflexivity.
  destruct (Dict.get "system" item) as [[| | | | | |sysd]|] eqn:Es;
    try reflexivity.
  destruct (Dict.get "actions" sysd) as [[| | | | |acts|]|] eqn:Ea;
    try reflexivity.
  destruct (Eidolon.loop _ st acts) as [st' acts']. simpl.
  unfold raw_tag. simpl. rewrite Es. get_set_simpl. reflexivity.
Qed.

Lemma filter_keys_neq : forall (p : string -> bool) (r : list (string * json)),
  filter p (Dict.keys r) <> [] ->
  filter (fun kv => negb (p (fst kv))) r <> r.
Proof.
  intros p. induction r as [|[k v] r IH]; simpl; [congruence|].
  destruct (p k) eqn:E; simpl; intros N Eq.
  - pose proof (filter_length_le (fun kv => negb (p (fst kv))) r) as Hl.
    rewrite Eq in Hl. simpl in Hl. lia.
  - inversion Eq as [Eq']. apply IH; assumption.
Qed.

(** The item loops together: nothing happened, or the items differ and
    the flag and the log tell so. *)
Lemma item_passes_outcome : forall items st1 items1 st2 items2,
  Eidolon.loop Eidolon.pass1_item (Eidolon.mkState [] [] false []) items
  = (st1, items1) ->
  Eidolon.loop Eidolon.pass2_item st1 items1 = (st2, items2) ->
  (Eidolon.changed st2 = false /\ Eidolon.changes st2 = []
   /\ items2 = items)
  \/ (Eidolon.changed st2 = true /\ Eidolon.changes st2 <> []
      /\ items2 <> items).
Proof.
  intros items st1 items1 st2 items2 E1 E2.
  pose proof (loop_kept_or_renamed _ _ raw_tag Eidolon.pass1_item
                pass1_item_outcome items (Eidolon.mkState [] [] false []))
    as H1.
  pose proof (loop_kept_or_renamed _ _ raw_actions Eidolon.pass2_item
                pass2_item_outcome items1 st1) as H2.
  pose proof (loop_obs_preserved _ _ _ raw_tag Eidolon.pass2_item
                pass2_item_raw_tag items1 st1) as H3.
  rewrite E1 in H1. rewrite E2 in H2, H3. simpl in *.
  destruct H1 as [(C1 & L1 & ->)|(C1 & (e1 & N1 & L1) & O1)];
    destruct H2 as [(C2 & L2 & ->)|(C2 & (e2 & N2 & L2) & O2)];
    simpl in *.
  - left. repeat split; congruence.
  - right. split; [exact C2|]. split.
    + rewrite L2, L1. simpl. exact N2.
    + eapply map_neq. exact O2.
  - right. split; [congruence|]. split.
    + rewrite L2, L1. simpl. exact N1.
    + eapply map_neq. exact O1.
  - right. split; [exact C2|]. split.
    + rewrite L2, L1. simpl. destruct e1; [congruence | discriminate].
    + apply (map_neq _ _ raw_tag). rewrite H3. exact O1.
Qed.

Lemma eidolon_flag : forall actor c log doc',
  Eidolon.fix_actor_identifiers_and_resources actor = (c, log, doc') ->
  (c = false -> doc' = JDict actor /\ log = [])
  /\ (c = true -> doc' <> JDict actor /\ log <> []).
Proof.
  intros actor c log doc' E.
  unfold Eidolon.fix_actor_identifiers_and_resources in E.
  destruct (Dict.get "items" actor) as [[| | | | |items|]|] eqn:Ei;
    try (inversion E; subst; split; [auto | discriminate]).
  destruct (Eidolon.loop Eidolon.pass1_item _ items) as [st1 items1] eqn:E1.
  destruct (Eidolon.loop Eidolon.pass2_item st1 items1) as [st2 items2]
    eqn:E2.
  pose proof (item_passes_outcome _ _ _ _ _ E1 E2) as K.
  assert (Hitems : forall d, Dict.get "items" d = Some (JList items2) ->
                             items2 <> items -> JDict d <> JDict actor).
  { intros d Ed N Eq. inversion Eq; subst. congruence. }
  assert (Kdoc :
    (Eidolon.changed st2 = false -> Eidolon.changes st2 = []
       /\ Dict.set "items" (JList items2) actor = actor)
    /\ (Eidolon.changed st2 = true -> Eidolon.changes st2 <> []
        /\ JDict (Dict.set "items" (JList items2) actor) <> JDict actor)).
  { destruct K as [(C & L & ->)|(C & L & N)]; split; intros C';
      try congruence.
    - split; [exact L|]. apply set_get_id. exact Ei.
    - split; [exact L|]. apply Hitems; [apply get_set_same | exact N]. }
  destruct Kdoc as [Kf Kt].
  destruct (Eidolon.get_resources_dict (Dict.set "items" (JList items2) actor))
    as [r|] eqn:Er.
  - unfold Eidolon.pass3 in E.
    destruct (filter _ (Dict.keys r)) as [|k ks] eqn:Ef.
    + inversion E; subst. split; intros C.
      * destruct (Kf C) as [L ->]. auto.
      * destruct (Kt C). auto.
    + inversion E; subst. clear E. split; [discriminate|]. intros _. split.
      * intros Eq.
        assert (Hr : resources_of (JDict actor)
                     = Some (fold_left (fun r' k0 => Dict.del k0 r')
                               (k :: ks) r)).
        { rewrite <- Eq. exact (resources_put _ r _ Er). }
        unfold resources_of in Hr.
        rewrite resources_set_items in Er. rewrite Er in Hr.
        rewrite <- Ef, fold_del_filter in Hr.
        assert (Hr' : filter
                        (fun kv => negb (Eidolon.mem (fst kv)
                                           (Eidolon.item_tags_in_actor st2)))
                        r = r) by congruence.
        revert Hr'.
        apply (filter_keys_neq
                 (fun k0 => Eidolon.mem k0 (Eidolon.item_tags_in_actor st2))
                 r).
        rewrite Ef. discriminate.
      * destruct (Eidolon.changes st2); discriminate.
  - inversion E; subst. split; intros C.
    + destruct (Kf C) as [L ->]. auto.
    + destruct (Kt C). auto.
Qed.

Lemma flag_iff : forall (A : Type) (c : bool) (x x' : A) (P : Prop),
  (c = false -> x' = x /\ P) -> (c = true -> x' <> x /\ ~ P) ->
  (c = true <-> x' <> x) /\ (c = false <-> P).
Proof.
  intros A c x x' P Hf Ht. destruct c.
  - destruct (Ht eq_refl) as [N NP].
    repeat split; auto; try discriminate; intros; contradiction.
  - destruct (Hf eq_refl) as [E HP].
    repeat split; auto; try discriminate; intros; contradiction.
Qed.

(** C10 (accuracy of the mutated flag): each of the three per-document
    repair functions, when it returns, reports [changed = True] exactly when
    the document it leaves differs from the one it was given, and its change
    log is empty exactly when it reports [changed = False]. *)
Theorem mutated_flag_is_accurate :
  (forall doc c log doc',
     Resist.repair_actor_doc doc = Ok (c, log, doc') ->
     (c = true <-> doc' <> doc) /\ (c = false <-> log = []))
  /\ (forall doc c log doc',
        Packages.repair_doc doc = Ok (c, log, doc') ->
        (c = true <-> doc' <> doc) /\ (c = false <-> log = []))
  /\ (forall actor c log doc',
        Eidolon.fix_actor_identifiers_and_resources actor = (c, log, doc') ->
        (c = true <-> doc' <> JDict actor) /\ (c = false <-> log = [])).
Proof.
  split; [|split].
  - intros doc c log doc' E. apply resist_flag in E.
    destruct E as [Hf Ht]. apply flag_iff; assumption.
  - intros doc c log doc' E. apply packages_flag in E.
    destruct E as [Hf Ht]. apply flag_iff; assumption.
  - intros actor c log doc' E. apply eidolon_flag in E.
    destruct E as [Hf Ht]. apply flag_iff; assumption.
Qed.

Lemma mutated_flag_is_accurate_witness :
  (true = true <-> JDict [("abilityMod", JInt 2)] <> doc_ability)
  /\ (true = true <-> dedup actor_bite <> JDict actor_bite).
Proof.
  destruct mutated_flag_is_accurate as (H1 & H2 & H3).
  split.
  - apply (H1 doc_ability true [Resist.GlobalPlus]). reflexivity.
  - apply (H3 actor_bite true
             [Eidolon.ItemRenamed None "abc123" "bite" "bite_abc123";
              Eidolon.ResourceRemoved "bite"]). reflexivity.
Defined.

(** ** Shapes the trait rules establish *)

Lemma strs_tag_list : forall s, tag_list (strs (PyStr.str_to_list s)) = true.
Proof. intros s. apply str_to_list_nonblank. Qed.

Lemma cleaned_tag_list : forall l,
  json_eqb (JList (filter keep_entry l)) (JList l) = true ->
  forallb keep_entry l = true.
Proof.
  intros l E. apply json_eqb_eq in E. inversion E as [E'].
  rewrite <- E' at 1. rewrite E'. rewrite <- E'. apply forallb_filter_same.
Qed.

Lemma clean_field_shape : forall (C : Type) field on_str (on_clean : C) st,
  field_shape tag_list
    (Dict.get field (snd (fst (clean_field field on_str on_clean st)))) = true
  /\ forall g, g <> field ->
       Dict.get g (snd (fst (clean_field field on_str on_clean st)))
       = Dict.get g (snd (fst st)).
Proof.
  intros C field on_str on_clean [[c t] log]. unfold clean_field.
  destruct (Dict.get field t) as [[| | | |s|l|]|] eqn:E;
    try (cbn [fst snd]; rewrite E; split; [reflexivity | auto]; fail).
  - cbn [fst snd]. rewrite get_set_same. split; [apply strs_tag_list|].
    intros g N. apply get_set_other. exact N.
  - destruct (json_eqb (JList (filter keep_entry l)) (JList l)) eqn:Eq;
      cbn [negb fst snd].
    + rewrite E. split; [apply cleaned_tag_list; exact Eq | auto].
    + rewrite get_set_same. split; [apply forallb_filter_same|].
      intros g N. apply get_set_other. exact N.
Qed.

Lemma fix_value_shape : forall key st,
  (exists v, Dict.get "value" (snd (fst (Resist.fix_value key st))) = Some v
             /\ tag_list v = true)
  /\ forall g, g <> "value" ->
       Dict.get g (snd (fst (Resist.fix_value key st)))
       = Dict.get g (snd (fst st)).
Proof.
  intros key [[c t] log]. unfold Resist.fix_value.
  destruct (Dict.get "value" t) as [[| | | |s|l|]|] eqn:E;
    try (cbn [fst snd]; rewrite get_set_same;
         split; [eexists; split; eauto|];
         intros g N; apply get_set_other; exact N).
  - cbn [fst snd]. rewrite get_set_same.
    split; [eexists; split; eauto; apply strs_tag_list|].
    intros g N. apply get_set_other. exact N.
  - destruct (json_eqb (JList (filter keep_entry l)) (JList l)) eqn:Eq;
      cbn [negb fst snd].
    + rewrite E. split; [|auto]. eexists. split; eauto.
      apply cleaned_tag_list. exact Eq.
    + rewrite get_set_same. split; [|intros g N; apply get_set_other; exact N].
      eexists. split; eauto. apply forallb_filter_same.
Qed.

(** After its three steps a trait mapping is in shape. *)
Lemma resist_trait_shape : forall key st,
  entry_shape tag_list
    (Some (JDict (snd (fst (Resist.fix_field key "customTotal"
                              (Resist.fix_field key "custom"
                                 (Resist.fix_value key st))))))) = true.
Proof.
  intros key st. unfold Resist.fix_field.
  destruct (fix_value_shape key st) as [(v & Ev & Hv) _].
  set (st1 := Resist.fix_value key st) in *.
  destruct (clean_field_shape _ "custom" (fun _ => Resist.FieldStr key "custom")
              (Resist.FieldCleaned key "custom") st1) as [H2 F2].
  set (st2 := clean_field "custom" _ _ st1) in *.
  destruct (clean_field_shape _ "customTotal"
              (fun _ => Resist.FieldStr key "customTotal")
              (Resist.FieldCleaned key "customTotal") st2) as [H3 F3].
  set (st3 := clean_field "customTotal" _ _ st2) in *.
  simpl. rewrite H3.
  rewrite (F3 "custom") by discriminate. rewrite H2.
  rewrite (F3 "value"), (F2 "value") by discriminate.
  rewrite Ev, Hv. reflexivity.
Qed.

Lemma ensure_trait_arrays_shape : forall traits key log,
  entry_shape tag_list
    (Dict.get key (snd (fst (Resist.ensure_trait_arrays traits key log))))
  = true
  /\ forall k, k <> key ->
       Dict.get k (snd (fst (Resist.ensure_trait_arrays traits key log)))
       = Dict.get k traits.
Proof.
  intros traits key log. unfold Resist.ensure_trait_arrays.
  destruct (match Dict.get key traits with
            | Some (JDict _) => (false, traits, log)
            | _ => (true, Dict.set key (JDict []) traits,
                    log ++ [Resist.CreatedDict key])
            end) as [[c1 traits1] log1] eqn:E1.
  assert (Hf : forall k, k <> key -> Dict.get k traits1 = Dict.get k traits).
  { intros k N.
    destruct (Dict.get key traits) as [[| | | | | |t]|]; inversion E1; subst;
      auto; apply get_set_other; exact N. }
  pose proof (resist_trait_shape key
                (c1, match Dict.get key traits1 with
                     | Some (JDict t) => t
                     | _ => []
                     end, log1)) as Hs.
  destruct (Resist.fix_field key "customTotal" _) as [[c2 t2] log2].
  simpl in *. rewrite get_set_same. split; [exact Hs|].
  intros k N. rewrite get_set_other by exact N. apply Hf. exact N.
Qed.

Lemma ensure_step_traits : forall st key,
  snd (fst (Resist.ensure_step st key))
  = snd (fst (Resist.ensure_trait_arrays (snd (fst st)) key (snd st))).
Proof.
  intros [[c tr] log] key. unfold Resist.ensure_step. simpl.
  destruct (Resist.ensure_trait_arrays tr key log) as [[c' tr'] log'].
  reflexivity.
Qed.

Lemma resist_fold_shape : forall keys st,
  (forall k, In k keys ->
     entry_shape tag_list
       (Dict.get k (snd (fst (fold_left Resist.ensure_step keys st)))) = true)
  /\ (forall k, ~ In k keys ->
        Dict.get k (snd (fst (fold_left Resist.ensure_step keys st)))
        = Dict.get k (snd (fst st))).
Proof.
  induction keys as [|key keys IH]; intros st; simpl.
  - split; [contradiction | reflexivity].
  - destruct (IH (Resist.ensure_step st key)) as [Hs Hf].
    destruct (ensure_trait_arrays_shape (snd (fst st)) key (snd st))
      as [Hk Hfk].
    rewrite <- ensure_step_traits in Hk, Hfk.
    split.
    + intros k [<-|Hin]; [|apply Hs; exact Hin].
      destruct (in_dec string_dec key keys) as [Hin|Hnin];
        [apply Hs; exact Hin|].
      rewrite (Hf key Hnin). exact Hk.
    + intros k Hn. rewrite Hf by (intros H; apply Hn; right; exact H).
      apply Hfk. intros ->. apply Hn. left. reflexivity.
Qed.

Lemma purge_traits_frame : forall traits n tr k,
  purge_traits traits = Some (n, tr) -> k <> "languages" ->
  Dict.get k tr = Dict.get k traits.
Proof.
  intros traits n tr k E N. apply purge_traits_inv in E.
  destruct E as (lt & lv & _ & _ & _ & _ & ->).
  apply get_set_other. exact N.
Qed.

Lemma resist_rules_shape : forall traits key,
  In key ["eres"; "dr"; "dv"] ->
  entry_shape tag_list (Dict.get key (snd (fst (resist_rules traits)))) = true.
Proof.
  intros traits key Hk. unfold resist_rules.
  destruct (resist_fold_shape ["eres"; "dr"; "dv"] (false, traits, []))
    as [Hs _].
  specialize (Hs key Hk).
  destruct (purge_traits _) as [[n tr]|] eqn:Ep; [|exact Hs].
  cbn [fst snd]. rewrite (purge_traits_frame _ _ _ key Ep); [exact Hs|].
  destruct Hk as [<-|[<-|[<-|[]]]]; discriminate.
Qed.

(** ** Shapes after the numeric pass *)

Lemma norm_tag_to_repaired : forall l l',
  Forall2 norm_value l l' ->
  forallb keep_entry l = true -> forallb entry_or_int l' = true.
Proof.
  induction 1 as [|v v' l l' Hv Hl IH]; simpl; intros E; [reflexivity|].
  apply andb_prop in E. destruct E as [E1 E2]. rewrite (IH E2), andb_true_r.
  destruct Hv as [s digits| s Hp |v v' Hs N].
  - reflexivity.
  - simpl in *. rewrite E1, Hp. reflexivity.
  - destruct v; simpl in *; discriminate.
Qed.

Lemma norm_field_shape : forall a b,
  opt_rel norm_value a b ->
  field_shape tag_list a = true -> field_shape repaired_list b = true.
Proof.
  intros [a|] [b|] R; simpl in R; try contradiction; [|reflexivity].
  destruct a as [| | | |s|l|t]; simpl; intros E; try discriminate.
  5: { destruct (norm_value_list _ _ R) as (l' & -> & F). simpl.
       eapply norm_tag_to_repaired; eauto. }
  all: destruct (norm_value_kind _ _ R) as (Hd & Hl & Hn);
       inversion R as [| |v0 v1 Hs N0]; subst;
       pose proof (normalized_is_str _ _ N0) as Hs';
       destruct b; simpl in *; try discriminate; reflexivity.
Qed.

Lemma norm_tag_list : forall v v',
  norm_value v v' -> tag_list v = true -> repaired_list v' = true.
Proof.
  intros v v' R E. destruct v; simpl in E; try discriminate.
  destruct (norm_value_list _ _ R) as (l' & -> & F). simpl.
  eapply norm_tag_to_repaired; eauto.
Qed.

Lemma norm_entry_shape : forall e e',
  opt_rel norm_value e e' ->
  (entry_shape tag_list e = true -> entry_shape repaired_list e' = true)
  /\ (custom_shape tag_list e = true -> custom_shape repaired_list e' = true).
Proof.
  intros [e|] [e'|] R; simpl in R; try contradiction;
    [|split; [discriminate | reflexivity]].
  destruct e as [| | | | | |t].
  7: { destruct (norm_value_dict t e' R) as (t' & -> & F).
       pose proof (norm_dict_get t t' F "value") as Hv.
       pose proof (norm_field_shape _ _ (norm_dict_get t t' F "custom")) as Hc.
       pose proof (norm_field_shape _ _ (norm_dict_get t t' F "customTotal"))
         as Ht.
       simpl. split; intros E.
       - apply andb_prop in E. destruct E as [E E3].
         apply andb_prop in E. destruct E as [E1 E2].
         rewrite (Hc E2), (Ht E3), !andb_true_r.
         destruct (Dict.get "value" t) as [v|], (Dict.get "value" t') as [v'|];
           simpl in Hv; try contradiction; try discriminate.
         eapply norm_tag_list; eauto.
       - apply andb_prop in E. destruct E as [E2 E3].
         rewrite (Hc E2), (Ht E3). reflexivity. }
  all: destruct (norm_value_kind _ _ R) as (Hd & _);
       split; [discriminate|]; intros _;
       destruct e'; simpl in *; try discriminate; reflexivity.
Qed.

Lemma get_path_app : forall p q d,
  get_path d (p ++ q)
  = match get_path d p with
    | Some v => get_path v q
    | None => None
    end.
Proof.
  induction p as [|k p IH]; intros q d; simpl; [reflexivity|].
  destruct d; try reflexivity.
  destruct (Dict.get k kvs); [apply IH | reflexivity].
Qed.

Lemma trait_entry_get : forall doc traits key,
  get_path doc ["system"; "traits"] = Some (JDict traits) ->
  trait_entry doc key = Dict.get key traits.
Proof.
  intros doc traits key E. unfold trait_entry.
  change ["system"; "traits"; key] with (["system"; "traits"] ++ [key]).
  rewrite get_path_app, E. simpl. destruct (Dict.get key traits); reflexivity.
Qed.

(** A non-empty path reads related values before and after the pass. *)
Lemma convert_get_path : forall d c d' k p,
  convert_plus_number_strings d = Ok (c, d') ->
  opt_rel norm_value (get_path d (k :: p)) (get_path d' (k :: p)).
Proof.
  intros d c d' k p E. destruct d as [| | | | | |t];
    try (simpl in E; inversion E; subst; exact I).
  - apply convert_post in E. destruct E as (_ & N & _).
    inversion N; subst; exact I.
  - apply norm_get_path. eapply convert_norm_value. exact E.
Qed.


(** ** Shapes the rules of repair_pf1_packages.py establish *)

Lemma fold_establishes : forall (C : Type)
  (f : bool * list (string * json) * list C -> string
       -> bool * list (string * json) * list C)
  (good : option json -> bool),
  (forall st k,
     good (Dict.get k (snd (fst (f st k)))) = true
     /\ forall k', k' <> k ->
          Dict.get k' (snd (fst (f st k))) = Dict.get k' (snd (fst st))) ->
  forall keys st,
    (forall k, In k keys ->
       good (Dict.get k (snd (fst (fold_left f keys st)))) = true)
    /\ (forall k, ~ In k keys ->
          Dict.get k (snd (fst (fold_left f keys st)))
          = Dict.get k (snd (fst st))).
Proof.
  intros C f good Hf. induction keys as [|key keys IH]; intros st; simpl.
  - split; [contradiction | reflexivity].
  - destruct (IH (f st key)) as [Hs Hfr]. destruct (Hf st key) as [Hk Hfk].
    split.
    + intros k [<-|Hin]; [|apply Hs; exact Hin].
      destruct (in_dec string_dec key keys) as [Hin|Hnin];
        [apply Hs; exact Hin|].
      rewrite (Hfr key Hnin). exact Hk.
    + intros k Hn. rewrite Hfr by (intros H; apply Hn; right; exact H).
      apply Hfk. intros ->. apply Hn. left. reflexivity.
Qed.

Lemma fold_invariant : forall (St K : Type) (f : St -> K -> St)
  (Inv : St -> Prop),
  (forall st k, Inv st -> Inv (f st k)) ->
  forall keys st, Inv st -> Inv (fold_left f keys st).
Proof.
  intros St K f Inv Hf. induction keys as [|k keys IH]; intros st H; simpl;
    auto.
Qed.

Lemma fix_custom_shape : forall st k,
  custom_shape tag_list (Dict.get k (snd (fst (Packages.fix_custom st k))))
  = true
  /\ forall k', k' <> k ->
       Dict.get k' (snd (fst (Packages.fix_custom st k)))
       = Dict.get k' (snd (fst st)).
Proof.
  intros [[c traits] log] k. unfold Packages.fix_custom.
  destruct (Dict.get k traits) as [[| | | | | |t]|] eqn:E;
    try (cbn [fst snd]; rewrite E; split; [reflexivity | auto]; fail).
  unfold Packages.fix_field.
  destruct (clean_field_shape _ "custom"
              (fun l => Packages.FieldStr k "custom" (List.length l))
              (Packages.FieldCleaned k "custom") (c, t, log)) as [H2 F2].
  set (st2 := clean_field "custom" _ _ (c, t, log)) in *.
  destruct (clean_field_shape _ "customTotal"
              (fun l => Packages.FieldStr k "customTotal" (List.length l))
              (Packages.FieldCleaned k "customTotal") st2) as [H3 F3].
  destruct (clean_field "customTotal" _ _ st2) as [[c3 t3] log3].
  cbn [fst snd] in *. rewrite get_set_same. split.
  - simpl. rewrite H3, (F3 "custom"), H2 by discriminate. reflexivity.
  - intros k' N. apply get_set_other. exact N.
Qed.

Lemma split_value_custom : forall st k' k,
  custom_shape tag_list (Dict.get k (snd (fst st))) = true ->
  custom_shape tag_list
    (Dict.get k (snd (fst (Packages.split_value st k')))) = true.
Proof.
  intros [[c traits] log] k' k H. unfold Packages.split_value.
  destruct (Dict.get k' traits) as [[| | | | | |t]|] eqn:E; try exact H.
  destruct (Dict.get "value" t) as [[| | | |v| |]|] eqn:Ev; try exact H.
  destruct (PyStr.has_sep v); [|exact H].
  cbn [fst snd] in *. destruct (string_dec k k') as [->|N].
  - rewrite get_set_same. rewrite E in H. simpl in *.
    get_set_simpl. exact H.
  - rewrite get_set_other by exact N. exact H.
Qed.

Lemma packages_rules_shape : forall traits key,
  In key Packages.TRAIT_KEYS ->
  custom_shape tag_list (Dict.get key (snd (fst (packages_rules traits))))
  = true.
Proof.
  intros traits key Hk. unfold packages_rules.
  apply (fold_invariant _ _ Packages.split_value
           (fun st => custom_shape tag_list (Dict.get key (snd (fst st)))
                      = true)).
  - intros st k H. apply split_value_custom. exact H.
  - destruct (fold_establishes _ Packages.fix_custom (custom_shape tag_list)
                fix_custom_shape Packages.TRAIT_KEYS
                match purge_traits traits with
                | Some (nulls, tr) => (true, tr, [Packages.LangNulls nulls])
                | None => (false, traits, [])
                end) as [Hs _].
    apply Hs. exact Hk.
Qed.

(** ** Trait entries after repair *)

(** ** A second run *)

Section WalkFixed.
Variable rec : json -> res (bool * json).

Lemma conv_value_fixpoint : forall v,
  (plus_free v = true -> rec v = Ok (false, v)) ->
  value_free v = true -> conv_value rec v = Ok (false, v).
Proof.
  intros v IH F. destruct v as [| b | n | lit | s | l | d]; simpl in *; auto.
  unfold plus_number in F. apply negb_true_iff in F. rewrite F. reflexivity.
Qed.

Lemma conv_list_fixpoint : forall l,
  Forall (fun v => plus_free v = true -> rec v = Ok (false, v)) l ->
  forallb value_free l = true -> conv_list rec l = Ok (false, l).
Proof.
  induction 1 as [|v l Hv Hl IH]; simpl; intros F; [reflexivity|].
  apply andb_prop in F. destruct F as [F1 F2].
  rewrite (conv_value_fixpoint v Hv F1). simpl. rewrite (IH F2). reflexivity.
Qed.

Lemma conv_items_fixpoint : forall d,
  Forall (fun kv => plus_free (snd kv) = true ->
                    rec (snd kv) = Ok (false, snd kv)) d ->
  forallb (fun kv => value_free (snd kv)) d = true ->
  conv_items rec d = Ok (false, d).
Proof.
  induction 1 as [|[k v] d Hv Hd IH]; simpl; intros F; [reflexivity|].
  apply andb_prop in F. destruct F as [F1 F2].
  rewrite (conv_value_fixpoint v Hv F1). simpl. rewrite (IH F2). reflexivity.
Qed.
End WalkFixed.

(** The numeric pass changes nothing in a document free of plus-number
    strings. *)
Lemma convert_fixpoint : forall v,
  plus_free v = true -> convert_plus_number_strings v = Ok (false, v).
Proof.
  induction v using json_induction; intros F; auto.
  - rewrite plus_free_list in F. simpl.
    rewrite (conv_list_fixpoint _ l H F). reflexivity.
  - rewrite plus_free_dict in F. simpl.
    rewrite (conv_items_fixpoint _ kvs H F). reflexivity.
Qed.

Lemma packages_convert_fixpoint : forall v,
  plus_free v = true ->
  Packages.convert_plus_number_strings v = Ok (false, [], v).
Proof.
  intros v F. pose proof (packages_convert_erase v) as E.
  pose proof (packages_convert_flag v) as G.
  rewrite (convert_fixpoint v F) in E.
  destruct (Packages.convert_plus_number_strings v) as [[[c log] v']|];
    simpl in *; [|discriminate].
  inversion E; subst. destruct log; [reflexivity | discriminate].
Qed.

Lemma has_traits_convert : forall doc c doc',
  convert_plus_number_strings doc = Ok (c, doc') ->
  has_traits doc' = has_traits doc.
Proof.
  intros doc c doc' E. unfold has_traits.
  pose proof (convert_get_path doc c doc' "system" ["traits"] E) as R.
  destruct (get_path doc ["system"; "traits"]) as [v|],
           (get_path doc' ["system"; "traits"]) as [v'|];
    simpl in R; try contradiction; [|reflexivity].
  destruct (norm_value_kind _ _ R) as (Hd & _).
  destruct v, v'; simpl in *; try discriminate; reflexivity.
Qed.

(** *** The rules of the resistances script on entries in shape *)

Lemma tag_list_clean : forall l,
  forallb keep_entry l = true ->
  negb (json_eqb (JList (filter keep_entry l)) (JList l)) = false.
Proof.
  intros l E. rewrite (filter_all _ keep_entry l E), json_eqb_refl.
  reflexivity.
Qed.

Lemma clean_field_noop : forall (C : Type) field on_str (on_clean : C) st,
  field_shape tag_list (Dict.get field (snd (fst st))) = true ->
  clean_field field on_str on_clean st = st.
Proof.
  intros C field on_str on_clean [[c t] log] H. unfold clean_field.
  cbn [fst snd] in H.
  destruct (Dict.get field t) as [[| | | |s|l|]|]; try reflexivity.
  - discriminate.
  - simpl in H. rewrite (tag_list_clean l H). reflexivity.
Qed.

Lemma fix_value_noop : forall key st v,
  Dict.get "value" (snd (fst st)) = Some v -> tag_list v = true ->
  Resist.fix_value key st = st.
Proof.
  intros key [[c t] log] v E H. unfold Resist.fix_value.
  cbn [fst snd] in E. rewrite E.
  destruct v; simpl in H; try discriminate.
  rewrite (tag_list_clean l H). reflexivity.
Qed.

Lemma ensure_trait_arrays_noop : forall traits key log,
  entry_shape tag_list (Dict.get key traits) = true ->
  Resist.ensure_trait_arrays traits key log = (false, traits, log).
Proof.
  intros traits key log H. unfold Resist.ensure_trait_arrays.
  destruct (Dict.get key traits) as [[| | | | | |t]|] eqn:E;
    try discriminate.
  rewrite E. simpl in H.
  apply andb_prop in H. destruct H as [H H3].
  apply andb_prop in H. destruct H as [H1 H2].
  destruct (Dict.get "value" t) as [v|] eqn:Ev; [|discriminate].
  rewrite (fix_value_noop key (false, t, log) v Ev H1).
  unfold Resist.fix_field.
  rewrite (clean_field_noop _ "custom" _ _ (false, t, log) H2).
  rewrite (clean_field_noop _ "customTotal" _ _ (false, t, log) H3).
  rewrite (set_get_id key (JDict t) traits E). reflexivity.
Qed.

Lemma resist_rules_noop : forall traits,
  (forall key, In key ["eres"; "dr"; "dv"] ->
     entry_shape tag_list (Dict.get key traits) = true) ->
  lang_nulls traits = 0 ->
  resist_rules traits = (false, traits, []).
Proof.
  intros traits Hs Hn. unfold resist_rules. simpl. unfold Resist.ensure_step.
  rewrite (ensure_trait_arrays_noop traits "eres" []) by (apply Hs; simpl; auto).
  rewrite (ensure_trait_arrays_noop traits "dr" []) by (apply Hs; simpl; auto).
  rewrite (ensure_trait_arrays_noop traits "dv" []) by (apply Hs; simpl; auto).
  simpl. unfold purge_traits. unfold lang_nulls in Hn.
  destruct (Dict.get "languages" traits) as [[| | | | | |lt]|]; try reflexivity.
  destruct (Dict.get "value" lt) as [[| | | | |lv|]|]; try reflexivity.
  rewrite Hn. reflexivity.
Qed.

Lemma count_nulls_filtered : forall l,
  count_nulls (filter (fun x => negb (is_null x)) l) = 0.
Proof.
  unfold count_nulls. induction l as [|x l IH]; simpl; [reflexivity|].
  destruct (is_null x) eqn:E; simpl; [exact IH|]. rewrite E. exact IH.
Qed.

Lemma lang_nulls_after_purge : forall traits,
  lang_nulls match purge_traits traits with
             | Some (_, tr) => tr
             | None => traits
             end = 0.
Proof.
  intros traits. destruct (purge_traits traits) as [[n tr]|] eqn:E.
  - apply purge_traits_inv in E.
    destruct E as (lt & lv & _ & _ & _ & _ & ->).
    unfold lang_nulls. get_set_simpl. apply count_nulls_filtered.
  - unfold purge_traits in E. unfold lang_nulls.
    destruct (Dict.get "languages" traits) as [[| | | | | |lt]|];
      try reflexivity.
    destruct (Dict.get "value" lt) as [[| | | | |lv|]|]; try reflexivity.
    destruct (count_nulls lv =? 0) eqn:En; [|discriminate].
    apply Nat.eqb_eq. exact En.
Qed.

Lemma resist_rules_lang_nulls : forall traits,
  lang_nulls (snd (fst (resist_rules traits))) = 0.
Proof.
  intros traits. unfold resist_rules.
  pose proof (lang_nulls_after_purge
                (snd (fst (fold_left Resist.ensure_step ["eres"; "dr"; "dv"]
                             (false, traits, []))))) as H.
  destruct (purge_traits _) as [[n tr]|]; exact H.
Qed.

Lemma norm_count_nulls : forall l l',
  Forall2 norm_value l l' -> count_nulls l' = count_nulls l.
Proof.
  unfold count_nulls. induction 1 as [|v v' l l' Hv Hl IH]; [reflexivity|].
  simpl. destruct (norm_value_kind _ _ Hv) as (_ & _ & Hn). rewrite Hn.
  destruct (is_null v); simpl; congruence.
Qed.

Lemma norm_lang_nulls : forall tr tr',
  Forall2 (fun kv kv' => fst kv = fst kv' /\ norm_value (snd kv) (snd kv'))
    tr tr' ->
  lang_nulls tr' = lang_nulls tr.
Proof.
  intros tr tr' F. unfold lang_nulls.
  pose proof (norm_dict_get tr tr' F "languages") as R.
  destruct (Dict.get "languages" tr) as [e|],
           (Dict.get "languages" tr') as [e'|];
    simpl in R; try contradiction; [|reflexivity].
  destruct e as [| | | | | |lt].
  7: { destruct (norm_value_dict lt e' R) as (lt' & -> & F').
       pose proof (norm_dict_get lt lt' F' "value") as Rv.
       destruct (Dict.get "value" lt) as [v|],
                (Dict.get "value" lt') as [v'|];
         simpl in Rv; try contradiction; [|reflexivity].
       destruct v as [| | | | |lv|].
       6: { destruct (norm_value_list lv v' Rv) as (lv' & -> & Fl).
            apply norm_count_nulls. exact Fl. }
       all: destruct (norm_value_kind _ _ Rv) as (_ & Hl & _);
            destruct v'; simpl in *; try discriminate; reflexivity. }
  all: destruct (norm_value_kind _ _ R) as (Hd & _);
       destruct e'; simpl in *; try discriminate; reflexivity.
Qed.

(** A repaired list that holds strings only is a list of tags. *)
Lemma repaired_strings_tags : forall l,
  forallb entry_or_int l = true -> forallb is_str l = true ->
  forallb keep_entry l = true.
Proof.
  induction l as [|x l IH]; simpl; intros R S; [reflexivity|].
  apply andb_prop in R. destruct R as [R1 R2].
  apply andb_prop in S. destruct S as [S1 S2].
  rewrite (IH R2 S2), andb_true_r.
  destruct x; simpl in *; try discriminate.
  apply andb_prop in R1. apply R1.
Qed.

Lemma field_strings_tags : forall v,
  field_shape repaired_list v = true -> all_strings v = true ->
  field_shape tag_list v = true.
Proof.
  intros [[| | | |s|l|]|] R S; simpl in *; auto.
  apply repaired_strings_tags; assumption.
Qed.

Lemma entry_strings_tags : forall e,
  entry_shape repaired_list e = true -> entry_strings true e = true ->
  entry_shape tag_list e = true.
Proof.
  intros [[| | | | | |t]|] R S; simpl in *; try discriminate.
  apply andb_prop in R. destruct R as [R R3].
  apply andb_prop in R. destruct R as [R1 R2].
  apply andb_prop in S. destruct S as [S S3].
  apply andb_prop in S. destruct S as [S1 S2].
  rewrite (field_strings_tags _ R2 S2), (field_strings_tags _ R3 S3).
  destruct (Dict.get "value" t) as [v|]; [|discriminate].
  destruct v; simpl in *; try discriminate.
  rewrite (repaired_strings_tags l R1 S1). reflexivity.
Qed.

Lemma custom_strings_tags : forall e,
  custom_shape repaired_list e = true -> entry_strings false e = true ->
  custom_shape tag_list e = true.
Proof.
  intros [[| | | | | |t]|] R S; simpl in *; try reflexivity.
  apply andb_prop in R. destruct R as [R2 R3].
  apply andb_prop in S. destruct S as [S2 S3].
  rewrite (field_strings_tags _ R2 S2), (field_strings_tags _ R3 S3).
  reflexivity.
Qed.

(** The traits of the document a run leaves, related to the traits its
    rules produced. *)
Lemma traits_after_pass : forall doc traits tr c doc1,
  get_path doc ["system"; "traits"] = Some (JDict traits) ->
  convert_plus_number_strings
    (put_path doc ["system"; "traits"] (JDict tr)) = Ok (c, doc1) ->
  exists tr1,
    get_path doc1 ["system"; "traits"] = Some (JDict tr1)
    /\ Forall2 (fun kv kv' => fst kv = fst kv'
                              /\ norm_value (snd kv) (snd kv')) tr tr1.
Proof.
  intros doc traits tr c doc1 Et E.
  pose proof (convert_get_path _ _ _ "system" ["traits"] E) as R.
  rewrite (get_put_same _ _ (JDict tr) _ Et) in R.
  destruct (get_path doc1 ["system"; "traits"]) as [v|]; simpl in R;
    [|contradiction].
  destruct (norm_value_dict _ _ R) as (tr1 & -> & F). eauto.
Qed.

Lemma resist_second_run : forall doc c log doc1,
  Resist.repair_actor_doc doc = Ok (c, log, doc1) ->
  (forall key, In key ["eres"; "dr"; "dv"] ->
     entry_strings true (trait_entry doc1 key) = true) ->
  Resist.repair_actor_doc doc1 = Ok (false, [], doc1).
Proof.
  intros doc c log doc1 E Hstr.
  pose proof (resist_repair_plus_free _ _ _ _ E) as Hfree.
  destruct (has_traits doc) eqn:Ht.
  - destruct (has_traits_inv doc Ht) as [traits Et].
    rewrite (resist_repair_unfold doc traits Et) in E.
    pose proof (resist_rules_lang_nulls traits) as Hn.
    assert (Hs : forall key, In key ["eres"; "dr"; "dv"] ->
              entry_shape tag_list
                (Dict.get key (snd (fst (resist_rules traits)))) = true)
      by (intros key Hk; apply resist_rules_shape; exact Hk).
    destruct (resist_rules traits) as [[c1 tr] log1]. cbn [fst snd] in *.
    inv_bind E. destruct a as [c' d'].
    assert (d' = doc1) by (destruct c'; inversion E; reflexivity). subst d'.
    destruct (traits_after_pass _ _ _ _ _ Et E0) as (tr1 & Et1 & F).
    rewrite (resist_repair_unfold doc1 tr1 Et1).
    rewrite resist_rules_noop.
    + rewrite (put_get_id _ _ _ Et1), (convert_fixpoint _ Hfree). reflexivity.
    + intros key Hk. apply entry_strings_tags.
      * apply (proj1 (norm_entry_shape _ _ (norm_dict_get tr tr1 F key))).
        apply Hs. exact Hk.
      * rewrite <- (trait_entry_get doc1 tr1 key Et1). apply Hstr. exact Hk.
    + rewrite (norm_lang_nulls tr tr1 F). exact Hn.
  - rewrite (resist_repair_no_traits doc Ht) in E.
    inv_bind E. destruct a as [c' d'].
    assert (d' = doc1) by (destruct c'; inversion E; reflexivity). subst d'.
    rewrite resist_repair_no_traits
      by (rewrite (has_traits_convert _ _ _ E0); exact Ht).
    rewrite (convert_fixpoint _ Hfree). reflexivity.
Qed.

(** *** The rules of the packages script on entries in shape *)

Lemma fix_custom_noop : forall st k,
  custom_shape tag_list (Dict.get k (snd (fst st))) = true ->
  Packages.fix_custom st k = st.
Proof.
  intros [[c traits] log] k H. unfold Packages.fix_custom.
  cbn [fst snd] in H.
  destruct (Dict.get k traits) as [[| | | | | |t]|] eqn:E; try reflexivity.
  simpl in H. apply andb_prop in H. destruct H as [H2 H3].
  unfold Packages.fix_field.
  rewrite (clean_field_noop _ "custom" _ _ (c, t, log) H2).
  rewrite (clean_field_noop _ "customTotal" _ _ (c, t, log) H3).
  rewrite (set_get_id k (JDict t) traits E). reflexivity.
Qed.

Lemma split_value_noop : forall st k,
  no_sep (Dict.get k (snd (fst st))) = true ->
  Packages.split_value st k = st.
Proof.
  intros [[c traits] log] k H. unfold Packages.split_value.
  cbn [fst snd] in H.
  destruct (Dict.get k traits) as [[| | | | | |t]|]; try reflexivity.
  simpl in H.
  destruct (Dict.get "value" t) as [[| | | |v| |]|]; try reflexivity.
  apply negb_true_iff in H. rewrite H. reflexivity.
Qed.

Lemma fold_noop : forall (St K : Type) (f : St -> K -> St) keys st,
  (forall k, In k keys -> f st k = st) -> fold_left f keys st = st.
Proof.
  induction keys as [|k keys IH]; intros st H; simpl; [reflexivity|].
  rewrite (H k (or_introl eq_refl)). apply IH.
  intros k' Hk'. apply H. right. exact Hk'.
Qed.

Lemma packages_rules_noop : forall traits,
  lang_nulls traits = 0 ->
  (forall k, In k Packages.TRAIT_KEYS ->
     custom_shape tag_list (Dict.get k traits) = true) ->
  (forall k, In k ["di"; "dv"; "ci"] -> no_sep (Dict.get k traits) = true) ->
  packages_rules traits = (false, traits, []).
Proof.
  intros traits Hn Hc Hv. unfold packages_rules.
  assert (Hp : purge_traits traits = None).
  { unfold purge_traits. unfold lang_nulls in Hn.
    destruct (Dict.get "languages" traits) as [[| | | | | |lt]|];
      try reflexivity.
    destruct (Dict.get "value" lt) as [[| | | | |lv|]|]; try reflexivity.
    rewrite Hn. reflexivity. }
  rewrite Hp.
  rewrite (fold_noop _ _ Packages.fix_custom)
    by (intros k Hk; apply fix_custom_noop; apply Hc; exact Hk).
  apply fold_noop. intros k Hk. apply split_value_noop. apply Hv. exact Hk.
Qed.

Lemma lang_nulls_set : forall k t t' traits,
  Dict.get k traits = Some (JDict t) ->
  Dict.get "value" t' = Dict.get "value" t ->
  lang_nulls (Dict.set k (JDict t') traits) = lang_nulls traits.
Proof.
  intros k t t' traits E Ev. unfold lang_nulls.
  destruct (string_dec "languages" k) as [<-|N].
  - rewrite get_set_same, E, Ev. reflexivity.
  - rewrite get_set_other by exact N. reflexivity.
Qed.

Lemma fix_custom_lang_nulls : forall st k,
  lang_nulls (snd (fst (Packages.fix_custom st k)))
  = lang_nulls (snd (fst st)).
Proof.
  intros [[c traits] log] k. unfold Packages.fix_custom.
  destruct (Dict.get k traits) as [[| | | | | |t]|] eqn:E; try reflexivity.
  unfold Packages.fix_field.
  destruct (clean_field_shape _ "custom"
              (fun l => Packages.FieldStr k "custom" (List.length l))
              (Packages.FieldCleaned k "custom") (c, t, log)) as [_ F2].
  set (st2 := clean_field "custom" _ _ (c, t, log)) in *.
  destruct (clean_field_shape _ "customTotal"
              (fun l => Packages.FieldStr k "customTotal" (List.length l))
              (Packages.FieldCleaned k "customTotal") st2) as [_ F3].
  destruct (clean_field "customTotal" _ _ st2) as [[c3 t3] log3].
  cbn [fst snd] in *. apply lang_nulls_set with (t := t); [exact E|].
  rewrite (F3 "value"), (F2 "value") by discriminate. reflexivity.
Qed.

Lemma split_value_frame : forall st k,
  no_sep (Dict.get k (snd (fst (Packages.split_value st k)))) = true
  /\ forall k', k' <> k ->
       Dict.get k' (snd (fst (Packages.split_value st k)))
       = Dict.get k' (snd (fst st)).
Proof.
  intros [[c traits] log] k. unfold Packages.split_value.
  destruct (Dict.get k traits) as [[| | | | | |t]|] eqn:E;
    try (cbn [fst snd]; rewrite E; split; [reflexivity | auto]; fail).
  destruct (Dict.get "value" t) as [[| | | |v| |]|] eqn:Ev;
    try (cbn [fst snd]; rewrite E; simpl; rewrite Ev;
         split; [reflexivity | auto]; fail).
  destruct (PyStr.has_sep v) eqn:Hs; cbn [fst snd].
  - rewrite get_set_same. simpl. rewrite get_set_same.
    split; [reflexivity|]. intros k' N. apply get_set_other. exact N.
  - rewrite E. simpl. rewrite Ev, Hs. split; [reflexivity | auto].
Qed.

Lemma split_value_lang_nulls : forall st k,
  k <> "languages" ->
  lang_nulls (snd (fst (Packages.split_value st k)))
  = lang_nulls (snd (fst st)).
Proof.
  intros st k N. unfold lang_nulls.
  rewrite (proj2 (split_value_frame st k) "languages")
    by (intros E; apply N; symmetry; exact E).
  reflexivity.
Qed.

Lemma packages_rules_lang_nulls : forall traits,
  lang_nulls (snd (fst (packages_rules traits))) = 0.
Proof.
  intros traits. unfold packages_rules. simpl.
  rewrite !split_value_lang_nulls by discriminate.
  rewrite !fix_custom_lang_nulls.
  pose proof (lang_nulls_after_purge traits) as H.
  destruct (purge_traits traits) as [[n tr]|]; exact H.
Qed.

Lemma packages_rules_no_sep : forall traits k,
  In k ["di"; "dv"; "ci"] ->
  no_sep (Dict.get k (snd (fst (packages_rules traits)))) = true.
Proof.
  intros traits k Hk. unfold packages_rules.
  destruct (fold_establishes _ Packages.split_value no_sep split_value_frame
              ["di"; "dv"; "ci"]
              (fold_left Packages.fix_custom Packages.TRAIT_KEYS
                 match purge_traits traits with
                 | Some (nulls, tr) => (true, tr, [Packages.LangNulls nulls])
                 | None => (false, traits, [])
                 end)) as [Hs _].
  apply Hs. exact Hk.
Qed.

Lemma norm_no_sep : forall e e',
  opt_rel norm_value e e' -> no_sep e = true -> no_sep e' = true.
Proof.
  intros [e|] [e'|] R; simpl in R; try contradiction; [|reflexivity].
  destruct e as [| | | | | |t].
  7: { destruct (norm_value_dict t e' R) as (t' & -> & F).
       pose proof (norm_dict_get t t' F "value") as Rv. simpl.
       destruct (Dict.get "value" t) as [v|],
                (Dict.get "value" t') as [v'|];
         simpl in Rv; try contradiction; [|reflexivity].
       destruct Rv as [s digits| s Hp |v v' Hs N]; auto.
       pose proof (normalized_is_str _ _ N) as Hs'. rewrite Hs in Hs'.
       destruct v'; simpl in *; try discriminate; reflexivity. }
  all: destruct (norm_value_kind _ _ R) as (Hd & _);
       destruct e'; simpl in *; try discriminate; reflexivity.
Qed.

Lemma packages_second_run : forall doc c log doc1,
  Packages.repair_doc doc = Ok (c, log, doc1) ->
  (forall key, In key Packages.TRAIT_KEYS ->
     entry_strings false (trait_entry doc1 key) = true) ->
  Packages.repair_doc doc1 = Ok (false, [], doc1).
Proof.
  intros doc c log doc1 E Hstr.
  pose proof (packages_repair_plus_free _ _ _ _ E) as Hfree.
  destruct (has_traits doc) eqn:Ht.
  - destruct (has_traits_inv doc Ht) as [traits Et].
    rewrite (packages_repair_unfold doc traits Et) in E.
    pose proof (packages_rules_lang_nulls traits) as Hn.
    pose proof (packages_rules_shape traits) as Hs.
    pose proof (packages_rules_no_sep traits) as Hv.
    destruct (packages_rules traits) as [[c1 tr] log1]. cbn [fst snd] in *.
    inv_bind E. destruct a as [[c' log'] d']. inversion E; subst. clear E.
    apply packages_convert_ok in E0.
    destruct (traits_after_pass _ _ _ _ _ Et E0) as (tr1 & Et1 & F).
    rewrite (packages_repair_unfold doc1 tr1 Et1).
    rewrite packages_rules_noop.
    + rewrite (put_get_id _ _ _ Et1), (packages_convert_fixpoint _ Hfree).
      reflexivity.
    + rewrite (norm_lang_nulls tr tr1 F). exact Hn.
    + intros key Hk. apply custom_strings_tags.
      * apply (proj2 (norm_entry_shape _ _ (norm_dict_get tr tr1 F key))).
        apply Hs. exact Hk.
      * rewrite <- (trait_entry_get doc1 tr1 key Et1). apply Hstr. exact Hk.
    + intros key Hk. apply (norm_no_sep _ _ (norm_dict_get tr tr1 F key)).
      apply Hv. exact Hk.
  - rewrite (packages_repair_no_traits doc Ht) in E.
    inv_bind E. destruct a as [[c' log'] d']. inversion E; subst. clear E.
    apply packages_convert_ok in E0.
    rewrite packages_repair_no_traits
      by (rewrite (has_traits_convert _ _ _ E0); exact Ht).
    rewrite (packages_convert_fixpoint _ Hfree). reflexivity.
Qed.

(** C1 as stated fails: the first run turns the plus-number string of a
    trait list into an integer, and the second run, whose list cleaning keeps
    strings only, drops that integer and reports a change. *)
Lemma second_run_drops_converted_integer :
  match Resist.repair_actor_doc doc_trait_plus with
  | Ok (_, _, doc1) =>
      get_path doc1 ["system"; "traits"; "eres"; "value"]
      = Some (JList [JInt 2])
      /\ match Resist.repair_actor_doc doc1 with
         | Ok (c2, _, doc2) =>
             c2 = true
             /\ get_path doc2 ["system"; "traits"; "eres"; "value"]
                = Some (JList [])
         | Raise _ => False
         end
  | Raise _ => False
  end
  /\ match Packages.repair_doc doc_custom_plus with
     | Ok (_, _, doc1) =>
         match Packages.repair_doc doc1 with
         | Ok (c2, _, doc2) =>
             c2 = true
             /\ get_path doc2 ["system"; "traits"; "di"; "custom"]
                = Some (JList [])
         | Raise _ => False
         end
     | Raise _ => False
     end.
Proof. vm_compute. repeat split. Qed.

(** C1 (amended): when a Shape Normalizer returns a document in which the
    trait lists it cleans ([value], [custom], [customTotal] of [eres], [dr],
    [dv] for [repair_actor_doc]; [custom], [customTotal] of the [TRAIT_KEYS]
    entries for [repair_doc]) hold strings only, that is, when its numeric
    pass left no integer in them, running it again on that document changes
    nothing: it returns the same document, [changed = False] and an empty
    log.  This covers every document without a [system.traits] mapping. *)
Theorem second_run_is_noop :
  (forall doc c log doc1,
     Resist.repair_actor_doc doc = Ok (c, log, doc1) ->
     (forall key, In key ["eres"; "dr"; "dv"] ->
        entry_strings true (trait_entry doc1 key) = true) ->
     Resist.repair_actor_doc doc1 = Ok (false, [], doc1))
  /\ (forall doc c log doc1,
        Packages.repair_doc doc = Ok (c, log, doc1) ->
        (forall key, In key Packages.TRAIT_KEYS ->
           entry_strings false (trait_entry doc1 key) = true) ->
        Packages.repair_doc doc1 = Ok (false, [], doc1)).
Proof.
  split.
  - exact resist_second_run.
  - exact packages_second_run.
Qed.

Lemma second_run_is_noop_witness :
  match Resist.repair_actor_doc doc_fire_cold with
  | Ok (_, _, doc1) => Resist.repair_actor_doc doc1 = Ok (false, [], doc1)
  | Raise _ => False
  end
  /\ Packages.repair_doc doc_value_string = Ok (false, [], doc_value_string).
Proof.
  destruct second_run_is_noop as [H1 H2]. split.
  - destruct (Resist.repair_actor_doc doc_fire_cold) as [[[c log] doc1]|]
      eqn:E; [|discriminate].
    apply (H1 doc_fire_cold c log doc1 E).
    vm_compute in E. inversion E; subst.
    intros key [<-|[<-|[<-|[]]]]; reflexivity.
  - apply (H2 doc_value_string false []); [reflexivity|].
    intros key [<-|[<-|[<-|[<-|[<-|[<-|[]]]]]]]; reflexivity.
Defined.

(** ** [unique_tag] returns an unclaimed identifier *)

Lemma mem_In : forall x l, Eidolon.mem x l = true <-> In x l.
Proof.
  intros x l. unfold Eidolon.mem. rewrite existsb_exists. split.
  - intros (y & Hy & E). apply String.eqb_eq in E. subst. exact Hy.
  - intros H. exists x. split; [exact H | apply String.eqb_refl].
Qed.

Lemma str_of_nat_inj : forall a b,
  PyStr.str_of_nat a = PyStr.str_of_nat b -> a = b.
Proof.
  intros a b E. unfold PyStr.str_of_nat in E.
  assert (H : Some (Nat.to_uint a) = Some (Nat.to_uint b)).
  { rewrite <- !NilEmpty.usu. rewrite E. reflexivity. }
  inversion H as [H']. apply (f_equal Nat.of_uint) in H'.
  rewrite !Unsigned.of_to in H'. exact H'.
Qed.

Lemma append_inj_l : forall p x y : string,
  (p ++ x = p ++ y)%string -> x = y.
Proof.
  induction p as [|c p IH]; simpl; intros x y E; [exact E|].
  inversion E. auto.
Qed.

Lemma numbered_inj : forall cand a b,
  Eidolon.numbered cand a = Eidolon.numbered cand b -> a = b.
Proof.
  intros cand a b E. unfold Eidolon.numbered in E.
  apply append_inj_l in E. apply append_inj_l in E.
  apply str_of_nat_inj. exact E.
Qed.

Lemma numbered_seq_NoDup : forall cand n i,
  NoDup (map (Eidolon.numbered cand) (seq i n)).
Proof.
  intros cand n i. apply Injective_map_NoDup.
  - intros a b. apply numbered_inj.
  - apply seq_NoDup.
Qed.

(** The loop stops at an unclaimed candidate, or every candidate it tried is
    claimed. *)
Lemma unique_tag_loop_spec : forall fuel i cand seen,
  Eidolon.mem (Eidolon.unique_tag_loop fuel i cand seen) seen = false
  \/ incl (map (Eidolon.numbered cand) (seq i (S fuel))) seen.
Proof.
  induction fuel as [|fuel IH]; intros i cand seen; simpl.
  - destruct (Eidolon.mem (Eidolon.numbered cand i) seen) eqn:E;
      [right | left; reflexivity].
    intros x [<-|[]]. apply mem_In. exact E.
  - destruct (Eidolon.mem (Eidolon.numbered cand i) seen) eqn:E;
      [|left; exact E].
    destruct (IH (S i) cand seen) as [H|H]; [left; exact H|].
    right. intros x [<-|Hx]; [apply mem_In; exact E | apply H; exact Hx].
Qed.

Lemma unique_tag_loop_fresh : forall i cand seen,
  Eidolon.mem
    (Eidolon.unique_tag_loop (S (List.length seen)) i cand seen) seen
  = false.
Proof.
  intros i cand seen.
  destruct (unique_tag_loop_spec (S (List.length seen)) i cand seen)
    as [H|H]; [exact H|].
  apply NoDup_incl_length in H; [|apply numbered_seq_NoDup].
  rewrite length_map, length_seq in H. lia.
Qed.

(** The identifier [unique_tag] returns is not in the claimed set. *)
Lemma unique_tag_fresh : forall base suffix seen,
  Eidolon.mem (Eidolon.unique_tag base suffix seen) seen = false.
Proof.
  intros base suffix seen. unfold Eidolon.unique_tag.
  destruct (Eidolon.mem (base ++ suffix) seen) eqn:E; simpl.
  - apply unique_tag_loop_fresh.
  - exact E.
Qed.

(** ** The tags PASS 1 collects are the tags of the repaired items *)

Lemma nonblank_append : forall t c rest,
  PyStr.nonblank t = true -> PyStr.is_space c = false ->
  PyStr.nonblank (PyStr.strip t ++ String c rest) = true.
Proof.
  intros t c rest Hn Hc. unfold PyStr.nonblank in *.
  destruct (strip_head t) as [E|(c0 & r0 & E & Ec0)].
  - rewrite E in Hn. discriminate.
  - pose proof (rstrip_append_length (PyStr.strip t) c rest Hc) as Hl.
    unfold PyStr.strip at 1. rewrite E in *.
    cbn [append PyStr.lstrip]. rewrite Ec0. cbn [append] in Hl.
    destruct (PyStr.rstrip (String c0 (r0 ++ String c rest))); simpl in *;
      [lia | reflexivity].
Qed.

Lemma nonblank_unique_tag : forall t suffix seen,
  PyStr.nonblank t = true ->
  PyStr.nonblank
    (Eidolon.unique_tag (PyStr.strip t) (String "_" suffix) seen) = true.
Proof.
  intros t suffix seen Hn.
  destruct (unique_tag_shape (PyStr.strip t) "_" suffix seen) as [rest ->].
  apply nonblank_append; [exact Hn | reflexivity].
Qed.

Lemma pass1_item_tags : forall st it,
  map PyStr.strip
    (Eidolon.item_tags_in_actor (fst (Eidolon.pass1_item st it)))
  = map PyStr.strip (Eidolon.item_tags_in_actor st)
    ++ tags_read [snd (Eidolon.pass1_item st it)].
Proof.
  intros st it. unfold Eidolon.pass1_item, tags_read.
  destruct it as [| | | | | |item];
    try (simpl; rewrite app_nil_r; reflexivity).
  destruct (Eidolon.get_item_tag item) as [tag|] eqn:Et;
    [|simpl; rewrite Et, app_nil_r; reflexivity].
  pose proof Et as Et'. unfold Eidolon.get_item_tag in Et'.
  destruct (Dict.get "system" item) as [[| | | | | |sysd]|] eqn:Es;
    try discriminate.
  destruct (read_tag_inv _ _ Et') as (t & Eg & Hn & ->).
  destruct (negb (Eidolon.mem (PyStr.strip t) (Eidolon.seen st))).
  - simpl. rewrite Et, map_app. simpl. rewrite strip_idem. reflexivity.
  - cbn [fst snd flat_map item_tag Eidolon.item_tags_in_actor].
    rewrite map_app, app_nil_r. f_equal.
    unfold Eidolon.get_item_tag, Eidolon.set_item_tag. rewrite Es.
    get_set_simpl. unfold Eidolon.read_tag. get_set_simpl.
    cbn [append]. rewrite nonblank_unique_tag by exact Hn. reflexivity.
Qed.

Lemma tags_read_cons : forall it items,
  tags_read (it :: items) = tags_read [it] ++ tags_read items.
Proof.
  intros it items. unfold tags_read. simpl. rewrite app_nil_r. reflexivity.
Qed.

Lemma pass1_loop_tags : forall items st,
  map PyStr.strip
    (Eidolon.item_tags_in_actor
       (fst (Eidolon.loop Eidolon.pass1_item st items)))
  = map PyStr.strip (Eidolon.item_tags_in_actor st)
    ++ tags_read (snd (Eidolon.loop Eidolon.pass1_item st items)).
Proof.
  induction items as [|it items IH]; intros st; simpl.
  - rewrite app_nil_r. reflexivity.
  - pose proof (pass1_item_tags st it) as H.
    destruct (Eidolon.pass1_item st it) as [st1 it'].
    specialize (IH st1).
    destruct (Eidolon.loop Eidolon.pass1_item st1 items) as [st2 items'].
    cbn [fst snd] in *. rewrite tags_read_cons, IH, H, app_assoc.
    reflexivity.
Qed.

Lemma pass2_item_tag : forall st it,
  item_tag (snd (Eidolon.pass2_item st it)) = item_tag it.
Proof.
  intros st it. unfold Eidolon.pass2_item.
  destruct it as [| | | | | |item]; try reflexivity.
  destruct (Dict.get "system" item) as [[| | | | | |sysd]|] eqn:Es;
    try reflexivity.
  destruct (Dict.get "actions" sysd) as [[| | | | |acts|]|] eqn:Ea;
    try reflexivity.
  destruct (Eidolon.loop _ st acts) as [st' acts']. cbn [snd item_tag].
  unfold Eidolon.get_item_tag, Eidolon.read_tag. rewrite Es.
  get_set_simpl. reflexivity.
Qed.

Lemma tags_read_map : forall items items',
  map item_tag items' = map item_tag items ->
  tags_read items' = tags_read items.
Proof.
  unfold tags_read. induction items as [|x l IH]; intros [|x' l'] E;
    try discriminate; [reflexivity|].
  simpl in *. inversion E as [[E1 E2]]. rewrite E1, (IH l' E2). reflexivity.
Qed.

Lemma items_of_dedup : forall actor items,
  Dict.get "items" actor = Some (JList items) ->
  items_of (dedup actor)
  = snd (Eidolon.loop Eidolon.pass2_item
           (fst (Eidolon.loop Eidolon.pass1_item
                   (Eidolon.mkState [] [] false []) items))
           (snd (Eidolon.loop Eidolon.pass1_item
                   (Eidolon.mkState [] [] false []) items))).
Proof.
  intros actor items Ei.
  unfold dedup, Eidolon.fix_actor_identifiers_and_resources. rewrite Ei.
  destruct (Eidolon.loop Eidolon.pass1_item _ items) as [st1 items1].
  cbn [fst snd].
  destruct (Eidolon.loop Eidolon.pass2_item st1 items1) as [st2 items2].
  cbn [fst snd].
  assert (H : items_of (JDict (Dict.set "items" (JList items2) actor))
              = items2).
  { unfold items_of. simpl. rewrite get_set_same. reflexivity. }
  destruct (Eidolon.get_resources_dict _) as [r|] eqn:Er; [|exact H].
  destruct (Eidolon.pass3 _ r) as [[|k ks] r']; [exact H|].
  cbn [snd]. unfold items_of. simpl.
  unfold Eidolon.get_resources_dict in Er.
  destruct (Dict.get "system" (Dict.set "items" (JList items2) actor))
    as [[| | | | | |sysd]|] eqn:Es; try discriminate.
  destruct (Dict.get "resources" sysd); try discriminate.
  rewrite get_set_other by discriminate. rewrite get_set_same. reflexivity.
Qed.

(** Stripped, the tags PASS 1 collects are the tags [get_item_tag] reads on
    the items of the repaired actor, in order. *)
Lemma collected_tags_are_final_tags : forall actor items,
  Dict.get "items" actor = Some (JList items) ->
  map PyStr.strip (collected_tags items) = tags_read (items_of (dedup actor)).
Proof.
  intros actor items Ei. rewrite (items_of_dedup actor items Ei).
  unfold collected_tags.
  rewrite (pass1_loop_tags items (Eidolon.mkState [] [] false [])). simpl.
  symmetry. apply tags_read_map.
  apply (loop_obs_preserved _ _ _ item_tag Eidolon.pass2_item pass2_item_tag).
Qed.

(** ** Tags are unique when no [_id] ends in white space *)

Lemma rstrip_clean : forall s, last_is_space s = false -> PyStr.rstrip s = s.
Proof.
  induction s as [|c r IH]; intros H; [reflexivity|].
  cbn [PyStr.rstrip]. destruct r as [|c' r'].
  - simpl in *. rewrite H. reflexivity.
  - rewrite IH by exact H. simpl. rewrite andb_false_r. reflexivity.
Qed.

Lemma last_is_space_append : forall a c r,
  last_is_space (a ++ String c r) = last_is_space (String c r).
Proof.
  induction a as [|x a IH]; intros c r; [reflexivity|].
  cbn [append]. specialize (IH c r).
  destruct (a ++ String c r)%string as [|y z] eqn:E.
  - destruct a; discriminate.
  - exact IH.
Qed.

Lemma decimal_not_space : forall c,
  PyStr.is_decimal c = true -> PyStr.is_space c = false.
Proof.
  intros c. destruct c as [[] [] [] [] [] [] [] []]; vm_compute; intros H;
    (reflexivity || discriminate).
Qed.

Lemma all_decimal_last : forall s,
  PyStr.all_chars PyStr.is_decimal s = true -> last_is_space s = false.
Proof.
  induction s as [|c r IH]; intros H; [reflexivity|].
  simpl in H. apply andb_prop in H. destruct H as [Hc Hr].
  destruct r as [|c' r'].
  - simpl. apply decimal_not_space. exact Hc.
  - apply IH. exact Hr.
Qed.

Lemma string_of_uint_decimal : forall d,
  PyStr.all_chars PyStr.is_decimal (NilEmpty.string_of_uint d) = true.
Proof. induction d; simpl; auto. Qed.

Lemma last_is_space_cons : forall c r,
  last_is_space r = false -> PyStr.is_space c = false ->
  last_is_space (String c r) = false.
Proof. intros c [|c' r'] Hr Hc; simpl in *; auto. Qed.

(** A string that starts and ends with characters other than white space is
    its own stripped form. *)
Lemma strip_clean : forall c r,
  PyStr.is_space c = false -> last_is_space (String c r) = false ->
  PyStr.strip (String c r) = String c r.
Proof.
  intros c r Hc Hl. unfold PyStr.strip. cbn [PyStr.lstrip]. rewrite Hc.
  apply rstrip_clean. exact Hl.
Qed.

Lemma strip_append_clean : forall t c rest,
  PyStr.nonblank t = true ->
  last_is_space (String c rest) = false ->
  PyStr.strip (PyStr.strip t ++ String c rest)
  = (PyStr.strip t ++ String c rest)%string.
Proof.
  intros t c rest Hn Hl. unfold PyStr.nonblank in Hn.
  destruct (strip_head t) as [E|(c0 & r0 & E & Ec0)].
  - rewrite E in Hn. discriminate.
  - rewrite E. cbn [append]. apply strip_clean; [exact Ec0|].
    change (String c0 (r0 ++ String c rest))
      with (String c0 r0 ++ String c rest)%string.
    rewrite last_is_space_append. exact Hl.
Qed.

(** With a suffix that does not end in white space, the replacement tag is
    stripped already. *)
Lemma unique_tag_stripped : forall t suffix seen,
  PyStr.nonblank t = true -> last_is_space suffix = false ->
  PyStr.strip (Eidolon.unique_tag (PyStr.strip t) (String "_" suffix) seen)
  = Eidolon.unique_tag (PyStr.strip t) (String "_" suffix) seen.
Proof.
  intros t suffix seen Hn Hs. unfold Eidolon.unique_tag.
  destruct (negb (Eidolon.mem (PyStr.strip t ++ String "_" suffix) seen)).
  - apply strip_append_clean; [exact Hn|].
    apply last_is_space_cons; [exact Hs | reflexivity].
  - destruct (unique_tag_loop_shape (S (List.length seen)) 2
                (PyStr.strip t ++ String "_" suffix)%string seen) as [n ->].
    unfold Eidolon.numbered. rewrite append_assoc. cbn [append].
    apply strip_append_clean; [exact Hn|].
    change (String "_" (suffix ++ String "_" (PyStr.str_of_nat n)))
      with (String "_" suffix ++ String "_" (PyStr.str_of_nat n))%string.
    rewrite last_is_space_append.
    apply last_is_space_cons; [|reflexivity].
    apply all_decimal_last. apply string_of_uint_decimal.
Qed.

Lemma id_or_clean : forall dflt d,
  clean_id d = true -> last_is_space dflt = false ->
  last_is_space (Eidolon.id_or dflt d) = false.
Proof.
  intros dflt d Hc Hd. unfold Eidolon.id_or, clean_id in *.
  destruct (Dict.get "_id" d) as [[| | | |i| |]|]; try exact Hd.
  destruct (PyStr.is_empty i); [exact Hd|].
  apply negb_true_iff in Hc. exact Hc.
Qed.

Lemma append_nil_r : forall s : string, (s ++ "")%string = s.
Proof. induction s as [|c s IH]; simpl; [reflexivity | rewrite IH; auto]. Qed.

Lemma last_is_space_app : forall a r,
  last_is_space a = false -> last_is_space r = false ->
  last_is_space (a ++ r) = false.
Proof.
  intros a [|c r] Ha Hr.
  - rewrite append_nil_r. exact Ha.
  - rewrite last_is_space_append. exact Hr.
Qed.

Lemma mem_false_not_In : forall x l, Eidolon.mem x l = false -> ~ In x l.
Proof.
  intros x l E H. apply mem_In in H. congruence.
Qed.

Lemma loop_invariant : forall (S A : Type) (body : S -> A -> S * A)
  (good : A -> Prop) (Inv : S -> Prop),
  (forall st x, good x -> Inv st -> Inv (fst (body st x))) ->
  forall l st, Forall good l -> Inv st ->
    Inv (fst (Eidolon.loop body st l)).
Proof.
  intros S A body good Inv Hb. induction l as [|x l IH]; intros st Hg Hi;
    simpl; [exact Hi|].
  inversion Hg as [|? ? Hx Hl]; subst.
  specialize (Hb st x Hx Hi). destruct (body st x) as [st1 x'].
  specialize (IH st1 Hl Hb). destruct (Eidolon.loop body st1 l) as [st2 l'].
  exact IH.
Qed.

Lemma pass1_item_inv : forall st it,
  clean_elem it = true -> pass1_inv st ->
  pass1_inv (fst (Eidolon.pass1_item st it)).
Proof.
  intros st it Hc (Hs & Hn & Hf). unfold Eidolon.pass1_item.
  destruct it as [| | | | | |item]; try (repeat split; assumption).
  destruct (Eidolon.get_item_tag item) as [tag|] eqn:Et;
    [|repeat split; assumption].
  pose proof Et as Et'. unfold Eidolon.get_item_tag in Et'.
  destruct (Dict.get "system" item) as [[| | | | | |sysd]|] eqn:Es;
    try discriminate.
  destruct (read_tag_inv _ _ Et') as (t & Eg & Hnb & ->).
  destruct (Eidolon.mem (PyStr.strip t) (Eidolon.seen st)) eqn:Em;
    cbn [negb fst]; unfold pass1_inv;
    cbn [Eidolon.seen Eidolon.item_tags_in_actor].
  - rewrite rev_app_distr. simpl. split; [congruence|]. split.
    + constructor; [|exact Hn]. apply mem_false_not_In.
      apply unique_tag_fresh.
    + apply Forall_app. split; [exact Hf|]. constructor; [|constructor].
      cbn [append]. apply unique_tag_stripped; [exact Hnb|].
      apply id_or_clean; [exact Hc | reflexivity].
  - rewrite rev_app_distr. simpl. split; [congruence|]. split.
    + constructor; [|exact Hn]. apply mem_false_not_In. exact Em.
    + apply Forall_app. split; [exact Hf|]. constructor; [|constructor].
      apply strip_idem.
Qed.

Lemma map_strip_id : forall l,
  Forall (fun t => PyStr.strip t = t) l -> map PyStr.strip l = l.
Proof.
  induction 1 as [|t l Ht Hl IH]; simpl; [reflexivity|].
  rewrite Ht, IH. reflexivity.
Qed.

Lemma loop_seen : forall (A : Type)
  (body : Eidolon.state -> A -> Eidolon.state * A)
  (read : A -> list string) (good : A -> Prop),
  (forall st x, good x -> NoDup (Eidolon.seen st) ->
     Eidolon.seen (fst (body st x))
     = rev (read (snd (body st x))) ++ Eidolon.seen st
     /\ NoDup (Eidolon.seen (fst (body st x)))) ->
  forall l st, Forall good l -> NoDup (Eidolon.seen st) ->
    Eidolon.seen (fst (Eidolon.loop body st l))
    = rev (flat_map read (snd (Eidolon.loop body st l))) ++ Eidolon.seen st
    /\ NoDup (Eidolon.seen (fst (Eidolon.loop body st l))).
Proof.
  intros A body read good Hb. induction l as [|x l IH]; intros st Hg Hn;
    simpl; [auto|].
  inversion Hg as [|? ? Hx Hl]; subst.
  destruct (Hb st x Hx Hn) as [E1 N1]. destruct (body st x) as [st1 x'].
  cbn [fst snd] in *.
  destruct (IH st1 Hl N1) as [E2 N2].
  destruct (Eidolon.loop body st1 l) as [st2 l']. cbn [fst snd] in *.
  split; [|exact N2].
  rewrite E2, E1. simpl. rewrite rev_app_distr, app_assoc. reflexivity.
Qed.

Lemma pass2_action_seen : forall name st a,
  clean_elem a = true -> NoDup (Eidolon.seen st) ->
  Eidolon.seen (fst (Eidolon.pass2_action name st a))
  = rev (action_read (snd (Eidolon.pass2_action name st a)))
    ++ Eidolon.seen st
  /\ NoDup (Eidolon.seen (fst (Eidolon.pass2_action name st a))).
Proof.
  intros name st a Hc Hn. unfold Eidolon.pass2_action.
  destruct a as [| | | | | |act]; try (split; [reflexivity | exact Hn]).
  destruct (Eidolon.get_action_tag act) as [tag|] eqn:Et.
  2: { cbn [fst snd]. unfold action_read, action_tag. rewrite Et.
       split; [reflexivity | exact Hn]. }
  destruct (read_tag_inv _ _ Et) as (t & Eg & Hnb & ->).
  destruct (Eidolon.mem (PyStr.strip t) (Eidolon.seen st)) eqn:Em;
    cbn [fst snd Eidolon.seen].
  - unfold action_read, action_tag, Eidolon.get_action_tag,
      Eidolon.set_action_tag, Eidolon.read_tag.
    rewrite get_set_same. cbn [append].
    rewrite nonblank_unique_tag by exact Hnb.
    rewrite unique_tag_stripped.
    + split; [reflexivity|]. constructor; [|exact Hn].
      apply mem_false_not_In. apply unique_tag_fresh.
    + exact Hnb.
    + repeat (apply last_is_space_cons; [|reflexivity]).
      apply id_or_clean; [exact Hc | reflexivity].
  - unfold action_read, action_tag. rewrite Et.
    split; [reflexivity|]. constructor; [|exact Hn].
    apply mem_false_not_In. exact Em.
Qed.

Lemma flat_map_filter_dict : forall acts,
  flat_map action_read (filter is_dict acts) = flat_map action_read acts.
Proof.
  induction acts as [|a acts IH]; simpl; [reflexivity|].
  destruct a; simpl; rewrite IH; reflexivity.
Qed.

Lemma clean_filter_dict : forall acts,
  forallb clean_elem (filter is_dict acts) = true ->
  Forall (fun a => clean_elem a = true) acts.
Proof.
  induction acts as [|a acts IH]; simpl; intros H; [constructor|].
  destruct a; simpl in *; try (constructor; [reflexivity | auto]; fail).
  apply andb_prop in H. destruct H as [H1 H2]. constructor; auto.
Qed.

Lemma pass2_item_seen : forall st it,
  clean_actions it = true -> NoDup (Eidolon.seen st) ->
  Eidolon.seen (fst (Eidolon.pass2_item st it))
  = rev (item_action_tags (snd (Eidolon.pass2_item st it)))
    ++ Eidolon.seen st
  /\ NoDup (Eidolon.seen (fst (Eidolon.pass2_item st it))).
Proof.
  intros st it Hc Hn. unfold Eidolon.pass2_item, clean_actions in *.
  unfold item_action_tags.
  destruct it as [| | | | | |item]; try (split; [reflexivity | exact Hn]).
  cbn [actions_of] in *.
  destruct (Dict.get "system" item) as [[| | | | | |sysd]|] eqn:Es;
    try (cbn [fst snd actions_of]; rewrite Es;
         split; [reflexivity | exact Hn]).
  destruct (Dict.get "actions" sysd) as [[| | | | |acts|]|] eqn:Ea;
    try (cbn [fst snd actions_of]; rewrite Es, Ea;
         split; [reflexivity | exact Hn]).
  pose proof (loop_seen _ (Eidolon.pass2_action (Dict.get "name" item))
                action_read (fun a => clean_elem a = true)
                (pass2_action_seen _) acts st (clean_filter_dict _ Hc) Hn)
    as H.
  destruct (Eidolon.loop _ st acts) as [st' acts'].
  cbn [fst snd actions_of] in *. get_set_simpl.
  rewrite flat_map_filter_dict. exact H.
Qed.

Lemma pass1_item_actions : forall st it,
  actions_of (snd (Eidolon.pass1_item st it)) = actions_of it.
Proof.
  intros st it. unfold Eidolon.pass1_item.
  destruct it as [| | | | | |item]; try reflexivity.
  destruct (Eidolon.get_item_tag item) as [tag|] eqn:Et; [|reflexivity].
  destruct (negb (Eidolon.mem tag (Eidolon.seen st))); [reflexivity|].
  unfold Eidolon.get_item_tag in Et.
  destruct (Dict.get "system" item) as [[| | | | | |sysd]|] eqn:Es;
    try discriminate.
  cbn [snd actions_of]. unfold Eidolon.set_item_tag. rewrite Es.
  get_set_simpl. reflexivity.
Qed.

Lemma ids_clean_inv : forall items,
  ids_clean items = true ->
  Forall (fun it => clean_elem it = true) items
  /\ Forall (fun it => clean_actions it = true) items.
Proof.
  unfold ids_clean. induction items as [|it items IH]; simpl; intros H;
    [split; constructor|].
  apply andb_prop in H. destruct H as [H1 H2]. destruct (IH H2) as [F1 F2].
  destruct it as [| | | | | |item];
    try (split; constructor; auto; reflexivity).
  apply andb_prop in H1. destruct H1 as [Hi Ha].
  split; constructor; auto.
Qed.

Lemma clean_actions_map : forall l l',
  map actions_of l' = map actions_of l ->
  Forall (fun it => clean_actions it = true) l ->
  Forall (fun it => clean_actions it = true) l'.
Proof.
  induction l as [|x l IH]; intros [|x' l'] E F; try discriminate;
    [constructor|].
  simpl in E. inversion E as [[E1 E2]]. inversion F as [|? ? Hx Hl]; subst.
  constructor; [|apply IH; assumption].
  unfold clean_actions in *. rewrite E1. exact Hx.
Qed.

(** Apart from identifiers that end in white space, the deduplicator does
    what C5 says: on an actor whose items and actions all have a clean
    [_id], the tags read on the repaired items and on their actions are
    pairwise distinct. *)
Lemma dedup_tags_unique : forall actor items,
  Dict.get "items" actor = Some (JList items) ->
  ids_clean items = true ->
  NoDup (tags_read (items_of (dedup actor))
         ++ action_tags_read (items_of (dedup actor))).
Proof.
  intros actor items Ei Hc. rewrite (items_of_dedup actor items Ei).
  destruct (ids_clean_inv items Hc) as [Fi Fa].
  pose proof (loop_invariant _ _ Eidolon.pass1_item
                (fun it => clean_elem it = true) pass1_inv pass1_item_inv
                items (Eidolon.mkState [] [] false []) Fi) as H1.
  pose proof (pass1_loop_tags items (Eidolon.mkState [] [] false [])) as Ht.
  pose proof (loop_obs_preserved _ _ _ actions_of Eidolon.pass1_item
                pass1_item_actions items (Eidolon.mkState [] [] false []))
    as Ha.
  destruct (Eidolon.loop Eidolon.pass1_item _ items) as [st1 items1].
  cbn [fst snd] in *.
  destruct H1 as (Hs & Hn & Hf); [repeat split; constructor|].
  rewrite (map_strip_id _ Hf) in Ht. simpl in Ht.
  pose proof (loop_seen _ Eidolon.pass2_item item_action_tags
                (fun it => clean_actions it = true) pass2_item_seen
                items1 st1 (clean_actions_map _ _ Ha Fa) Hn) as H2.
  pose proof (loop_obs_preserved _ _ _ item_tag Eidolon.pass2_item
                pass2_item_tag items1 st1) as Hp.
  destruct (Eidolon.loop Eidolon.pass2_item st1 items1) as [st2 items2].
  cbn [fst snd] in *. destruct H2 as [E2 N2].
  rewrite (tags_read_map _ _ Hp), <- Ht.
  rewrite E2, Hs, <- rev_app_distr in N2.
  apply NoDup_rev in N2. rewrite rev_involutive in N2. exact N2.
Qed.

Example dedup_bite_unique :
  tags_read (items_of (dedup actor_bite)) = ["bite"; "bite_abc123"].
Proof. reflexivity. Qed.

(** ** A second run of the deduplicator on distinct tags *)

Lemma claimed_nil : forall st, claimed [] [] st = st.
Proof. intros [s t c l]. unfold claimed. simpl. rewrite app_nil_r. auto. Qed.

Lemma claimed_claimed : forall i1 s1 i2 s2 st,
  claimed i2 s2 (claimed i1 s1 st) = claimed (i1 ++ i2) (s1 ++ s2) st.
Proof.
  intros i1 s1 i2 s2 [s t c l]. unfold claimed. simpl.
  rewrite rev_app_distr, !app_assoc. reflexivity.
Qed.

Lemma NoDup_drop_middle : forall (A : Type) (a b c : list A),
  NoDup ((a ++ b) ++ c) -> NoDup (a ++ c).
Proof.
  intros A a b c H. apply (NoDup_app_remove_l b).
  eapply Permutation_NoDup; [|exact H].
  rewrite (app_assoc b a c).
  apply Permutation_app_tail. apply Permutation_app_comm.
Qed.

Lemma NoDup_claim_head : forall (A : Type) (a b c : list A),
  NoDup ((a ++ b) ++ c) -> NoDup (b ++ rev a ++ c).
Proof.
  intros A a b c H. eapply Permutation_NoDup; [|exact H].
  apply Permutation_trans with (b ++ a ++ c).
  - rewrite (app_assoc b a c). apply Permutation_app_tail.
    apply Permutation_app_comm.
  - apply Permutation_app_head. apply Permutation_app_tail.
    apply Permutation_rev.
Qed.

Lemma loop_claims : forall (A : Type)
  (body : Eidolon.state -> A -> Eidolon.state * A)
  (ri rs : A -> list string),
  (forall st x, NoDup (rs x ++ Eidolon.seen st) ->
     body st x = (claimed (ri x) (rs x) st, x)) ->
  forall l st, NoDup (flat_map rs l ++ Eidolon.seen st) ->
    Eidolon.loop body st l
    = (claimed (flat_map ri l) (flat_map rs l) st, l).
Proof.
  intros A body ri rs Hb. induction l as [|x l IH]; intros st H; simpl.
  - rewrite claimed_nil. reflexivity.
  - simpl in H. rewrite (Hb st x (NoDup_drop_middle _ _ _ _ H)).
    rewrite IH.
    + rewrite claimed_claimed. reflexivity.
    + cbn [claimed Eidolon.seen]. apply NoDup_claim_head. exact H.
Qed.

Lemma NoDup_head_not_In : forall (t : string) l,
  NoDup ([t] ++ l) -> Eidolon.mem t l = false.
Proof.
  intros t l H. simpl in H. inversion H as [|? ? Hn _]; subst.
  destruct (Eidolon.mem t l) eqn:E; [|reflexivity].
  apply mem_In in E. contradiction.
Qed.

Lemma pass1_item_claims : forall st it,
  NoDup (item_read it ++ Eidolon.seen st) ->
  Eidolon.pass1_item st it = (claimed (item_read it) (item_read it) st, it).
Proof.
  intros st it H. unfold Eidolon.pass1_item, item_read in *.
  destruct it as [| | | | | |item]; simpl; try (rewrite claimed_nil; auto).
  simpl in H. destruct (Eidolon.get_item_tag item) as [tag|];
    [|rewrite claimed_nil; reflexivity].
  rewrite (NoDup_head_not_In _ _ H). reflexivity.
Qed.

Lemma pass2_action_claims : forall name st a,
  NoDup (action_read a ++ Eidolon.seen st) ->
  Eidolon.pass2_action name st a = (claimed [] (action_read a) st, a).
Proof.
  intros name st a H. unfold Eidolon.pass2_action, action_read in *.
  destruct a as [| | | | | |act]; simpl; try (rewrite claimed_nil; auto).
  simpl in H. destruct (Eidolon.get_action_tag act) as [tag|];
    [|rewrite claimed_nil; reflexivity].
  rewrite (NoDup_head_not_In _ _ H). unfold claimed. simpl.
  rewrite app_nil_r. reflexivity.
Qed.

Lemma flat_map_nil : forall (A B : Type) (l : list A),
  flat_map (fun _ : A => @nil B) l = [].
Proof. induction l; simpl; auto. Qed.

Lemma pass2_item_claims : forall st it,
  NoDup (item_action_tags it ++ Eidolon.seen st) ->
  Eidolon.pass2_item st it = (claimed [] (item_action_tags it) st, it).
Proof.
  intros st it H. unfold Eidolon.pass2_item, item_action_tags in *.
  destruct it as [| | | | | |item]; try (simpl; rewrite claimed_nil; auto).
  cbn [actions_of] in *.
  destruct (Dict.get "system" item) as [[| | | | | |sysd]|] eqn:Es;
    try (rewrite claimed_nil; reflexivity).
  destruct (Dict.get "actions" sysd) as [[| | | | |acts|]|] eqn:Ea;
    try (rewrite claimed_nil; reflexivity).
  rewrite flat_map_filter_dict in *.
  rewrite (loop_claims _ (Eidolon.pass2_action (Dict.get "name" item))
             (fun _ => []) action_read
             (fun st0 x => pass2_action_claims _ st0 x) acts st H).
  rewrite flat_map_nil.
  rewrite (set_get_id "actions" _ _ Ea), (set_get_id "system" _ _ Es).
  reflexivity.
Qed.

Lemma put_path_dict : forall d k p v,
  exists d', put_path (JDict d) (k :: p) v = JDict d'.
Proof.
  intros d k p v. simpl. destruct (Dict.get k d); eauto.
Qed.

(** The repaired actor is a mapping whose [items] are the items the two
    loops left. *)
Lemma dedup_items : forall actor items,
  Dict.get "items" actor = Some (JList items) ->
  exists once,
    dedup actor = JDict once
    /\ Dict.get "items" once = Some (JList (items_of (dedup actor))).
Proof.
  intros actor items Ei.
  unfold dedup, Eidolon.fix_actor_identifiers_and_resources. rewrite Ei.
  destruct (Eidolon.loop Eidolon.pass1_item _ items) as [st1 items1].
  destruct (Eidolon.loop Eidolon.pass2_item st1 items1) as [st2 items2].
  assert (H : exists once,
            JDict (Dict.set "items" (JList items2) actor) = JDict once
            /\ Dict.get "items" once
               = Some (JList (items_of
                                (JDict (Dict.set "items" (JList items2)
                                          actor))))).
  { eexists. split; [reflexivity|]. unfold items_of. simpl.
    rewrite !get_set_same. reflexivity. }
  destruct (Eidolon.get_resources_dict _) as [r|] eqn:Er; [|exact H].
  destruct (Eidolon.pass3 _ r) as [[|k ks] r']; [exact H|].
  cbn [snd]. unfold Eidolon.get_resources_dict in Er. unfold items_of.
  simpl.
  destruct (Dict.get "system" (Dict.set "items" (JList items2) actor))
    as [[| | | | | |sysd]|] eqn:Es; try discriminate.
  destruct (Dict.get "resources" sysd); try discriminate.
  eexists. split; [reflexivity|].
  rewrite !(get_set_other "items" "system") by discriminate.
  rewrite !get_set_same. reflexivity.
Qed.

Lemma dedup_no_resources : forall actor items,
  Dict.get "items" actor = Some (JList items) ->
  Eidolon.get_resources_dict actor = None ->
  resources_of (dedup actor) = None.
Proof.
  intros actor items Ei Er.
  unfold dedup, Eidolon.fix_actor_identifiers_and_resources. rewrite Ei.
  destruct (Eidolon.loop Eidolon.pass1_item _ items) as [st1 items1].
  destruct (Eidolon.loop Eidolon.pass2_item st1 items1) as [st2 items2].
  rewrite resources_set_items, Er. simpl.
  rewrite resources_set_items. exact Er.
Qed.

Lemma filter_filter_keys : forall (p : string -> bool)
  (r : list (string * json)),
  filter p (Dict.keys (filter (fun kv => negb (p (fst kv))) r)) = [].
Proof.
  intros p. induction r as [|[k v] r IH]; simpl; [reflexivity|].
  destruct (p k) eqn:E; simpl; [exact IH|]. rewrite E. exact IH.
Qed.

(** With clean identifiers the collected tags are the tags of the repaired
    items, as they are. *)
Lemma collected_tags_clean : forall actor items,
  Dict.get "items" actor = Some (JList items) ->
  ids_clean items = true ->
  collected_tags items = tags_read (items_of (dedup actor)).
Proof.
  intros actor items Ei Hc.
  rewrite <- (collected_tags_are_final_tags actor items Ei).
  symmetry. apply map_strip_id. unfold collected_tags.
  destruct (ids_clean_inv items Hc) as [Fi _].
  apply (loop_invariant _ _ Eidolon.pass1_item
           (fun it => clean_elem it = true) pass1_inv pass1_item_inv
           items (Eidolon.mkState [] [] false []) Fi).
  repeat split; constructor.
Qed.

(** Apart from identifiers that end in white space, the deduplicator does
    what C6 says: on an actor whose items and actions all have a clean
    [_id], a second run renames nothing, deletes nothing and reports the
    document unchanged. *)
Lemma dedup_second_run_clean : forall actor items,
  Dict.get "items" actor = Some (JList items) ->
  ids_clean items = true ->
  exists once,
    dedup actor = JDict once
    /\ Eidolon.fix_actor_identifiers_and_resources once
       = (false, [], JDict once).
Proof.
  intros actor items Ei Hc.
  destruct (dedup_items actor items Ei) as (once & Eo & Eit).
  exists once. split; [exact Eo|].
  pose proof (dedup_tags_unique actor items Ei Hc) as Hn.
  pose proof (collected_tags_clean actor items Ei Hc) as Hcol.
  set (items2 := items_of (dedup actor)) in *.
  unfold Eidolon.fix_actor_identifiers_and_resources. rewrite Eit.
  rewrite (loop_claims _ Eidolon.pass1_item item_read item_read
             pass1_item_claims items2 (Eidolon.mkState [] [] false [])).
  2: { cbn [Eidolon.seen]. rewrite app_nil_r.
       apply (NoDup_app_remove_r _ _ Hn). }
  rewrite (loop_claims _ Eidolon.pass2_item (fun _ => []) item_action_tags
             pass2_item_claims items2).
  2: { cbn [claimed Eidolon.seen].
       apply (NoDup_claim_head _ (flat_map item_read items2)
                (flat_map item_action_tags items2) []).
       rewrite app_nil_r. exact Hn. }
  rewrite flat_map_nil. rewrite (set_get_id "items" _ _ Eit).
  cbn [claimed Eidolon.item_tags_in_actor Eidolon.changed Eidolon.changes].
  rewrite app_nil_r. cbn [app].
  destruct (Eidolon.get_resources_dict once) as [r2|] eqn:Er2;
    [|reflexivity].
  assert (Hdel : filter (fun k => Eidolon.mem k (flat_map item_read items2))
                   (Dict.keys r2) = []).
  { destruct (Eidolon.get_resources_dict actor) as [r|] eqn:Er.
    - pose proof (dedup_resources actor items r Ei Er) as Hr.
      rewrite Eo in Hr. unfold resources_of in Hr. rewrite Er2 in Hr.
      inversion Hr as [Hr']. rewrite Hcol.
      apply (filter_filter_keys (fun k => Eidolon.mem k (tags_read items2))).
    - pose proof (dedup_no_resources actor items Ei Er) as Hr.
      rewrite Eo in Hr. unfold resources_of in Hr. congruence. }
  unfold Eidolon.pass3. rewrite Hdel. reflexivity.
Qed.

(* ================================================================== *)
(** * Further properties of the code *)

(** ** [str_to_list] *)

Lemma all_chars_lstrip : forall p s,
  PyStr.all_chars p s = true -> PyStr.all_chars p (PyStr.lstrip s) = true.
Proof.
  induction s as [|c r IH]; simpl; intros H; [reflexivity|].
  apply andb_prop in H. destruct H as [Hc Hr].
  destruct (PyStr.is_space c); [auto|]. simpl. rewrite Hc, Hr. reflexivity.
Qed.

Lemma all_chars_rstrip : forall p s,
  PyStr.all_chars p s = true -> PyStr.all_chars p (PyStr.rstrip s) = true.
Proof.
  induction s as [|c r IH]; simpl; intros H; [reflexivity|].
  apply andb_prop in H. destruct H as [Hc Hr].
  destruct (PyStr.is_space c && PyStr.is_empty (PyStr.rstrip r));
    [reflexivity|].
  simpl. rewrite Hc, (IH Hr). reflexivity.
Qed.

Lemma re_split_sep_free : forall s b,
  Forall (fun t => sep_free t = true) (PyStr.re_split b s).
Proof.
  unfold sep_free. induction s as [|c r IH]; intros b; simpl.
  - constructor; [reflexivity | constructor].
  - destruct (PyStr.is_sep c) eqn:E.
    + destruct b; [apply IH|]. constructor; [reflexivity | apply IH].
    + specialize (IH false).
      destruct (PyStr.re_split false r) as [|t ts].
      * constructor; [simpl; rewrite E; reflexivity | constructor].
      * inversion IH as [|? ? Ht Hts]; subst.
        constructor; [simpl; rewrite E, Ht; reflexivity | exact Hts].
Qed.

(** X1: every token [str_to_list] returns is non-empty, is its own stripped
    form and contains neither [;] nor [,]. *)
Theorem str_to_list_tokens_clean : forall s,
  Forall clean_token (PyStr.str_to_list s).
Proof.
  intros s. unfold PyStr.str_to_list.
  pose proof (re_split_sep_free s false) as H.
  induction H as [|t ts Ht Hts IH]; simpl; [constructor|].
  destruct (PyStr.is_empty (PyStr.strip t)) eqn:E; simpl; [exact IH|].
  constructor; [|exact IH]. repeat split.
  - intros Eq. rewrite Eq in E. discriminate.
  - apply strip_idem.
  - unfold sep_free, PyStr.strip in *.
    apply all_chars_rstrip, all_chars_lstrip. exact Ht.
Qed.

Lemma re_split_no_sep : forall s,
  sep_free s = true -> PyStr.re_split false s = [s].
Proof.
  unfold sep_free. induction s as [|c r IH]; simpl; intros H; [reflexivity|].
  apply andb_prop in H. destruct H as [Hc Hr].
  apply negb_true_iff in Hc. rewrite Hc, (IH Hr). reflexivity.
Qed.

(** X2: on a string without separator [str_to_list] returns the stripped
    string alone, or nothing when the string is blank. *)
Theorem str_to_list_single : forall s,
  sep_free s = true ->
  PyStr.str_to_list s
  = if PyStr.nonblank s then [PyStr.strip s] else [].
Proof.
  intros s H. unfold PyStr.str_to_list, PyStr.nonblank.
  rewrite (re_split_no_sep s H). simpl.
  destruct (PyStr.is_empty (PyStr.strip s)); reflexivity.
Qed.

Lemma str_to_list_single_witness :
  PyStr.str_to_list "  5/magic " = ["5/magic"].
Proof. exact (str_to_list_single "  5/magic " eq_refl). Defined.

(** ** [convert_plus_number_strings] *)

Section WalkSafe.
Variable rec : json -> res (bool * json).



End WalkSafe.


(** X3: the numeric pass is idempotent: on the object it returns, a second
    pass returns the same object and reports no change. *)
Theorem convert_idempotent : forall obj c obj',
  convert_plus_number_strings obj = Ok (c, obj') ->
  convert_plus_number_strings obj' = Ok (false, obj').
Proof.
  intros obj c obj' E. apply convert_fixpoint.
  exact (proj1 (convert_post _ _ _ E)).
Qed.

Lemma convert_idempotent_witness :
  convert_plus_number_strings (JDict [("abilityMod", JInt 2)])
  = Ok (false, JDict [("abilityMod", JInt 2)]).
Proof. exact (convert_idempotent doc_ability true _ eq_refl). Defined.



(** A plus sign followed by 4301 zeros is a plus number, and [int] refuses
    it. *)
Example py_int_digit_cap :
  PyStr.is_plus_number (String "+" (String.concat "" (repeat "0" 4301)))
  = true
  /\ PyStr.py_int (String.concat "" (repeat "0" 4301)) = None
  /\ PyStr.py_int (String.concat "" (repeat "0" 4300)) = Some 0%Z.
Proof. vm_compute. repeat split. Qed.

(** X5: the walk of repair_pf1_packages.py, which also logs, returns the
    same flag and the same object as the walk of the resistances script and
    raises on the same objects; its flag is set exactly when it logged
    something. *)
Theorem logging_walk_agrees : forall obj,
  erase_log (Packages.convert_plus_number_strings obj)
  = convert_plus_number_strings obj
  /\ flag_matches_log (Packages.convert_plus_number_strings obj).
Proof.
  intros obj. split; [apply packages_convert_erase | apply packages_convert_flag].
Qed.

(** ** [ensure_dict_path] *)

Lemma ensure_dict_path_lands : forall path d,
  exists s, get_path (JDict (ensure_dict_path d path)) path = Some (JDict s).
Proof.
  induction path as [|part rest IH]; intros d; simpl.
  - exists d. reflexivity.
  - rewrite get_set_same. apply IH.
Qed.

Lemma ensure_dict_path_present : forall path d s,
  get_path (JDict d) path = Some (JDict s) -> ensure_dict_path d path = d.
Proof.
  induction path as [|part rest IH]; intros d s E; simpl in *.
  - reflexivity.
  - destruct (Dict.get part d) as [v|] eqn:G; [|discriminate].
    destruct v as [| b | n | lit | str | l | sub];
      try (destruct rest; simpl in E; discriminate).
    rewrite (IH sub s E). apply set_get_id. exact G.
Qed.

(** X6: after [ensure_dict_path(d, path)] the path leads through mappings
    to a mapping; when it already did, [d] is left as it is; keys of [d]
    other than the first step of the path keep their values. *)
Theorem ensure_dict_path_spec : forall d path,
  (exists s, get_path (JDict (ensure_dict_path d path)) path = Some (JDict s))
  /\ (forall s, get_path (JDict d) path = Some (JDict s) ->
        ensure_dict_path d path = d)
  /\ (forall k, hd_error path <> Some k ->
        Dict.get k (ensure_dict_path d path) = Dict.get k d).
Proof.
  intros d path. split; [apply ensure_dict_path_lands|].
  split; [apply ensure_dict_path_present|].
  intros k N. destruct path as [|part rest]; simpl in *; [reflexivity|].
  apply get_set_other. intros ->. apply N. reflexivity.
Qed.

Lemma ensure_dict_path_spec_witness :
  ensure_dict_path [("system", JDict [("traits", JDict [])])]
    ["system"; "traits"]
  = [("system", JDict [("traits", JDict [])])]
  /\ Dict.get "name" (ensure_dict_path [("name", JStr "Imp")]
                        ["system"; "traits"; "languages"])
     = Some (JStr "Imp").
Proof.
  split.
  - exact (proj1 (proj2 (ensure_dict_path_spec
                          [("system", JDict [("traits", JDict [])])]
                          ["system"; "traits"])) [] eq_refl).
  - apply (proj2 (proj2 (ensure_dict_path_spec [("name", JStr "Imp")]
                          ["system"; "traits"; "languages"]))).
    simpl. discriminate.
Defined.

(** ** [unique_tag] *)

Lemma unique_tag_loop_least : forall fuel i cand seen,
  exists n,
    i <= n
    /\ Eidolon.unique_tag_loop fuel i cand seen = Eidolon.numbered cand n
    /\ forall j, i <= j < n ->
         Eidolon.mem (Eidolon.numbered cand j) seen = true.
Proof.
  induction fuel as [|fuel IH]; intros i cand seen; simpl.
  - exists i. repeat split; [lia|]. intros j Hj. lia.
  - destruct (Eidolon.mem (Eidolon.numbered cand i) seen) eqn:E.
    + destruct (IH (S i) cand seen) as (n & Hle & Hn & Hall).
      exists n. repeat split; [lia | exact Hn |].
      intros j Hj. destruct (Nat.eq_dec j i) as [->|N]; [exact E|].
      apply Hall. lia.
    + exists i. repeat split; [lia|]. intros j Hj. lia.
Qed.

(** X7: [unique_tag(base, suffix, seen)] returns an identifier outside
    [seen]: [base + suffix] when that is free, and otherwise
    [base + suffix + "_" + str(n)] for the least [n >= 2] whose identifier
    is free. *)
Theorem unique_tag_least : forall base suffix seen,
  Eidolon.mem (Eidolon.unique_tag base suffix seen) seen = false
  /\ ((Eidolon.mem (base ++ suffix) seen = false
       /\ Eidolon.unique_tag base suffix seen = (base ++ suffix)%string)
      \/ (Eidolon.mem (base ++ suffix) seen = true
          /\ exists n,
               2 <= n
               /\ Eidolon.unique_tag base suffix seen
                  = Eidolon.numbered (base ++ suffix) n
               /\ forall j, 2 <= j < n ->
                    Eidolon.mem (Eidolon.numbered (base ++ suffix) j) seen
                    = true)).
Proof.
  intros base suffix seen. split; [apply unique_tag_fresh|].
  unfold Eidolon.unique_tag.
  destruct (Eidolon.mem (base ++ suffix) seen) eqn:E; cbn [negb].
  - right. split; [reflexivity|]. apply unique_tag_loop_least.
  - left. split; reflexivity.
Qed.

Lemma unique_tag_least_witness :
  Eidolon.mem (Eidolon.unique_tag "bite" "_x" ["bite_x_2"; "bite_x"; "bite"])
    ["bite_x_2"; "bite_x"; "bite"] = false.
Proof.
  exact (proj1 (unique_tag_least "bite" "_x" ["bite_x_2"; "bite_x"; "bite"])).
Defined.

(** ** The tag accessors *)

(** X8: [set_item_tag] followed by [get_item_tag] reads the new tag
    stripped, or nothing when it is blank; [set_item_tag] sets
    [system.useCustomTag], and touches no key of the item other than
    [system] and no key of an existing [system] mapping other than [tag] and
    [useCustomTag].  [set_action_tag] does the same with the [tag] of an
    action. *)
Theorem set_then_get_tag : forall item t,
  Eidolon.get_item_tag (Eidolon.set_item_tag item t)
  = (if PyStr.nonblank t then Some (PyStr.strip t) else None)
  /\ get_path (JDict (Eidolon.set_item_tag item t)) ["system"; "useCustomTag"]
     = Some (JBool true)
  /\ (forall k, k <> "system" ->
        Dict.get k (Eidolon.set_item_tag item t) = Dict.get k item)
  /\ (forall sd k, Dict.get "system" item = Some (JDict sd) ->
        k <> "tag" -> k <> "useCustomTag" ->
        get_path (JDict (Eidolon.set_item_tag item t)) ["system"; k]
        = Dict.get k sd)
  /\ Eidolon.get_action_tag (Eidolon.set_action_tag item t)
     = (if PyStr.nonblank t then Some (PyStr.strip t) else None)
  /\ (forall k, k <> "tag" ->
        Dict.get k (Eidolon.set_action_tag item t) = Dict.get k item).
Proof.
  intros item t. unfold Eidolon.get_item_tag, Eidolon.set_item_tag,
    Eidolon.get_action_tag, Eidolon.set_action_tag, Eidolon.read_tag.
  repeat split.
  - rewrite get_set_same.
    rewrite (get_set_other "tag" "useCustomTag") by discriminate.
    rewrite get_set_same. reflexivity.
  - simpl. rewrite get_set_same. rewrite get_set_same. reflexivity.
  - intros k N. apply get_set_other. exact N.
  - intros sd k Es Nt Nu. simpl. rewrite get_set_same, Es.
    rewrite (get_set_other k "useCustomTag") by exact Nu.
    rewrite (get_set_other k "tag") by exact Nt.
    destruct (Dict.get k sd); reflexivity.
  - rewrite get_set_same. reflexivity.
  - intros k N. apply get_set_other. exact N.
Qed.

Lemma set_then_get_tag_witness :
  Dict.get "name" (Eidolon.set_item_tag [("name", JStr "Bite")] "bite_a1")
  = Some (JStr "Bite").
Proof.
  apply (proj1 (proj2 (proj2 (set_then_get_tag [("name", JStr "Bite")]
                                "bite_a1")))).
  discriminate.
Defined.

(** ** [ensure_trait_arrays] *)

(** X9: whatever the entry under [key] was, [ensure_trait_arrays] leaves a
    mapping whose [value] is a list of non-blank strings and whose [custom]
    and [customTotal], when they are lists or were strings, are lists of
    non-blank strings; the other keys of [traits] keep their values; and a
    second call on the result changes nothing and returns [False]. *)
Theorem ensure_trait_arrays_settles : forall traits key log,
  let tr := snd (fst (Resist.ensure_trait_arrays traits key log)) in
  entry_shape tag_list (Dict.get key tr) = true
  /\ (forall k, k <> key -> Dict.get k tr = Dict.get k traits)
  /\ (forall log2, Resist.ensure_trait_arrays tr key log2 = (false, tr, log2)).
Proof.
  intros traits key log tr.
  destruct (ensure_trait_arrays_shape traits key log) as [Hs Hf].
  split; [exact Hs|]. split; [exact Hf|].
  intros log2. apply ensure_trait_arrays_noop. exact Hs.
Qed.

Lemma ensure_trait_arrays_settles_witness :
  Dict.get "languages"
    (snd (fst (Resist.ensure_trait_arrays
                 [("languages", JDict []); ("dr", JStr "5/magic; 10/cold")]
                 "dr" [])))
  = Some (JDict []).
Proof.
  apply (proj1 (proj2 (ensure_trait_arrays_settles
                         [("languages", JDict []);
                          ("dr", JStr "5/magic; 10/cold")] "dr" []))).
  discriminate.
Defined.

(** ** What the Shape Normalizers leave untouched and what they remove *)

Lemma repair_decompose : forall doc doc',
  shape_normalizer_output doc doc' ->
  (has_traits doc = false
   /\ exists c, convert_plus_number_strings doc = Ok (c, doc'))
  \/ (exists traits tr c,
        get_path doc ["system"; "traits"] = Some (JDict traits)
        /\ lang_nulls tr = 0
        /\ convert_plus_number_strings
             (put_path doc ["system"; "traits"] (JDict tr)) = Ok (c, doc')).
Proof.
  intros doc doc' [(c & log & E)|(c & log & E)];
    destruct (has_traits doc) eqn:Ht.
  - right. destruct (has_traits_inv doc Ht) as [traits Et].
    rewrite (resist_repair_unfold doc traits Et) in E.
    pose proof (resist_rules_lang_nulls traits) as Hn.
    destruct (resist_rules traits) as [[c1 tr] log1]. cbn [fst snd] in *.
    inv_bind E. destruct a as [c' d'].
    assert (d' = doc') by (destruct c'; inversion E; reflexivity). subst d'.
    exists traits, tr, c'. auto.
  - left. split; [reflexivity|].
    rewrite (resist_repair_no_traits doc Ht) in E.
    inv_bind E. destruct a as [c' d'].
    assert (d' = doc') by (destruct c'; inversion E; reflexivity). subst d'.
    exists c'. exact E0.
  - right. destruct (has_traits_inv doc Ht) as [traits Et].
    rewrite (packages_repair_unfold doc traits Et) in E.
    pose proof (packages_rules_lang_nulls traits) as Hn.
    destruct (packages_rules traits) as [[c1 tr] log1]. cbn [fst snd] in *.
    inv_bind E. destruct a as [[c' log'] d']. inversion E; subst. clear E.
    apply packages_convert_ok in E0.
    exists traits, tr, c'. auto.
  - left. split; [reflexivity|].
    rewrite (packages_repair_no_traits doc Ht) in E.
    inv_bind E. destruct a as [[c' log'] d']. inversion E; subst. clear E.
    apply packages_convert_ok in E0. eexists. exact E0.
Qed.

Lemma lang_nulls_at_path : forall doc tr l,
  get_path doc ["system"; "traits"] = Some (JDict tr) ->
  get_path doc ["system"; "traits"; "languages"; "value"] = Some (JList l) ->
  count_nulls l = lang_nulls tr.
Proof.
  intros doc tr l Et El.
  change ["system"; "traits"; "languages"; "value"]
    with (["system"; "traits"] ++ ["languages"; "value"]) in El.
  rewrite get_path_app, Et in El. unfold lang_nulls. simpl in El.
  destruct (Dict.get "languages" tr) as [[| | | | | |lt]|]; try discriminate.
  destruct (Dict.get "value" lt) as [v|]; [|discriminate].
  inversion El; subst. reflexivity.
Qed.

(** X10: in a document either Shape Normalizer returns, a list at
    [system.traits.languages.value] holds no null. *)
Theorem languages_nulls_removed : forall doc doc' l,
  shape_normalizer_output doc doc' ->
  get_path doc' ["system"; "traits"; "languages"; "value"] = Some (JList l) ->
  count_nulls l = 0.
Proof.
  intros doc doc' l H El.
  destruct (repair_decompose doc doc' H)
    as [(Ht & c & E)|(traits & tr & c & Et & Hn & E)].
  - rewrite <- (has_traits_convert _ _ _ E) in Ht. unfold has_traits in Ht.
    change ["system"; "traits"; "languages"; "value"]
      with (["system"; "traits"] ++ ["languages"; "value"]) in El.
    rewrite get_path_app in El.
    destruct (get_path doc' ["system"; "traits"]) as [[| | | | | |t]|];
      simpl in El; discriminate.
  - destruct (traits_after_pass _ _ _ _ _ Et E) as (tr1 & Et1 & F).
    rewrite (lang_nulls_at_path doc' tr1 l Et1 El).
    rewrite (norm_lang_nulls tr tr1 F). exact Hn.
Qed.

Lemma languages_nulls_removed_witness : count_nulls [JStr "Common"] = 0.
Proof.
  eapply (languages_nulls_removed doc_lang_nulls).
  - left. eexists. eexists. reflexivity.
  - reflexivity.
Defined.

Lemma put_traits_outside : forall doc traits v p,
  get_path doc ["system"; "traits"] = Some (JDict traits) ->
  outside_traits p = true ->
  get_path (put_path doc ["system"; "traits"] v) p = get_path doc p.
Proof.
  intros doc traits v p Et Hp.
  destruct doc as [| b | n | lit | s | l | d]; try discriminate.
  simpl in Et. simpl.
  destruct (Dict.get "system" d) as [sv|] eqn:Es; [|discriminate].
  destruct sv as [| b | n | lit | s | l | sd]; try discriminate.
  destruct (Dict.get "traits" sd) as [tv|] eqn:Etr; [|discriminate].
  destruct p as [|k rest]; [discriminate|]. cbn [get_path].
  destruct (String.eqb k "system") eqn:Ek.
  - apply String.eqb_eq in Ek. subst k. rewrite get_set_same, Es.
    destruct rest as [|k2 rest]; [discriminate|].
    cbn [outside_traits negb orb] in Hp. cbn [get_path].
    rewrite get_set_other; [reflexivity|].
    intros ->. discriminate.
  - apply String.eqb_neq in Ek. rewrite (get_set_other _ _ _ _ Ek).
    reflexivity.
Qed.

(** X11: outside [system.traits] a Shape Normalizer does nothing but the
    numeric normalization: at every path that does not lead to or through
    [system.traits], the value after the repair is the value before with
    its plus-number strings replaced by integers, and a path absent before
    is absent after. *)
Theorem repair_frame_outside_traits : forall doc doc' p,
  shape_normalizer_output doc doc' ->
  outside_traits p = true ->
  opt_rel norm_value (get_path doc p) (get_path doc' p).
Proof.
  intros doc doc' p H Hp.
  destruct p as [|k rest]; [discriminate|].
  destruct (repair_decompose doc doc' H)
    as [(Ht & c & E)|(traits & tr & c & Et & Hn & E)].
  - exact (convert_get_path doc c doc' k rest E).
  - rewrite <- (put_traits_outside doc traits (JDict tr) (k :: rest) Et Hp).
    exact (convert_get_path _ c doc' k rest E).
Qed.

Lemma repair_frame_outside_traits_witness :
  opt_rel norm_value (Some (JStr "+3")) (Some (JInt 3)).
Proof.
  apply (repair_frame_outside_traits doc_lang_nulls
           (JDict [("type", JStr "npc");
                   ("bonus", JInt 3);
                   ("system",
                    JDict [("traits",
                            JDict [("languages",
                                    JDict [("value",
                                            JList [JStr "Common"])])])])])
           ["bonus"]).
  - right. eexists. eexists. reflexivity.
  - reflexivity.
Defined.

(** ** When the deduplicator has nothing to do *)

Lemma claim_head_perm : forall (A : Type) (a b c : list A),
  Permutation ((a ++ b) ++ c) (b ++ rev a ++ c).
Proof.
  intros A a b c. apply Permutation_trans with (b ++ a ++ c).
  - rewrite (app_assoc b a c). apply Permutation_app_tail.
    apply Permutation_app_comm.
  - apply Permutation_app_head. apply Permutation_app_tail.
    apply Permutation_rev.
Qed.

Lemma loop_changed_mono : forall (A : Type)
  (body : Eidolon.state -> A -> Eidolon.state * A),
  (forall st x, Eidolon.changed st = true ->
     Eidolon.changed (fst (body st x)) = true) ->
  forall l st, Eidolon.changed st = true ->
    Eidolon.changed (fst (Eidolon.loop body st l)) = true.
Proof.
  intros A body Hb. induction l as [|x l IH]; intros st H; simpl;
    [exact H|].
  pose proof (Hb st x H) as H1.
  destruct (body st x) as [st1 x'].
  specialize (IH st1 H1).
  destruct (Eidolon.loop body st1 l) as [st2 r']. exact IH.
Qed.

(** A loop that ends with the flag down has claimed pairwise distinct
    identifiers, none of them claimed before. *)
Lemma loop_unchanged_distinct : forall (A : Type)
  (body : Eidolon.state -> A -> Eidolon.state * A)
  (ri rs : A -> list string),
  (forall st x, NoDup (Eidolon.seen st) ->
     Eidolon.changed (fst (body st x)) = false ->
     NoDup (rs x ++ Eidolon.seen st)) ->
  (forall st x, Eidolon.changed st = true ->
     Eidolon.changed (fst (body st x)) = true) ->
  (forall st x, NoDup (rs x ++ Eidolon.seen st) ->
     body st x = (claimed (ri x) (rs x) st, x)) ->
  forall l st, NoDup (Eidolon.seen st) ->
    Eidolon.changed (fst (Eidolon.loop body st l)) = false ->
    NoDup (flat_map rs l ++ Eidolon.seen st).
Proof.
  intros A body ri rs Hconv Hmono Hclaims.
  induction l as [|x l IH]; intros st Hnd Hc; simpl in *; [exact Hnd|].
  destruct (body st x) as [st1 x'] eqn:Eb.
  destruct (Eidolon.loop body st1 l) as [st2 r'] eqn:El. simpl in Hc.
  assert (Hc1 : Eidolon.changed st1 = false).
  { destruct (Eidolon.changed st1) eqn:C; [|reflexivity].
    pose proof (loop_changed_mono A body Hmono l st1 C) as M.
    rewrite El in M. simpl in M. congruence. }
  assert (Hx : NoDup (rs x ++ Eidolon.seen st)).
  { apply Hconv; [exact Hnd|]. rewrite Eb. exact Hc1. }
  rewrite (Hclaims st x Hx) in Eb. inversion Eb; subst st1 x'.
  specialize (IH (claimed (ri x) (rs x) st)).
  rewrite El in IH. cbn [fst claimed Eidolon.seen] in IH.
  eapply Permutation_NoDup;
    [apply Permutation_sym; apply claim_head_perm|].
  apply IH; [|exact Hc].
  eapply Permutation_NoDup; [|exact Hx].
  apply Permutation_app_tail. apply Permutation_rev.
Qed.

Lemma pass1_item_mono : forall st it,
  Eidolon.changed st = true ->
  Eidolon.changed (fst (Eidolon.pass1_item st it)) = true.
Proof.
  intros st it H. unfold Eidolon.pass1_item.
  destruct it as [| | | | | |item]; try exact H.
  destruct (Eidolon.get_item_tag item) as [tag|]; [|exact H].
  destruct (Eidolon.mem tag (Eidolon.seen st)); simpl; auto.
Qed.

Lemma pass1_item_unchanged : forall st it,
  NoDup (Eidolon.seen st) ->
  Eidolon.changed (fst (Eidolon.pass1_item st it)) = false ->
  NoDup (item_read it ++ Eidolon.seen st).
Proof.
  intros st it Hnd H. unfold Eidolon.pass1_item, item_read in *.
  destruct it as [| | | | | |item]; try exact Hnd. simpl in *.
  destruct (Eidolon.get_item_tag item) as [tag|]; [|exact Hnd].
  destruct (Eidolon.mem tag (Eidolon.seen st)) eqn:E; simpl in *;
    [discriminate|].
  constructor; [apply mem_false_not_In; exact E | exact Hnd].
Qed.

Lemma pass2_action_mono : forall name st a,
  Eidolon.changed st = true ->
  Eidolon.changed (fst (Eidolon.pass2_action name st a)) = true.
Proof.
  intros name st a H. unfold Eidolon.pass2_action.
  destruct a as [| | | | | |act]; try exact H.
  destruct (Eidolon.get_action_tag act) as [tag|]; [|exact H].
  destruct (Eidolon.mem tag (Eidolon.seen st)); simpl; auto.
Qed.

Lemma pass2_action_unchanged : forall name st a,
  NoDup (Eidolon.seen st) ->
  Eidolon.changed (fst (Eidolon.pass2_action name st a)) = false ->
  NoDup (action_read a ++ Eidolon.seen st).
Proof.
  intros name st a Hnd H. unfold Eidolon.pass2_action, action_read in *.
  destruct a as [| | | | | |act]; try exact Hnd. simpl in *.
  destruct (Eidolon.get_action_tag act) as [tag|]; [|exact Hnd].
  destruct (Eidolon.mem tag (Eidolon.seen st)) eqn:E; simpl in *;
    [discriminate|].
  constructor; [apply mem_false_not_In; exact E | exact Hnd].
Qed.

Lemma pass2_item_mono : forall st it,
  Eidolon.changed st = true ->
  Eidolon.changed (fst (Eidolon.pass2_item st it)) = true.
Proof.
  intros st it H. unfold Eidolon.pass2_item.
  destruct it as [| | | | | |item]; try exact H.
  destruct (Dict.get "system" item) as [[| | | | | |sysd]|]; try exact H.
  destruct (Dict.get "actions" sysd) as [[| | | | |acts|]|]; try exact H.
  pose proof (loop_changed_mono json
                (Eidolon.pass2_action (Dict.get "name" item))
                (pass2_action_mono _) acts st H) as M.
  destruct (Eidolon.loop _ st acts) as [st' acts']. exact M.
Qed.

Lemma pass2_item_unchanged : forall st it,
  NoDup (Eidolon.seen st) ->
  Eidolon.changed (fst (Eidolon.pass2_item st it)) = false ->
  NoDup (item_action_tags it ++ Eidolon.seen st).
Proof.
  intros st it Hnd H. unfold Eidolon.pass2_item, item_action_tags in *.
  destruct it as [| | | | | |item]; try exact Hnd. cbn [actions_of].
  destruct (Dict.get "system" item) as [[| | | | | |sysd]|]; try exact Hnd.
  destruct (Dict.get "actions" sysd) as [[| | | | |acts|]|]; try exact Hnd.
  rewrite flat_map_filter_dict.
  apply (loop_unchanged_distinct json
           (Eidolon.pass2_action (Dict.get "name" item))
           (fun _ => []) action_read
           (pass2_action_unchanged _) (pass2_action_mono _)
           (pass2_action_claims _) acts st Hnd).
  destruct (Eidolon.loop _ st acts) as [st' acts']. exact H.
Qed.

Lemma filter_nil_iff : forall (A : Type) (p : A -> bool) l,
  filter p l = [] <-> forall x, In x l -> p x = false.
Proof.
  intros A p. induction l as [|y l IH]; simpl.
  - split; [intros _ x [] | reflexivity].
  - destruct (p y) eqn:E.
    + split; [discriminate|]. intros H.
      specialize (H y (or_introl eq_refl)). congruence.
    + rewrite IH. split.
      * intros H x [<-|Hx]; [exact E | apply H; exact Hx].
      * intros H x Hx. apply H. right. exact Hx.
Qed.

Lemma dedup_noop : forall actor items,
  Dict.get "items" actor = Some (JList items) ->
  collision_free actor items ->
  Eidolon.fix_actor_identifiers_and_resources actor = (false, [], JDict actor).
Proof.
  intros actor items Ei [Hn Hr].
  unfold Eidolon.fix_actor_identifiers_and_resources. rewrite Ei.
  rewrite (loop_claims _ Eidolon.pass1_item item_read item_read
             pass1_item_claims items (Eidolon.mkState [] [] false [])).
  2: { cbn [Eidolon.seen]. rewrite app_nil_r.
       apply (NoDup_app_remove_r _ _ Hn). }
  rewrite (loop_claims _ Eidolon.pass2_item (fun _ => []) item_action_tags
             pass2_item_claims items).
  2: { cbn [claimed Eidolon.seen].
       apply (NoDup_claim_head _ (flat_map item_read items)
                (flat_map item_action_tags items) []).
       rewrite app_nil_r. exact Hn. }
  rewrite flat_map_nil. rewrite (set_get_id "items" _ _ Ei).
  cbn [claimed Eidolon.item_tags_in_actor Eidolon.changed Eidolon.changes].
  rewrite app_nil_r. cbn [app].
  destruct (Eidolon.get_resources_dict actor) as [r|] eqn:Er;
    [|reflexivity].
  assert (Hdel : filter (fun k => Eidolon.mem k (flat_map item_read items))
                   (Dict.keys r) = []).
  { apply filter_nil_iff. intros k Hk.
    destruct (Eidolon.mem k (flat_map item_read items)) eqn:E;
      [|reflexivity].
    apply mem_In in E. destruct (Hr r k eq_refl Hk E). }
  unfold Eidolon.pass3. rewrite Hdel. reflexivity.
Qed.

Lemma dedup_unchanged_distinct : forall actor items,
  Dict.get "items" actor = Some (JList items) ->
  fst (fst (Eidolon.fix_actor_identifiers_and_resources actor)) = false ->
  collision_free actor items.
Proof.
  intros actor items Ei H.
  unfold Eidolon.fix_actor_identifiers_and_resources in H. rewrite Ei in H.
  destruct (Eidolon.loop Eidolon.pass1_item _ items) as [st1 items1] eqn:E1.
  destruct (Eidolon.loop Eidolon.pass2_item st1 items1) as [st2 items2]
    eqn:E2.
  rewrite resources_set_items in H.
  assert (Hc2 : Eidolon.changed st2 = false
                /\ forall r, Eidolon.get_resources_dict actor = Some r ->
                     filter (fun k => Eidolon.mem k
                                        (Eidolon.item_tags_in_actor st2))
                       (Dict.keys r) = []).
  { destruct (Eidolon.get_resources_dict actor) as [r|].
    - unfold Eidolon.pass3 in H.
      destruct (filter _ (Dict.keys r)) as [|k ks] eqn:Ef;
        [|discriminate H].
      split; [exact H|]. intros r0 Er0. inversion Er0; subst. exact Ef.
    - split; [exact H | discriminate]. }
  destruct Hc2 as [Hc2 Hres].
  assert (Hc1 : Eidolon.changed st1 = false).
  { destruct (Eidolon.changed st1) eqn:C; [|reflexivity].
    pose proof (loop_changed_mono json Eidolon.pass2_item pass2_item_mono
                  items1 st1 C) as M.
    rewrite E2 in M. simpl in M. congruence. }
  assert (Hn1 : NoDup (flat_map item_read items ++ [])).
  { apply (loop_unchanged_distinct json Eidolon.pass1_item item_read item_read
             pass1_item_unchanged pass1_item_mono pass1_item_claims
             items (Eidolon.mkState [] [] false [])).
    - constructor.
    - rewrite E1. exact Hc1. }
  rewrite (loop_claims _ Eidolon.pass1_item item_read item_read
             pass1_item_claims items (Eidolon.mkState [] [] false [])
             Hn1) in E1.
  inversion E1; subst st1 items1. clear E1.
  assert (Hn2 : NoDup (flat_map item_action_tags items
                       ++ rev (flat_map item_read items) ++ [])).
  { apply (loop_unchanged_distinct json Eidolon.pass2_item
             (fun _ => []) item_action_tags
             pass2_item_unchanged pass2_item_mono pass2_item_claims
             items (claimed (flat_map item_read items)
                      (flat_map item_read items)
                      (Eidolon.mkState [] [] false []))).
    - cbn [claimed Eidolon.seen]. rewrite app_nil_r in *.
      eapply Permutation_NoDup; [apply Permutation_rev | exact Hn1].
    - rewrite E2. exact Hc2. }
  rewrite (loop_claims _ Eidolon.pass2_item (fun _ => []) item_action_tags
             pass2_item_claims items
             (claimed (flat_map item_read items) (flat_map item_read items)
                (Eidolon.mkState [] [] false [])) Hn2) in E2.
  inversion E2; subst st2 items2. clear E2.
  rewrite flat_map_nil in Hres.
  cbn [claimed Eidolon.item_tags_in_actor] in Hres.
  rewrite app_nil_r in Hres. cbn [app] in Hres.
  split.
  - change (NoDup (flat_map item_read items
                   ++ flat_map item_action_tags items)).
    rewrite <- (app_nil_r (flat_map item_read items
                           ++ flat_map item_action_tags items)).
    eapply Permutation_NoDup;
      [apply Permutation_sym; apply claim_head_perm | exact Hn2].
  - intros r k Er Hk Hin.
    pose proof (proj1 (filter_nil_iff _ _ _) (Hres r Er) k Hk) as E.
    apply mem_false_not_In in E. apply E. exact Hin.
Qed.

(** X12: [fix_actor_identifiers_and_resources] reports [changed = False]
    exactly when nothing collides in the actor: the tags read on the items
    and on their actions are pairwise distinct and no resource key is an item
    tag.  On such an actor it renames nothing, deletes nothing and logs
    nothing. *)
Theorem dedup_unchanged_iff : forall actor items,
  Dict.get "items" actor = Some (JList items) ->
  (fst (fst (Eidolon.fix_actor_identifiers_and_resources actor)) = false
   <-> collision_free actor items)
  /\ (collision_free actor items ->
      Eidolon.fix_actor_identifiers_and_resources actor
      = (false, [], JDict actor)).
Proof.
  intros actor items Ei. split; [split|].
  - apply dedup_unchanged_distinct. exact Ei.
  - intros H. rewrite (dedup_noop actor items Ei H). reflexivity.
  - apply dedup_noop. exact Ei.
Qed.

Lemma dedup_unchanged_iff_witness :
  ~ collision_free actor_bite (items_of (JDict actor_bite)).
Proof.
  intros H.
  pose proof (proj2 (proj1 (dedup_unchanged_iff actor_bite
                              (items_of (JDict actor_bite)) eq_refl)) H)
    as E.
  vm_compute in E. discriminate E.
Defined.

(** ** What the deduplicator leaves untouched *)

Lemma pass1_item_other_key : forall k st it,
  k <> "system" ->
  get_path (snd (Eidolon.pass1_item st it)) [k] = get_path it [k].
Proof.
  intros k st it N. unfold Eidolon.pass1_item.
  destruct it as [| | | | | |item]; try reflexivity.
  destruct (Eidolon.get_item_tag item) as [tag|]; [|reflexivity].
  destruct (Eidolon.mem tag (Eidolon.seen st)); [|reflexivity].
  cbn [negb snd get_path]. unfold Eidolon.set_item_tag.
  rewrite (get_set_other k "system") by exact N. reflexivity.
Qed.

Lemma pass2_item_other_key : forall k st it,
  k <> "system" ->
  get_path (snd (Eidolon.pass2_item st it)) [k] = get_path it [k].
Proof.
  intros k st it N. unfold Eidolon.pass2_item.
  destruct it as [| | | | | |item]; try reflexivity.
  destruct (Dict.get "system" item) as [[| | | | | |sysd]|]; try reflexivity.
  destruct (Dict.get "actions" sysd) as [[| | | | |acts|]|]; try reflexivity.
  destruct (Eidolon.loop _ st acts) as [st' acts']. cbn [snd get_path].
  rewrite (get_set_other k "system") by exact N. reflexivity.
Qed.

Lemma pass1_item_system_key : forall k st it,
  k <> "tag" -> k <> "useCustomTag" ->
  get_path (snd (Eidolon.pass1_item st it)) ["system"; k]
  = get_path it ["system"; k].
Proof.
  intros k st it Nt Nu. unfold Eidolon.pass1_item.
  destruct it as [| | | | | |item]; try reflexivity.
  destruct (Eidolon.get_item_tag item) as [tag|] eqn:Eg; [|reflexivity].
  destruct (Eidolon.mem tag (Eidolon.seen st)); [|reflexivity].
  cbn [negb snd get_path]. unfold Eidolon.set_item_tag.
  unfold Eidolon.get_item_tag in Eg.
  destruct (Dict.get "system" item) as [[| | | | | |sd]|]; try discriminate.
  rewrite get_set_same.
  rewrite (get_set_other k "useCustomTag") by exact Nu.
  rewrite (get_set_other k "tag") by exact Nt. reflexivity.
Qed.

Lemma pass2_item_system_key : forall k st it,
  k <> "actions" ->
  get_path (snd (Eidolon.pass2_item st it)) ["system"; k]
  = get_path it ["system"; k].
Proof.
  intros k st it N. unfold Eidolon.pass2_item.
  destruct it as [| | | | | |item]; try reflexivity.
  destruct (Dict.get "system" item) as [[| | | | | |sysd]|] eqn:Es;
    try reflexivity.
  destruct (Dict.get "actions" sysd) as [[| | | | |acts|]|]; try reflexivity.
  destruct (Eidolon.loop _ st acts) as [st' acts']. cbn [snd get_path].
  rewrite get_set_same, Es.
  rewrite (get_set_other k "actions") by exact N. reflexivity.
Qed.

Lemma dedup_items_obs : forall (B : Type) (obs : json -> B) actor items,
  Dict.get "items" actor = Some (JList items) ->
  (forall st it, obs (snd (Eidolon.pass1_item st it)) = obs it) ->
  (forall st it, obs (snd (Eidolon.pass2_item st it)) = obs it) ->
  map obs (items_of (dedup actor)) = map obs items.
Proof.
  intros B obs actor items Ei H1 H2.
  rewrite (items_of_dedup actor items Ei).
  rewrite (loop_obs_preserved _ _ _ obs Eidolon.pass2_item H2).
  apply (loop_obs_preserved _ _ _ obs Eidolon.pass1_item H1).
Qed.

Lemma dedup_actor_frame : forall actor items p,
  Dict.get "items" actor = Some (JList items) ->
  match p with
  | [] => False
  | k :: rest =>
      k <> "items"
      /\ (k = "system" ->
          match rest with [] => False | k2 :: _ => k2 <> "resources" end)
  end ->
  get_path (dedup actor) p = get_path (JDict actor) p.
Proof.
  intros actor items p Ei Hp.
  destruct p as [|k rest]; [destruct Hp|]. destruct Hp as [Ni Hs].
  unfold dedup, Eidolon.fix_actor_identifiers_and_resources. rewrite Ei.
  destruct (Eidolon.loop Eidolon.pass1_item _ items) as [st1 items1].
  destruct (Eidolon.loop Eidolon.pass2_item st1 items1) as [st2 items2].
  assert (H : get_path (JDict (Dict.set "items" (JList items2) actor))
                (k :: rest)
              = get_path (JDict actor) (k :: rest)).
  { cbn [get_path]. rewrite (get_set_other k "items") by exact Ni.
    reflexivity. }
  destruct (Eidolon.get_resources_dict _) as [r|] eqn:Er; [|exact H].
  destruct (Eidolon.pass3 _ r) as [[|d ds] r']; [exact H|].
  cbn [snd]. rewrite <- H.
  unfold Eidolon.get_resources_dict in Er. cbn [put_path get_path].
  destruct (Dict.get "system" (Dict.set "items" (JList items2) actor))
    as [[| | | | | |sysd]|] eqn:Es; try discriminate.
  destruct (Dict.get "resources" sysd) as [rv|] eqn:Err; [|discriminate].
  cbn [get_path].
  destruct (String.eqb k "system") eqn:Ek.
  - apply String.eqb_eq in Ek. subst k. rewrite get_set_same, Es.
    specialize (Hs eq_refl). destruct rest as [|k2 rest]; [destruct Hs|].
    cbn [get_path]. rewrite (get_set_other k2 "resources") by exact Hs.
    reflexivity.
  - apply String.eqb_neq in Ek.
    rewrite (get_set_other k "system") by exact Ek. reflexivity.
Qed.

(** X13: the deduplicator keeps the number and the order of the items; of an
    item it touches nothing but [system.tag], [system.useCustomTag] and
    [system.actions]; of the actor it touches nothing but [items] and
    [system.resources]. *)
Theorem dedup_frame : forall actor items k,
  Dict.get "items" actor = Some (JList items) ->
  List.length (items_of (dedup actor)) = List.length items
  /\ (k <> "system" ->
      map (fun it => get_path it [k]) (items_of (dedup actor))
      = map (fun it => get_path it [k]) items)
  /\ (k <> "tag" -> k <> "useCustomTag" -> k <> "actions" ->
      map (fun it => get_path it ["system"; k]) (items_of (dedup actor))
      = map (fun it => get_path it ["system"; k]) items)
  /\ (k <> "items" -> k <> "system" ->
      get_path (dedup actor) [k] = Dict.get k actor)
  /\ (k <> "resources" ->
      get_path (dedup actor) ["system"; k]
      = get_path (JDict actor) ["system"; k]).
Proof.
  intros actor items k Ei. repeat split.
  - rewrite <- (length_map (fun it => get_path it ["name"])).
    rewrite (dedup_items_obs _ (fun it => get_path it ["name"]) actor items
               Ei).
    + apply length_map.
    + intros st it. apply pass1_item_other_key. discriminate.
    + intros st it. apply pass2_item_other_key. discriminate.
  - intros N. apply (dedup_items_obs _ _ actor items Ei).
    + intros st it. apply pass1_item_other_key. exact N.
    + intros st it. apply pass2_item_other_key. exact N.
  - intros Nt Nu Na. apply (dedup_items_obs _ _ actor items Ei).
    + intros st it. apply pass1_item_system_key; assumption.
    + intros st it. apply pass2_item_system_key. exact Na.
  - intros Ni Ns. rewrite (dedup_actor_frame actor items [k] Ei).
    + cbn [get_path]. destruct (Dict.get k actor); reflexivity.
    + split; [exact Ni | intros E; destruct (Ns E)].
  - intros Nr. apply (dedup_actor_frame actor items ["system"; k] Ei).
    split; [discriminate | intros _; exact Nr].
Qed.

Lemma dedup_frame_witness :
  map (fun it => get_path it ["_id"]) (items_of (dedup actor_bite))
  = [Some (JStr "a1"); Some (JStr "abc123")].
Proof.
  apply (proj1 (proj2 (dedup_frame actor_bite
                         (items_of (JDict actor_bite)) "_id" eq_refl))).
  discriminate.
Defined.

(** ** The deduplicator on actors with clean identifiers *)

(** X14: when no [_id] of an item or an action ends in white space, nothing
    collides in the actor the deduplicator leaves: the tags of its items and
    actions are pairwise distinct and no resource key is an item tag. *)
Theorem dedup_output_collision_free : forall actor items,
  Dict.get "items" actor = Some (JList items) ->
  ids_clean items = true ->
  exists once,
    dedup actor = JDict once
    /\ Dict.get "items" once = Some (JList (items_of (dedup actor)))
    /\ collision_free once (items_of (dedup actor)).
Proof.
  intros actor items Ei Hc.
  destruct (dedup_items actor items Ei) as (once & Eo & Eit).
  exists once. split; [exact Eo|]. split; [exact Eit|]. split.
  - exact (dedup_tags_unique actor items Ei Hc).
  - intros r2 k Er2 Hk Hin.
    rewrite <- (collected_tags_clean actor items Ei Hc) in Hin.
    destruct (Eidolon.get_resources_dict actor) as [r|] eqn:Er.
    + pose proof (dedup_resources actor items r Ei Er) as Hr.
      rewrite Eo in Hr. unfold resources_of in Hr. rewrite Er2 in Hr.
      inversion Hr as [Hr']. subst r2.
      pose proof (filter_filter_keys
                    (fun k0 => Eidolon.mem k0 (collected_tags items)) r)
        as Hf.
      pose proof (proj1 (filter_nil_iff _ _ _) Hf k Hk) as E.
      apply mem_false_not_In in E. apply E. exact Hin.
    + pose proof (dedup_no_resources actor items Ei Er) as Hr.
      rewrite Eo in Hr. unfold resources_of in Hr. congruence.
Qed.

Lemma dedup_output_collision_free_witness :
  exists once,
    dedup actor_bite = JDict once
    /\ Dict.get "items" once = Some (JList (items_of (dedup actor_bite)))
    /\ collision_free once (items_of (dedup actor_bite)).
Proof.
  exact (dedup_output_collision_free actor_bite
           (items_of (JDict actor_bite)) eq_refl eq_refl).
Defined.

(** X15: when no [_id] of an item or an action ends in white space, the
    deduplicator is idempotent: run on its own output it returns
    [changed = False], an empty log and the same document. *)
Theorem dedup_idempotent_when_ids_clean : forall actor items once,
  Dict.get "items" actor = Some (JList items) ->
  ids_clean items = true ->
  dedup actor = JDict once ->
  Eidolon.fix_actor_identifiers_and_resources once = (false, [], JDict once).
Proof.
  intros actor items once Ei Hc Eo.
  destruct (dedup_second_run_clean actor items Ei Hc) as (once' & Eo' & E).
  rewrite Eo in Eo'. inversion Eo'; subst once'. exact E.
Qed.

Lemma dedup_idempotent_when_ids_clean_witness :
  Eidolon.fix_actor_identifiers_and_resources
    [("type", JStr "npc");
     ("items",
      JList [JDict [("_id", JStr "a1");
                    ("system", JDict [("tag", JStr "bite")])];
             JDict [("_id", JStr "abc123");
                    ("system", JDict [("tag", JStr "bite_abc123");
                                      ("useCustomTag", JBool true)])]]);
     ("system", JDict [("resources", JDict [("rage", JInt 1)])])]
  = (false, [],
     JDict [("type", JStr "npc");
            ("items",
             JList [JDict [("_id", JStr "a1");
                           ("system", JDict [("tag", JStr "bite")])];
                    JDict [("_id", JStr "abc123");
                           ("system", JDict [("tag", JStr "bite_abc123");
                                             ("useCustomTag", JBool true)])]]);
            ("system", JDict [("resources", JDict [("rage", JInt 1)])])]).
Proof.
  exact (dedup_idempotent_when_ids_clean actor_bite
           (items_of (JDict actor_bite)) _ eq_refl eq_refl eq_refl).
Defined.

(** ** [get] *)

(** X16: [get] on a dotted path is [get] on its first parts followed by
    [get] on the rest; it returns the default as soon as the value reached
    is no mapping, so it never looks inside a list or a string. *)
Theorem get_path_compose : forall d p q,
  get_path d (p ++ q)
  = match get_path d p with
    | Some v => get_path v q
    | None => None
    end
  /\ (is_dict d = false -> p <> [] -> get_path d p = None).
Proof.
  intros d p q. split; [apply get_path_app|].
  intros Hd Hp. destruct p as [|k rest]; [congruence|].
  destruct d; try reflexivity. discriminate Hd.
Qed.

Lemma get_path_compose_witness :
  get_path (JList [JDict [("traits", JNull)]]) ["traits"] = None.
Proof.
  apply (proj2 (get_path_compose (JList [JDict [("traits", JNull)]])
                  ["traits"] [])).
  - reflexivity.
  - discriminate.
Defined.

(** ** The counts [process_db_file] and [process_file] return *)

Lemma count_mutated : forall patch,
  (forall doc c doc', patch doc = Ok (c, doc') ->
     (c = true <-> doc' <> JDict doc)) ->
  forall lines n outs,
    Files.process_lines Text.json_loads Text.json_dumps patch lines
    = Ok (n, outs) ->
    n = List.length (filter (line_mutated patch) lines).
Proof.
  intros patch Hacc. induction lines as [|line rest IH]; simpl;
    intros n outs E.
  - inversion E. reflexivity.
  - inv_bind E. destruct a as [changed out].
    inv_bind E. destruct a as [p outs']. inversion E; subst. clear E.
    rewrite (IH _ _ E1).
    destruct (process_line_cases _ _ _ _ _ _ E0) as
      [(P & _ & ->)|(P & doc & doc' & L & Pd & _)];
      unfold passes_through in P; unfold line_mutated.
    + destruct (PyStr.nonblank (Files.rstrip_nl line)); [|reflexivity].
      cbn [negb orb andb] in *.
      destruct (Text.json_loads (Files.rstrip_nl line))
        as [[| | | | | |doc]|]; try reflexivity. discriminate P.
    + destruct (PyStr.nonblank (Files.rstrip_nl line));
        [|discriminate P].
      cbn [andb]. rewrite L, Pd.
      destruct (json_eqb doc' (JDict doc)) eqn:Eq; cbn [negb].
      * apply json_eqb_eq in Eq. destruct changed; [|reflexivity].
        destruct (proj1 (Hacc doc true doc' Pd) eq_refl Eq).
      * apply json_eqb_neq in Eq. destruct changed; [reflexivity|].
        pose proof (proj2 (Hacc doc false doc' Pd) Eq). discriminate.
Qed.

Lemma resist_process_doc_flag : forall doc c doc',
  Resist.process_doc doc = Ok (c, doc') -> (c = true <-> doc' <> JDict doc).
Proof.
  intros doc c doc' E. unfold Resist.process_doc in E.
  destruct (Resist.should_patch_doc doc).
  - inv_bind E. destruct a as [[c1 log] d1]. inversion E; subst. clear E.
    destruct (resist_flag _ _ _ _ E0) as [Hf Ht].
    exact (proj1 (flag_iff _ _ _ _ _ Hf Ht)).
  - inversion E; subst. split; [discriminate | congruence].
Qed.

Lemma packages_process_doc_flag : forall only_npc doc c doc',
  Packages.process_doc only_npc doc = Ok (c, doc') ->
  (c = true <-> doc' <> JDict doc).
Proof.
  intros only_npc doc c doc' E. unfold Packages.process_doc in E.
  destruct (only_npc && negb _).
  - inversion E; subst. split; [discriminate | congruence].
  - inv_bind E. destruct a as [[c1 log] d1]. inversion E; subst. clear E.
    destruct (packages_flag _ _ _ _ E0) as [Hf Ht].
    exact (proj1 (flag_iff _ _ _ _ _ Hf Ht)).
Qed.

Lemma eidolon_process_doc_flag : forall doc c doc',
  Eidolon_process_doc doc = Ok (c, doc') -> (c = true <-> doc' <> JDict doc).
Proof.
  intros doc c doc' E. unfold Eidolon_process_doc in E.
  destruct (Eidolon.is_actor_doc doc).
  - destruct (Eidolon.fix_actor_identifiers_and_resources doc)
      as [[c1 log] d1] eqn:Ef.
    inversion E; subst. clear E.
    destruct (eidolon_flag _ _ _ _ Ef) as [Hf Ht].
    exact (proj1 (flag_iff _ _ _ _ _ Hf Ht)).
  - inversion E; subst. split; [discriminate | congruence].
Qed.

(** X17: the count each of the three file loops returns is the number of
    input lines that decode to a mapping which the script's repair returned
    different from what it was given. *)
Theorem patched_count_is_mutated_count : forall lines n outs,
  (Resist_process_db_file lines = Ok (n, outs) ->
   n = List.length (filter (line_mutated Resist.process_doc) lines))
  /\ (forall only_npc,
        Packages_process_db_file only_npc lines = Ok (n, outs) ->
        n = List.length
              (filter (line_mutated (Packages.process_doc only_npc)) lines))
  /\ (Eidolon_process_file lines = Ok (n, outs) ->
      n = List.length (filter (line_mutated Eidolon_process_doc) lines)).
Proof.
  intros lines n outs. split; [|split].
  - apply count_mutated. exact resist_process_doc_flag.
  - intros only_npc. apply count_mutated.
    exact (packages_process_doc_flag only_npc).
  - apply count_mutated. exact eidolon_process_doc_flag.
Qed.

Lemma patched_count_is_mutated_count_witness :
  1 = List.length (filter (line_mutated Resist.process_doc) three_lines).
Proof.
  eapply (proj1 (patched_count_is_mutated_count three_lines 1 _)).
  vm_compute. reflexivity.
Defined.

Lemma packages_loop_locals : forall loads dumps only_npc lines i p ln,
  Packages_lines_loop loads dumps only_npc i p ln lines
  = match Files.process_lines loads dumps (Packages.process_doc only_npc)
            lines with
    | Raise e => Raise e
    | Ok (n, _) =>
        Ok (p + n,
            match lines with
            | [] => ln
            | _ => Some (i + List.length lines - 1)
            end)
    end.
Proof.
  intros loads dumps only_npc.
  induction lines as [|line rest IH]; intros i p ln; simpl.
  - rewrite Nat.add_0_r. reflexivity.
  - destruct (Files.process_line _ _ _ line) as [[changed out]|e];
      [|reflexivity].
    simpl. rewrite IH.
    destruct (Files.process_lines _ _ _ rest) as [[n outs]|e];
      [|reflexivity].
    simpl. f_equal. f_equal.
    + destruct changed; lia.
    + destruct rest; simpl; f_equal; lia.
Qed.

(** X18: whatever the decoder and the serializer, when the loop of
    [process_db_file] of repair_pf1_packages.py runs to its end on an input
    of at least one line, the function returns the patched count together
    with the number of lines; on an input without lines its [return] raises
    [UnboundLocalError], [line_no] never having been bound; an exception
    that ends the loop is the outcome of the call. *)
Theorem packages_return_value : forall loads dumps only_npc,
  Packages_process_db_file_returns loads dumps only_npc []
  = UnboundLocalError
  /\ (forall lines patched outs,
        lines <> [] ->
        Files.process_lines loads dumps (Packages.process_doc only_npc) lines
        = Ok (patched, outs) ->
        Packages_process_db_file_returns loads dumps only_npc lines
        = Returns patched (List.length lines))
  /\ (forall lines e,
        Files.process_lines loads dumps (Packages.process_doc only_npc) lines
        = Raise e ->
        Packages_process_db_file_returns loads dumps only_npc lines
        = Raises e).
Proof.
  intros loads dumps only_npc. split; [reflexivity|]. split.
  - intros lines patched outs N E.
    unfold Packages_process_db_file_returns.
    rewrite packages_loop_locals, E.
    destruct lines as [|line rest]; [congruence|].
    cbn [List.length]. f_equal; lia.
  - intros lines e E. unfold Packages_process_db_file_returns.
    rewrite packages_loop_locals, E. reflexivity.
Qed.

Lemma packages_return_value_witness :
  Packages_process_db_file_returns Text.json_loads Text.json_dumps true
    three_lines
  = Returns 1 3.
Proof.
  eapply (proj1 (proj2 (packages_return_value Text.json_loads
                          Text.json_dumps true)) three_lines 1).
  - discriminate.
  - vm_compute. reflexivity.
Defined.

(** ** [str_to_list] on joined tokens *)

Lemma re_split_token : forall t rest,
  sep_free t = true ->
  PyStr.re_split false (t ++ rest)
  = match PyStr.re_split false rest with
    | x :: xs => (t ++ x)%string :: xs
    | [] => [t]
    end.
Proof.
  unfold sep_free. induction t as [|c t IH]; intros rest H.
  - cbn [append]. pose proof (re_split_sep_free rest false) as F.
    destruct (PyStr.re_split false rest) as [|x xs] eqn:E; [|reflexivity].
    destruct rest as [|c r]; simpl in E; [discriminate|].
    destruct (PyStr.is_sep c); [discriminate|].
    destruct (PyStr.re_split false r); discriminate.
  - simpl in H. apply andb_prop in H. destruct H as [Hc Ht].
    apply negb_true_iff in Hc. cbn [append PyStr.re_split]. rewrite Hc.
    rewrite (IH rest Ht).
    destruct (PyStr.re_split false rest) as [|x xs]; reflexivity.
Qed.

Lemma re_split_run : forall sep rest,
  PyStr.all_chars PyStr.is_sep sep = true ->
  PyStr.re_split true (sep ++ rest) = PyStr.re_split true rest.
Proof.
  induction sep as [|c sep IH]; intros rest H; [reflexivity|].
  simpl in H. apply andb_prop in H. destruct H as [Hc Hs].
  cbn [append PyStr.re_split]. rewrite Hc. apply IH. exact Hs.
Qed.

Lemma re_split_after_run : forall t,
  t <> EmptyString -> sep_free t = true ->
  forall rest,
    PyStr.re_split true (t ++ rest) = PyStr.re_split false (t ++ rest).
Proof.
  intros t N H rest. destruct t as [|c t]; [congruence|].
  unfold sep_free in H. simpl in H. apply andb_prop in H.
  destruct H as [Hc _]. apply negb_true_iff in Hc.
  cbn [append PyStr.re_split]. rewrite Hc. reflexivity.
Qed.

Lemma append_empty_r : forall s : string, (s ++ EmptyString)%string = s.
Proof. induction s as [|c s IH]; simpl; congruence. Qed.

Lemma re_split_concat : forall sep tokens,
  sep <> EmptyString -> PyStr.all_chars PyStr.is_sep sep = true ->
  Forall clean_token tokens -> tokens <> [] ->
  PyStr.re_split false (String.concat sep tokens) = tokens.
Proof.
  intros sep tokens Ns Hs F. induction F as [|t ts Ht Hts IH]; intros N.
  - congruence.
  - destruct Ht as (Nt & _ & St). destruct ts as [|t2 ts].
    + simpl. apply re_split_no_sep. exact St.
    + change (String.concat sep (t :: t2 :: ts))
        with (t ++ sep ++ String.concat sep (t2 :: ts))%string.
      rewrite (re_split_token t _ St).
      destruct sep as [|c sep]; [congruence|].
      simpl in Hs. apply andb_prop in Hs. destruct Hs as [Hc Hsep].
      cbn [append PyStr.re_split]. rewrite Hc.
      rewrite (re_split_run sep _ Hsep). rewrite append_empty_r.
      f_equal.
      inversion Hts as [|? ? Ht2 Hts2]; subst.
      destruct Ht2 as (Nt2 & _ & St2).
      assert (E : exists rest,
                String.concat (String c sep) (t2 :: ts)
                = (t2 ++ rest)%string).
      { destruct ts as [|t3 ts]; cbn [String.concat].
        - exists EmptyString. symmetry. apply append_empty_r.
        - eexists. reflexivity. }
      destruct E as [rest E].
      assert (IH' : PyStr.re_split false
                      (String.concat (String c sep) (t2 :: ts))
                    = t2 :: ts).
      { apply IH. discriminate. }
      rewrite E in *. rewrite (re_split_after_run t2 Nt2 St2). exact IH'.
Qed.

(** X19: [str_to_list] undoes joining: tokens that are non-empty, stripped
    and free of separators, joined by any non-empty run of [;] and [,],
    are returned as they were, in order. *)
Theorem str_to_list_concat : forall sep tokens,
  sep <> EmptyString -> PyStr.all_chars PyStr.is_sep sep = true ->
  Forall clean_token tokens ->
  PyStr.str_to_list (String.concat sep tokens) = tokens.
Proof.
  intros sep tokens Ns Hs F. unfold PyStr.str_to_list.
  destruct tokens as [|t ts]; [reflexivity|].
  rewrite (re_split_concat sep (t :: ts) Ns Hs F) by discriminate.
  induction F as [|x xs (Nx & Sx & _) Hxs IH]; [reflexivity|].
  cbn [map filter]. rewrite Sx.
  destruct x as [|c x]; [congruence|]. cbn [PyStr.is_empty negb].
  f_equal. exact IH.
Qed.

Lemma str_to_list_concat_witness :
  PyStr.str_to_list "fire;,cold;,5/magic" = ["fire"; "cold"; "5/magic"].
Proof.
  apply (str_to_list_concat ";," ["fire"; "cold"; "5/magic"]).
  - discriminate.
  - reflexivity.
  - repeat constructor; discriminate.
Defined.

(** ** The languages step *)

Lemma nulls_partition : forall l,
  List.length l
  = count_nulls l + List.length (filter (fun x => negb (is_null x)) l).
Proof.
  unfold count_nulls. induction l as [|x l IH]; simpl; [reflexivity|].
  destruct (is_null x); simpl; lia.
Qed.

(** X20: the languages step of both normalizers fires exactly when
    [system.traits.languages.value] is a list holding a null; it then
    reports the number of nulls, which is the number of elements removed,
    and leaves the other elements in their order. *)
Theorem language_nulls_step : forall doc,
  match purge_language_nulls doc with
  | Some (n, doc') =>
      exists l,
        get_path doc ["system"; "traits"; "languages"; "value"]
        = Some (JList l)
        /\ n = count_nulls l /\ 0 < n
        /\ get_path doc' ["system"; "traits"; "languages"; "value"]
           = Some (JList (filter (fun x => negb (is_null x)) l))
        /\ List.length l
           = n + List.length (filter (fun x => negb (is_null x)) l)
  | None =>
      forall l,
        get_path doc ["system"; "traits"; "languages"; "value"]
        = Some (JList l) ->
        count_nulls l = 0
  end.
Proof.
  intros doc. unfold purge_language_nulls.
  destruct (get_path doc ["system"; "traits"; "languages"; "value"])
    as [[| | | | |l|]|] eqn:E; try (intros l0 H; discriminate H).
  destruct (count_nulls l =? 0) eqn:En; cbn [negb].
  - intros l0 H. inversion H; subst. apply Nat.eqb_eq. exact En.
  - exists l. split; [reflexivity|]. split; [reflexivity|].
    apply Nat.eqb_neq in En. split; [lia|]. split; [|apply nulls_partition].
    destruct doc as [| | | | | |d]; try discriminate E.
    assert (Hl : exists lt,
              get_path (JDict d) ["system"; "traits"; "languages"]
              = Some (JDict lt)).
    { change ["system"; "traits"; "languages"; "value"]
        with (["system"; "traits"; "languages"] ++ ["value"]) in E.
      rewrite get_path_app in E.
      destruct (get_path (JDict d) ["system"; "traits"; "languages"])
        as [[| | | | | |lt]|]; try discriminate E.
      exists lt. reflexivity. }
    destruct Hl as [lt Hl].
    rewrite (ensure_dict_path_present _ _ _ Hl).
    apply (get_put_same _ _ _ _ E).
Qed.

Lemma language_nulls_step_witness :
  exists l,
    get_path doc_lang_nulls ["system"; "traits"; "languages"; "value"]
    = Some (JList l)
    /\ 1 = count_nulls l /\ 0 < 1
    /\ get_path
         (JDict [("type", JStr "npc");
                 ("bonus", JStr "+3");
                 ("system",
                  JDict [("traits",
                          JDict [("languages",
                                  JDict [("value",
                                          JList [JStr "Common"])])])])])
         ["system"; "traits"; "languages"; "value"]
       = Some (JList (filter (fun x => negb (is_null x)) l))
    /\ List.length l
       = 1 + List.length (filter (fun x => negb (is_null x)) l).
Proof. exact (language_nulls_step doc_lang_nulls). Defined.

(* ================================================================== *)
(** * The trait rules and the numeric pass together *)

Lemma resist_before_pass_spec : forall doc c log doc',
  Resist.repair_actor_doc doc = Ok (c, log, doc') ->
  exists c', convert_plus_number_strings (resist_before_pass doc)
             = Ok (c', doc').
Proof.
  intros doc c log doc' E. unfold resist_before_pass.
  destruct (has_traits doc) eqn:Ht.
  - destruct (has_traits_inv doc Ht) as [traits Et]. rewrite Et.
    rewrite (resist_repair_unfold doc traits Et) in E.
    destruct (resist_rules traits) as [[c1 tr] log1]. cbn [fst snd].
    inv_bind E. destruct a as [c' d'].
    assert (d' = doc') by (destruct c'; inversion E; reflexivity). subst d'.
    exists c'. exact E0.
  - rewrite (resist_repair_no_traits doc Ht) in E.
    inv_bind E. destruct a as [c' d'].
    assert (d' = doc') by (destruct c'; inversion E; reflexivity). subst d'.
    exists c'. unfold has_traits in Ht.
    destruct (get_path doc ["system"; "traits"]) as [[| | | | | |t]|];
      try exact E0. discriminate Ht.
Qed.

Lemma packages_before_pass_spec : forall doc c log doc',
  Packages.repair_doc doc = Ok (c, log, doc') ->
  exists c', convert_plus_number_strings (packages_before_pass doc)
             = Ok (c', doc').
Proof.
  intros doc c log doc' E. unfold packages_before_pass.
  destruct (has_traits doc) eqn:Ht.
  - destruct (has_traits_inv doc Ht) as [traits Et]. rewrite Et.
    rewrite (packages_repair_unfold doc traits Et) in E.
    destruct (packages_rules traits) as [[c1 tr] log1]. cbn [fst snd].
    inv_bind E. destruct a as [[c' log'] d']. inversion E; subst. clear E.
    apply packages_convert_ok in E0. exists c'. exact E0.
  - rewrite (packages_repair_no_traits doc Ht) in E.
    inv_bind E. destruct a as [[c' log'] d']. inversion E; subst. clear E.
    apply packages_convert_ok in E0. eexists. unfold has_traits in Ht.
    destruct (get_path doc ["system"; "traits"]) as [[| | | | | |t]|];
      try exact E0. discriminate Ht.
Qed.

Lemma before_pass_no_traits : forall doc,
  has_traits doc = false ->
  resist_before_pass doc = doc /\ packages_before_pass doc = doc.
Proof.
  intros doc Ht. unfold resist_before_pass, packages_before_pass, has_traits
    in *.
  destruct (get_path doc ["system"; "traits"]) as [[| | | | | |t]|];
    try (split; reflexivity). discriminate Ht.
Qed.

(** C8 as stated fails inside [system.traits]: the trait rules run before
    the numeric pass, and a plus-number string they meet is not always
    replaced in place by its integer.  A [value] that is a mapping is
    replaced by the empty list, the plus-number string in it with it; a
    [value] that is a plus-number string becomes a list holding the
    integer. *)
Lemma plus_string_in_trait_entry_not_replaced :
  get_path doc_trait_mapping_plus ["system"; "traits"; "eres"; "value"; "x"]
  = Some (JStr "+2")
  /\ match Resist.repair_actor_doc doc_trait_mapping_plus with
     | Ok (_, _, doc') =>
         get_path doc' ["system"; "traits"; "eres"; "value"]
         = Some (JList [])
     | Raise _ => False
     end
  /\ match Resist.repair_actor_doc
             (JDict [("system",
                      JDict [("traits",
                              JDict [("eres",
                                      JDict [("value", JStr "+2")])])])]) with
     | Ok (_, _, doc') =>
         get_path doc' ["system"; "traits"; "eres"; "value"]
         = Some (JList [JInt 2])
     | Raise _ => False
     end.
Proof. vm_compute. repeat split. Qed.

(** C8 (amended): the document a Shape Normalizer returns holds no
    plus-number string among the values of its mappings and the elements of
    its sequences, at any depth.  It is what the numeric pass returns on the
    document the trait rules leave, which is a function of the input (the
    input itself when it has no [system.traits] mapping), and it differs
    from that document only in that every plus-number string is replaced in
    place by the integer its decimal digits denote.  At every path that does
    not lead to or through [system.traits], it differs in this way from the
    input. *)
Theorem numeric_normalization : forall doc doc',
  shape_normalizer_output doc doc' ->
  plus_free doc' = true
  /\ (forall c log, Resist.repair_actor_doc doc = Ok (c, log, doc') ->
      (exists c', convert_plus_number_strings (resist_before_pass doc)
                  = Ok (c', doc'))
      /\ normalized (resist_before_pass doc) doc')
  /\ (forall c log, Packages.repair_doc doc = Ok (c, log, doc') ->
      (exists c', convert_plus_number_strings (packages_before_pass doc)
                  = Ok (c', doc'))
      /\ normalized (packages_before_pass doc) doc')
  /\ (has_traits doc = false -> normalized doc doc')
  /\ (forall p, outside_traits p = true ->
      opt_rel norm_value (get_path doc p) (get_path doc' p)).
Proof.
  intros doc doc' H.
  assert (Hr : forall c log,
            Resist.repair_actor_doc doc = Ok (c, log, doc') ->
            (exists c', convert_plus_number_strings (resist_before_pass doc)
                        = Ok (c', doc'))
            /\ normalized (resist_before_pass doc) doc').
  { intros c log E.
    destruct (resist_before_pass_spec doc c log doc' E) as [c' Ec].
    split; [exists c'; exact Ec|].
    exact (proj1 (proj2 (convert_post _ _ _ Ec))). }
  assert (Hp : forall c log,
            Packages.repair_doc doc = Ok (c, log, doc') ->
            (exists c', convert_plus_number_strings (packages_before_pass doc)
                        = Ok (c', doc'))
            /\ normalized (packages_before_pass doc) doc').
  { intros c log E.
    destruct (packages_before_pass_spec doc c log doc' E) as [c' Ec].
    split; [exists c'; exact Ec|].
    exact (proj1 (proj2 (convert_post _ _ _ Ec))). }
  split; [|split; [exact Hr|split; [exact Hp|split]]].
  - destruct H as [(c & log & E)|(c & log & E)].
    + destruct (proj1 (Hr c log E)) as [c' Ec].
      exact (proj1 (convert_post _ _ _ Ec)).
    + destruct (proj1 (Hp c log E)) as [c' Ec].
      exact (proj1 (convert_post _ _ _ Ec)).
  - intros Ht. destruct (before_pass_no_traits doc Ht) as [Er Ep].
    destruct H as [(c & log & E)|(c & log & E)].
    + rewrite <- Er at 1. exact (proj2 (Hr c log E)).
    + rewrite <- Ep at 1. exact (proj2 (Hp c log E)).
  - intros p Hout. destruct p as [|k rest]; [discriminate|].
    destruct (repair_decompose doc doc' H)
      as [(Ht & c & E)|(traits & tr & c & Et & Hn & E)].
    + exact (convert_get_path doc c doc' k rest E).
    + rewrite <- (put_traits_outside doc traits (JDict tr) (k :: rest) Et
                    Hout).
      exact (convert_get_path _ c doc' k rest E).
Qed.

Lemma numeric_normalization_witness :
  plus_free (JDict [("abilityMod", JInt 2)]) = true
  /\ normalized doc_ability (JDict [("abilityMod", JInt 2)]).
Proof.
  assert (H : shape_normalizer_output doc_ability
                (JDict [("abilityMod", JInt 2)])).
  { left. exists true, [Resist.GlobalPlus]. reflexivity. }
  destruct (numeric_normalization doc_ability _ H) as (F & _ & _ & N & _).
  split; [exact F | exact (N eq_refl)].
Defined.



